(** * LLM structured-response benchmark: orchestration engine and metrics

    A shallow embedding of the benchmark engine of
    [src/lib/test-runner.ts] (attempt executors, the four scenario
    executors), of the aggregator [calculateScenarioSummary] of the storage
    module, of [mergeSequentialParts] of the schema module and of
    [getRetryPrompt] of [src/lib/prompts.ts], followed by the properties
    proved about them.

    Modelling conventions.
    - JavaScript strings are [string] (byte strings; the prompt texts are
      ASCII except for the bullet of the retry prompt, kept as its three
      UTF-8 bytes).
    - Counters, token counts and millisecond durations are [Z]; they are
      integers far below 2^53, so JavaScript's arithmetic on them is exact.
    - Rates and averages are [Q]: the value of [count / total * 100] before
      the binary64 rounding.  Division is only reached behind the guard
      [totalRuns === 0], so the divisor is never zero.
    - The language model, [JSON.parse], the schema validator applied to
      model output and the clock are outside the program: they are the
      fields of an environment record, and every theorem about the engine
      quantifies over all environments.
    - The optional progress callback ([onProgress?.(...)]) is taken as
      absent: it is an observer and none of its arguments flows back. *)

From Stdlib Require Import String Ascii DecimalString List ZArith QArith Qabs Lia Bool Arith
  Permutation DecimalNat.
Import ListNotations.

Local Close Scope Q_scope.
Local Open Scope list_scope.
Local Open Scope string_scope.

(** ** Strings *)

Module Str.

(** Line feed and double quote, written by their codes. *)
Definition nl : string := String (ascii_of_nat 10) EmptyString.
Definition dq : string := String (ascii_of_nat 34) EmptyString.

(** [Array.prototype.join]. *)
Definition join (sep : string) (parts : list string) : string :=
  String.concat sep parts.

(** A text given line by line. *)
Definition lines (ls : list string) : string := join nl ls.

(** A line given by its pieces between double quotes. *)
Definition quoted (pieces : list string) : string := join dq pieces.

(** [hay.startsWith(needle)]. *)
Fixpoint startsWith (hay needle : string) : bool :=
  match needle, hay with
  | EmptyString, _ => true
  | String _ _, EmptyString => false
  | String c needle', String d hay' =>
      if Ascii.eqb c d then startsWith hay' needle' else false
  end.

(** [hay.includes(needle)]. *)
Fixpoint includes (hay needle : string) : bool :=
  if startsWith hay needle then true
  else match hay with
       | EmptyString => false
       | String _ hay' => includes hay' needle
       end.

(** The relation computed by [includes]: [needle] occurs in [hay]. *)
Definition Contains (hay needle : string) : Prop :=
  exists pre post, hay = pre ++ needle ++ post.

End Str.

(** ** Data model of the storage module *)

Module ValidationError.
Record t := mk {
  path : list string;
  message : string;
  code : string
}.
End ValidationError.

(** *** Schema types ([z.infer] of the schemas of the schema module) *)

Inductive ModelType := reasoning | semantic.

Module Actor.
Record t := mk {
  title : string;
  reason : string;
  skills : list string;
  prompt : string;
  model : ModelType
}.
End Actor.

(** The literal type ['create_actor']. *)
Inductive ActionType := create_actor.

Module Action.
Record t := mk {
  type : ActionType;
  actor : Actor.t
}.
End Action.

Module Response.
Record t := mk {
  recommendation : string;
  action : option Action.t          (* ActionSchema.nullable() *)
}.
End Response.

Module SequentialPart1.
Record t := mk {
  recommendation : string;
  action : option ActionType        (* z.literal('create_actor').nullable() *)
}.
End SequentialPart1.

Module SequentialPart2.
Record t := mk {
  title : string;
  reason : string;
  skills : list string
}.
End SequentialPart2.

Module SequentialPart3.
Record t := mk {
  prompt : string;
  model : ModelType
}.
End SequentialPart3.

(** A validated object stored as [Record<string, unknown>]: one variant per
    schema the engine validates against. *)
Inductive Parsed :=
| OfResponse (r : Response.t)
| OfPart1 (p : SequentialPart1.t)
| OfPart2 (p : SequentialPart2.t)
| OfPart3 (p : SequentialPart3.t).

Module AttemptResult.
Record t := mk {
  attemptNumber : nat;
  timestamp : Z;                    (* the clock reading rendered by toISOString *)
  success : bool;
  durationMs : Z;
  inputTokens : option Z;           (* inputTokens?: number *)
  outputTokens : option Z;
  prompt : string;
  rawResponse : string;
  parsedResponse : option Parsed;
  validationErrors : list ValidationError.t;
  errorMessage : option string
}.
End AttemptResult.

Module RunResult.
Record t := mk {
  runNumber : nat;
  success : bool;
  attempts : list AttemptResult.t;
  totalDurationMs : Z;
  finalResponse : option Parsed
}.
End RunResult.

Module Summary.
Record t := mk {
  successRate : Q;
  firstAttemptSuccessRate : Q;
  afterRetry1SuccessRate : Q;
  afterRetry2SuccessRate : Q;
  afterRetry3SuccessRate : Q;
  averageDurationMs : Q;
  averageAttempts : Q;
  totalTokensUsed : Z
}.
End Summary.

(** ** [mergeSequentialParts] *)

Definition mergeSequentialParts
    (part1 : SequentialPart1.t) (part2 : SequentialPart2.t)
    (part3 : SequentialPart3.t) : Response.t :=
  {| Response.recommendation := SequentialPart1.recommendation part1;
     Response.action :=
       match SequentialPart1.action part1 with
       | Some create_actor =>
           Some {| Action.type := create_actor;
                   Action.actor :=
                     {| Actor.title := SequentialPart2.title part2;
                        Actor.reason := SequentialPart2.reason part2;
                        Actor.skills := SequentialPart2.skills part2;
                        Actor.prompt := SequentialPart3.prompt part3;
                        Actor.model := SequentialPart3.model part3 |} |}
       | None => None
       end |}.

(** ** [calculateScenarioSummary] *)

Module Storage.

(** [run.attempts[i]?.success], with [undefined] read as false. *)
Definition attemptSucceeds (run : RunResult.t) (i : nat) : bool :=
  match nth_error (RunResult.attempts run) i with
  | Some a => AttemptResult.success a
  | None => false
  end.

(** [x || 0] on an optional count: [undefined] and [0] both give [0]. *)
Definition orZero (x : option Z) : Z :=
  match x with
  | Some v => v
  | None => 0%Z
  end.

(** [runs.filter(p).length]. *)
Definition countIf {A} (p : A -> bool) (l : list A) : Z :=
  Z.of_nat (length (filter p l)).

(** The three counters of the cumulative loop. *)
Record Tiers := mkTiers { afterRetry1 : Z; afterRetry2 : Z; afterRetry3 : Z }.

(** One iteration of [for (const run of runs)]. *)
Definition tierStep (acc : Tiers) (run : RunResult.t) : Tiers :=
  if attemptSucceeds run 0 then acc                       (* continue *)
  else if attemptSucceeds run 1 then
    mkTiers (afterRetry1 acc + 1) (afterRetry2 acc + 1) (afterRetry3 acc + 1)
  else if attemptSucceeds run 2 then
    mkTiers (afterRetry1 acc) (afterRetry2 acc + 1) (afterRetry3 acc + 1)
  else if attemptSucceeds run 3 then
    mkTiers (afterRetry1 acc) (afterRetry2 acc) (afterRetry3 acc + 1)
  else acc.

Definition tiers (firstAttemptSuccesses : Z) (runs : list RunResult.t) : Tiers :=
  fold_left tierStep runs
    (mkTiers firstAttemptSuccesses firstAttemptSuccesses firstAttemptSuccesses).

(** The inner [reduce] over the attempts of one run. *)
Definition attemptTokens (aSum : Z) (a : AttemptResult.t) : Z :=
  (aSum + orZero (AttemptResult.inputTokens a)
        + orZero (AttemptResult.outputTokens a))%Z.

Definition runTokens (sum : Z) (r : RunResult.t) : Z :=
  (sum + fold_left attemptTokens (RunResult.attempts r) 0)%Z.

(** [(count / totalRuns) * 100]. *)
Definition percent (count totalRuns : Z) : Q :=
  ((inject_Z count / inject_Z totalRuns) * 100)%Q.

Definition calculateScenarioSummary (runs : list RunResult.t) : Summary.t :=
  let totalRuns := Z.of_nat (length runs) in
  if (totalRuns =? 0)%Z then
    {| Summary.successRate := 0;
       Summary.firstAttemptSuccessRate := 0;
       Summary.afterRetry1SuccessRate := 0;
       Summary.afterRetry2SuccessRate := 0;
       Summary.afterRetry3SuccessRate := 0;
       Summary.averageDurationMs := 0;
       Summary.averageAttempts := 0;
       Summary.totalTokensUsed := 0 |}
  else
    let successfulRuns := countIf RunResult.success runs in
    let firstAttemptSuccesses := countIf (fun r => attemptSucceeds r 0) runs in
    let t := tiers firstAttemptSuccesses runs in
    let totalDuration :=
      fold_left (fun sum r => (sum + RunResult.totalDurationMs r)%Z) runs 0%Z in
    let totalAttempts :=
      fold_left (fun sum r => (sum + Z.of_nat (length (RunResult.attempts r)))%Z)
                runs 0%Z in
    let totalTokens := fold_left runTokens runs 0%Z in
    {| Summary.successRate := percent successfulRuns totalRuns;
       Summary.firstAttemptSuccessRate := percent firstAttemptSuccesses totalRuns;
       Summary.afterRetry1SuccessRate := percent (afterRetry1 t) totalRuns;
       Summary.afterRetry2SuccessRate := percent (afterRetry2 t) totalRuns;
       Summary.afterRetry3SuccessRate := percent (afterRetry3 t) totalRuns;
       Summary.averageDurationMs := (inject_Z totalDuration / inject_Z totalRuns)%Q;
       Summary.averageAttempts := (inject_Z totalAttempts / inject_Z totalRuns)%Q;
       Summary.totalTokensUsed := totalTokens |}.

End Storage.

(** ** Messages and prompts ([src/lib/prompts.ts], the conversation module) *)

Inductive Role := system | user | assistant.

Record Message := mkMessage { role : Role; content : string }.

Module Conversation.

Record ConversationMessage := { participant : string; message : string }.

Definition conversation : list ConversationMessage :=
  [ {| participant := "Casey";
       message := "Hey team, we've got a problem. Three enterprise customers are complaining about slow load times on the dashboard. One of them is threatening to churn if we don't fix it by end of month." |};
    {| participant := "Alex";
       message := "I've been looking into it. The main dashboard query is taking 8-12 seconds on accounts with more than 50k records. It's definitely a database issue." |};
    {| participant := "Jordan";
       message := "I added some basic indexes last week but it didn't help much. The query is joining across 4 tables and aggregating a lot of data." |};
    {| participant := "Sam";
       message := "From the frontend side, I can add loading skeletons and pagination, but that's just masking the problem. Users are going to notice the wait regardless." |};
    {| participant := "Morgan";
       message := "I checked the database server metrics. CPU and memory look fine, but I'm seeing a lot of disk I/O. Not sure what that means for query performance though." |};
    {| participant := "Alex";
       message := "I tried rewriting the query to use subqueries instead of joins, but it actually made it slower. I'm kind of out of ideas here." |};
    {| participant := "Jordan";
       message := "Should we look at caching? We could cache the dashboard data in Redis and refresh it every few minutes." |};
    {| participant := "Casey";
       message := "The customers want real-time data, or at least near real-time. A few minutes delay isn't going to work for their use case." |};
    {| participant := "Sam";
       message := "What about lazy loading sections of the dashboard? We could load the critical metrics first and the rest async." |};
    {| participant := "Alex";
       message := "That helps with perceived performance, but the underlying query is still slow. And some customers have dashboards with all sections visible - they'd still see the delay." |};
    {| participant := "Morgan";
       message := "I could spin up a read replica to offload the dashboard queries from the primary database. Would that help?" |};
    {| participant := "Jordan";
       message := "It might reduce load on the primary, but the query itself would still be slow. We need to optimise the actual query execution." |};
    {| participant := "Casey";
       message := "What about the table structure itself? Maybe we need to redesign how we're storing this data?" |};
    {| participant := "Alex";
       message := "That's crossed my mind. But honestly, I'm not confident about making schema changes without knowing exactly what's causing the bottleneck. We could make it worse." |};
    {| participant := "Jordan";
       message := "I looked at EXPLAIN ANALYZE on the query. There's a sequential scan on the events table that takes most of the time. But I'm not sure how to fix it without breaking other queries that depend on that table." |};
    {| participant := "Morgan";
       message := "Should we consider moving to a different database? I've heard TimescaleDB is good for time-series data, and a lot of our data is event-based." |};
    {| participant := "Alex";
       message := "That's a huge migration. We'd need someone who really knows what they're doing to evaluate whether it's worth it and plan the migration properly." |};
    {| participant := "Sam";
       message := "It feels like we're all guessing at this point. None of us are database experts. We know enough to be dangerous but not enough to fix this properly." |};
    {| participant := "Casey";
       message := "I agree. We've been circling on this for two weeks now. Maybe we need to bring in someone who specialises in this stuff?" |};
    {| participant := "Alex";
       message := "Yeah, I think that's the right call. We need someone who can analyse the query plans, optimise the schema, set up proper indexing strategies, and maybe advise on whether we need a different database architecture altogether." |} ].

(** [formatConversation]. *)
Definition formatConversation : string :=
  Str.join (Str.nl ++ Str.nl)
    (map (fun msg => participant msg ++ ": " ++ message msg) conversation).

End Conversation.

Module Prompts.

Definition systemPrompt : string :=
  Str.lines
  [ "You are a recruiter AI assistant. Your job is to analyse team conversations and recommend new team members who could help solve problems the team is facing.";
    EmptyString;
    "When you identify a skill gap in the team, recommend a specific role that would fill that gap. Provide:";
    "- A clear job title";
    "- An explanation of why this role is needed";
    "- The specific skills required";
    "- A system prompt that could be used to configure an AI assistant for this role";
    Str.quoted ["- Whether the role requires "; "reasoning"; " (analytical/logical) or "; "semantic"; " (creative/conversational) capabilities"];
    EmptyString;
    "Be specific and practical in your recommendations." ].

Definition getOneShotPrompt : string :=
  Str.lines
  [ "Based on the conversation above, recommend a team member who could help solve their problem.";
    EmptyString;
    "Respond ONLY with valid JSON like this example:";
    "{";
    Str.quoted ["  "; "recommendation"; ": "; "I think you need to hire a [role] because [explanation of how they address the team's problem]..."; ","];
    Str.quoted ["  "; "action"; ": {"];
    Str.quoted ["    "; "type"; ": "; "create_actor"; ","];
    Str.quoted ["    "; "actor"; ": {"];
    Str.quoted ["      "; "title"; ": "; "Job Title Here"; ","];
    Str.quoted ["      "; "reason"; ": "; "Why this role addresses the team's skill gap"; ","];
    Str.quoted ["      "; "skills"; ": ["; "skill1"; ", "; "skill2"; ", "; "skill3"; "],"];
    Str.quoted ["      "; "prompt"; ": "; "You are an expert in [domain]. You help teams by [description of approach]..."; ","];
    Str.quoted ["      "; "model"; ": "; "reasoning"; EmptyString];
    "    }";
    "  }";
    "}";
    EmptyString;
    "Important:";
    "- Return ONLY valid JSON, no markdown code blocks or backticks";
    Str.quoted ["- The "; "recommendation"; " field should start with "; "I think you need to hire..."; EmptyString];
    "- Skills array should have 3-7 specific technical skills";
    Str.quoted ["- "; "model"; " should be "; "reasoning"; " for analytical tasks or "; "semantic"; " for creative tasks"];
    Str.quoted ["- Set "; "action"; " to null if no recommendation is appropriate"] ].

Definition oneShotStrictPrompt : string :=
  Str.lines
  [ "Based on the conversation above, recommend a team member who could help solve their problem.";
    EmptyString;
    "Respond with a JSON object containing:";
    Str.quoted ["- "; "recommendation"; ": Your explanation of why you're recommending this role"];
    Str.quoted ["- "; "action"; ": An object with "; "type"; ": "; "create_actor"; " and "; "actor"; " containing:"];
    Str.quoted ["  - "; "title"; ": The job title"];
    Str.quoted ["  - "; "reason"; ": Why this role addresses the team's problem"];
    Str.quoted ["  - "; "skills"; ": Array of 3-7 required skills"];
    Str.quoted ["  - "; "prompt"; ": A system prompt for an AI in this role"];
    Str.quoted ["  - "; "model"; ": Either "; "reasoning"; " or "; "semantic"; EmptyString] ].

Definition step1_nonStrict : string :=
  Str.lines
  [ "Based on the conversation, what type of team member should this team add?";
    EmptyString;
    "Respond with JSON like this example:";
    Str.quoted ["{"; "recommendation"; ": "; "I recommend hiring a [role] because [reason]..."; ", "; "action"; ": "; "create_actor"; "}"];
    EmptyString;
    "Important:";
    "- Return ONLY valid JSON, no markdown code blocks";
    Str.quoted ["- The "; "recommendation"; " should explain your hiring recommendation (at least 20 characters)"];
    Str.quoted ["- Set "; "action"; " to "; "create_actor"; " if recommending someone, or null if not"] ].

Definition step1_strict : string :=
  Str.lines
  [ "Based on the conversation, what type of team member should this team add?";
    EmptyString;
    "Respond with a JSON object containing:";
    Str.quoted ["- "; "recommendation"; ": A string explaining who should be hired and why"];
    Str.quoted ["- "; "action"; ": Either "; "create_actor"; " to recommend someone, or null"];
    EmptyString;
    Str.quoted ["Example: {"; "recommendation"; ": "; "I recommend hiring..."; ", "; "action"; ": "; "create_actor"; "}"] ].

Definition step2_nonStrict : string :=
  Str.lines
  [ "For the role you recommended, provide their details.";
    EmptyString;
    "Respond with JSON like this example:";
    Str.quoted ["{"; "title"; ": "; "Database Administrator"; ", "; "reason"; ": "; "The team needs database expertise to optimize their slow queries and design scalable schemas"; ", "; "skills"; ": ["; "PostgreSQL"; ", "; "Query Optimization"; ", "; "Database Design"; "]}"];
    EmptyString;
    "Important:";
    "- Return ONLY valid JSON, no markdown code blocks";
    "- Provide 3-7 specific technical skills";
    Str.quoted ["- The "; "reason"; " should explain how this role addresses the team's problem (at least 20 characters)"] ].

Definition step2_strict : string :=
  Str.lines
  [ "For the role you recommended, provide their details.";
    EmptyString;
    "Respond with a JSON object containing:";
    Str.quoted ["- "; "title"; ": The job title (e.g., "; "Database Administrator"; ")"];
    Str.quoted ["- "; "reason"; ": Why this role addresses the team's skill gap"];
    Str.quoted ["- "; "skills"; ": An array of 3-7 specific technical skills"];
    EmptyString;
    Str.quoted ["Example: {"; "title"; ": "; "Senior DBA"; ", "; "reason"; ": "; "The team needs..."; ", "; "skills"; ": ["; "PostgreSQL"; ", "; "Query Optimization"; "]}"] ].

Definition step3_nonStrict : string :=
  Str.lines
  [ "For this role, provide the AI system prompt and model type.";
    EmptyString;
    "Respond with JSON like this example:";
    Str.quoted ["{"; "prompt"; ": "; "You are an expert database administrator. You help teams optimize queries, design schemas, and ensure data integrity..."; ", "; "model"; ": "; "reasoning"; "}"];
    EmptyString;
    "Important:";
    "- Return ONLY valid JSON, no markdown code blocks";
    Str.quoted ["- The "; "prompt"; " should be a detailed system prompt (at least 30 characters)"];
    Str.quoted ["- "; "model"; " should be "; "reasoning"; " for analytical tasks or "; "semantic"; " for creative tasks"] ].

Definition step3_strict : string :=
  Str.lines
  [ "For this role, provide the AI configuration.";
    EmptyString;
    "Respond with a JSON object containing:";
    Str.quoted ["- "; "prompt"; ": A system prompt for configuring an AI assistant in this role"];
    Str.quoted ["- "; "model"; ": Either "; "reasoning"; " (for analytical/logical tasks) or "; "semantic"; " (for creative/conversational tasks)"];
    EmptyString;
    Str.quoted ["Example: {"; "prompt"; ": "; "You are an expert database administrator..."; ", "; "model"; ": "; "reasoning"; "}"] ].

(** The bullet U+2022 of the error list, as its UTF-8 bytes. *)
Definition bullet : string :=
  String (ascii_of_nat 226)
    (String (ascii_of_nat 128) (String (ascii_of_nat 162) EmptyString)).

(** [err.path.length > 0 ? err.path.join('.') : 'root']. *)
Definition pathText (err : ValidationError.t) : string :=
  if (0 <? length (ValidationError.path err))%nat
  then Str.join "." (ValidationError.path err)
  else "root".

(** One line of the error list of [getRetryPrompt]. *)
Definition errorLine (err : ValidationError.t) : string :=
  bullet ++ " " ++ pathText err ++ ": " ++ ValidationError.message err.

Definition getRetryPrompt (previousResponse : string)
    (validationErrors : list ValidationError.t) : string :=
  let errorList := Str.join Str.nl (map errorLine validationErrors) in
  Str.lines
    [ "<validation_retry>";
      "Your previous response failed JSON validation:";
      EmptyString;
      "<previous_response>";
      previousResponse;
      "</previous_response>";
      EmptyString;
      "<validation_errors>";
      errorList;
      "</validation_errors>";
      EmptyString;
      "<instructions>";
      "1. Review the specific validation errors above";
      "2. Identify what needs to be fixed in your response";
      "3. Generate a corrected response that addresses each error";
      "</instructions>";
      EmptyString;
      "Provide a corrected JSON response. Return ONLY valid JSON with no additional text, explanations, or markdown formatting.";
      "</validation_retry>" ].

(** White space removed by [trim] among the ASCII characters (the other
    Unicode spaces it removes are not single bytes). *)
Definition isWhiteSpace (c : ascii) : bool :=
  let n := nat_of_ascii c in
  ((9 <=? n) && (n <=? 13) || (n =? 32))%nat.

Fixpoint trimStart (s : string) : string :=
  match s with
  | String c s' => if isWhiteSpace c then trimStart s' else s
  | EmptyString => EmptyString
  end.

Definition reverse (s : string) : string :=
  string_of_list_ascii (rev (list_ascii_of_string s)).

Definition trim (s : string) : string :=
  reverse (trimStart (reverse (trimStart s))).

(** [s.slice(n)] for [n >= 0]. *)
Fixpoint drop (n : nat) (s : string) : string :=
  match n, s with
  | S n', String _ s' => drop n' s'
  | _, _ => s
  end.

(** [s.slice(0, -n)]. *)
Definition dropEnd (n : nat) (s : string) : string :=
  reverse (drop n (reverse s)).

Definition endsWith (s suffix : string) : bool :=
  Str.startsWith (reverse s) (reverse suffix).

Definition extractJson (text : string) : string :=
  let cleaned := trim text in
  let cleaned :=
    if Str.startsWith cleaned "```json" then drop 7 cleaned
    else if Str.startsWith cleaned "```" then drop 3 cleaned
    else cleaned in
  let cleaned :=
    if endsWith cleaned "```" then dropEnd 3 cleaned else cleaned in
  trim cleaned.

End Prompts.

(** ** The engine ([src/lib/test-runner.ts]) *)

Module Engine.

Record TestConfig := mkConfig {
  temperature : Q;
  maxTokens : Z;
  maxRetries : nat;
  runsPerScenario : nat
}.

Definition DEFAULT_CONFIG : TestConfig :=
  {| temperature := (1 # 10)%Q; maxTokens := 1500;
     maxRetries := 3; runsPerScenario := 10 |}.

(** *** Schemas *)

Inductive SchemaId :=
| ResponseSchema
| SequentialPart1Schema
| SequentialPart2Schema
| SequentialPart3Schema.

(** The type [T] of [ZodSchema<T>]. *)
Definition dataOf (s : SchemaId) : Type :=
  match s with
  | ResponseSchema => Response.t
  | SequentialPart1Schema => SequentialPart1.t
  | SequentialPart2Schema => SequentialPart2.t
  | SequentialPart3Schema => SequentialPart3.t
  end.

(** [result.data as Record<string, unknown>]. *)
Definition toParsed (s : SchemaId) : dataOf s -> Parsed :=
  match s with
  | ResponseSchema => OfResponse
  | SequentialPart1Schema => OfPart1
  | SequentialPart2Schema => OfPart2
  | SequentialPart3Schema => OfPart3
  end.

Inductive PathSegment := Key (k : string) | Index (i : nat).

Record ZodIssue := mkIssue {
  issue_path : list PathSegment;
  issue_message : string;
  issue_code : string
}.

(** The [.min(n)] constraints of the schemas; every other constraint
    (object shape, enum, literal, nullable) is carried by the types.  The
    message follows the wording used in the repository's tests; the engine
    only looks at whether the issue list is empty. *)
Definition tooSmall (field : list PathSegment) (n : nat) (s : string)
    : list ZodIssue :=
  if (n <=? String.length s)%nat then []
  else [ {| issue_path := field;
            issue_message :=
              "String must contain at least "
              ++ NilEmpty.string_of_uint (Nat.to_uint n) ++ " character(s)";
            issue_code := "too_small" |} ].

Definition actorIssues (pre : list PathSegment) (a : Actor.t) : list ZodIssue :=
  (tooSmall (pre ++ [Key "title"]) 2 (Actor.title a)
   ++ tooSmall (pre ++ [Key "reason"]) 20 (Actor.reason a)
   ++ tooSmall (pre ++ [Key "prompt"]) 30 (Actor.prompt a))%list.

(** The issues [schema.parse] raises on a value already of the schema's
    static type; it returns the value when there is none. *)
Definition schemaIssues (s : SchemaId) : dataOf s -> list ZodIssue :=
  match s with
  | ResponseSchema => fun r =>
      (tooSmall [Key "recommendation"] 20 (Response.recommendation r)
       ++ match Response.action r with
          | Some a => actorIssues [Key "action"; Key "actor"] (Action.actor a)
          | None => []
          end)%list
  | SequentialPart1Schema => fun p =>
      tooSmall [Key "recommendation"] 20 (SequentialPart1.recommendation p)
  | SequentialPart2Schema => fun p =>
      (tooSmall [Key "title"] 2 (SequentialPart2.title p)
       ++ tooSmall [Key "reason"] 20 (SequentialPart2.reason p))%list
  | SequentialPart3Schema => fun p =>
      tooSmall [Key "prompt"] 30 (SequentialPart3.prompt p)
  end.

(** *** Exceptions *)

Inductive Exn :=
| ZodError (issues : list ZodIssue)
| SyntaxError (message : string)
| OtherError (message : string)      (* any other instance of Error *)
| NonError (rendering : string).     (* a thrown value that is no Error *)

(** [error instanceof Error ? error.message : String(error)], outside the
    [ZodError] branch. *)
Definition errorText (e : Exn) : string :=
  match e with
  | ZodError _ => "ZodError"
  | SyntaxError m => m
  | OtherError m => m
  | NonError r => r
  end.

(** *** The outside world *)

Record Usage := mkUsage {
  usage_inputTokens : option Z;
  usage_outputTokens : option Z
}.

Record GenerateTextResult := mkText {
  text : string;
  text_usage : option Usage
}.

Record GenerateObjectResult (T : Type) := mkObject {
  object : T;
  object_usage : option Usage
}.
Arguments mkObject {T}.
Arguments object {T}.
Arguments object_usage {T}.

(** What the engine cannot compute itself.  The generator functions
    receive the number of generator calls made before, so that successive
    calls with equal messages may answer differently. *)
Record Env := mkEnv {
  generateText : nat -> list Message -> Exn + GenerateTextResult;
  generateObject :
    forall s : SchemaId, nat -> list Message -> Exn + GenerateObjectResult (dataOf s);
  (** [schema.parse(JSON.parse(cleaned))] *)
  parse : forall s : SchemaId, string -> Exn + dataOf s;
  (** [JSON.stringify(x)] and [JSON.stringify(x, null, 2)] *)
  stringify : Parsed -> string;
  stringifyPretty : Parsed -> string;
  (** the successive readings of [Date.now()] *)
  clock : nat -> Z
}.

Record Call := mkCall {
  call_schema : option SchemaId;     (* None: generateText *)
  call_messages : list Message
}.

(** The mutable state of one scenario execution: the generator calls made
    so far, the number of clock readings, and the [attempts] array of the
    run in progress. *)
Record State := mkState {
  calls : list Call;
  ticks : nat;
  attempts : list AttemptResult.t
}.

Definition initialState : State :=
  {| calls := []; ticks := 0; attempts := [] |}.

(** *** A state and exception monad *)

Inductive Outcome (A : Type) :=
| Returns (a : A) (st : State)
| Throws (e : Exn) (st : State).
Arguments Returns {A}.
Arguments Throws {A}.

Definition M (A : Type) : Type := State -> Outcome A.

Definition ret {A} (a : A) : M A := fun st => Returns a st.

Definition bind {A B} (m : M A) (k : A -> M B) : M B :=
  fun st =>
    match m st with
    | Returns a st' => k a st'
    | Throws e st' => Throws e st'
    end.

Definition throw {A} (e : Exn) : M A := fun st => Throws e st.

(** [try { body } catch (error) { handler(error) }]: the state reached
    when the exception was raised is kept. *)
Definition tryCatch {A} (body : M A) (handler : Exn -> M A) : M A :=
  fun st =>
    match body st with
    | Returns a st' => Returns a st'
    | Throws e st' => handler e st'
    end.

Definition finalState {A} (o : Outcome A) : State :=
  match o with
  | Returns _ st => st
  | Throws _ st => st
  end.

Declare Scope engine_scope.
Delimit Scope engine_scope with engine.
Notation "x <- c ;; k" := (bind c (fun x => k))
  (at level 61, c at next level, right associativity) : engine_scope.
Notation "c ;;; k" := (bind c (fun _ => k))
  (at level 61, right associativity) : engine_scope.
Local Open Scope engine_scope.

(** The common result type of the two executors. *)
Record Attempt (T : Type) := mkAttempt {
  success : bool;
  data : option T;                              (* data?: T *)
  raw : string;
  errors : option (list ValidationError.t);     (* errors?: ValidationError[] *)
  tokens : option (Z * Z)                       (* tokens?: { input, output } *)
}.
Arguments mkAttempt {T}.
Arguments success {T}.
Arguments data {T}.
Arguments raw {T}.
Arguments errors {T}.
Arguments tokens {T}.

Section WithEnv.

Variable env : Env.
Variable config : TestConfig.

(** [Date.now()] *)
Definition now : M Z :=
  fun st =>
    Returns (clock env (ticks st))
            {| calls := calls st; ticks := S (ticks st);
               attempts := attempts st |}.

Definition logCall (c : Call) (st : State) : State :=
  {| calls := (calls st ++ [c])%list; ticks := ticks st;
     attempts := attempts st |}.

Definition callGenerateText (messages : list Message) : M GenerateTextResult :=
  fun st =>
    let st' := logCall (mkCall None messages) st in
    match generateText env (length (calls st)) messages with
    | inl e => Throws e st'
    | inr r => Returns r st'
    end.

Definition callGenerateObject (s : SchemaId) (messages : list Message)
    : M (GenerateObjectResult (dataOf s)) :=
  fun st =>
    let st' := logCall (mkCall (Some s) messages) st in
    match generateObject env s (length (calls st)) messages with
    | inl e => Throws e st'
    | inr r => Returns r st'
    end.

(** [const attempts = []] *)
Definition newAttempts : M unit :=
  fun st =>
    Returns tt {| calls := calls st; ticks := ticks st; attempts := [] |}.

(** [attempts.push(a)] *)
Definition pushAttempt (a : AttemptResult.t) : M unit :=
  fun st =>
    Returns tt {| calls := calls st; ticks := ticks st;
                  attempts := (attempts st ++ [a])%list |}.

Definition readAttempts : M (list AttemptResult.t) :=
  fun st => Returns (attempts st) st.

(** *** Attempt executors *)

(** [String(segment)] *)
Definition segmentText (seg : PathSegment) : string :=
  match seg with
  | Key k => k
  | Index i => NilEmpty.string_of_uint (Nat.to_uint i)
  end.

Definition parseZodErrors (issues : list ZodIssue) : list ValidationError.t :=
  map (fun e => {| ValidationError.path := map segmentText (issue_path e);
                   ValidationError.message := issue_message e;
                   ValidationError.code := issue_code e |})
      issues.

(** [{ input: usage?.inputTokens || 0, output: usage?.outputTokens || 0 }] *)
Definition usageTokens (usage : option Usage) : Z * Z :=
  (Storage.orZero (match usage with Some u => usage_inputTokens u | None => None end),
   Storage.orZero (match usage with Some u => usage_outputTokens u | None => None end)).

(** [runNonStrictAttempt]: the call to [generateText] is outside the
    [try] block, so what it throws leaves the executor. *)
Definition runNonStrictAttempt (s : SchemaId) (messages : list Message)
    : M (Attempt (dataOf s)) :=
  result <- callGenerateText messages ;;
  let raw := text result in
  let cleaned := Prompts.extractJson raw in
  match parse env s cleaned with
  | inr validated =>
      ret {| success := true; data := Some validated; raw := raw;
             errors := None;
             tokens := Some (usageTokens (text_usage result)) |}
  | inl (ZodError issues) =>
      ret {| success := false; data := None; raw := raw;
             errors := Some (parseZodErrors issues);
             tokens := Some (usageTokens (text_usage result)) |}
  | inl (SyntaxError message) =>
      ret {| success := false; data := None; raw := raw;
             errors := Some [ {| ValidationError.path := [];
                                 ValidationError.message := "Invalid JSON: " ++ message;
                                 ValidationError.code := "invalid_json" |} ];
             tokens := Some (usageTokens (text_usage result)) |}
  | inl error => throw error
  end.

(** [runStrictAttempt]: everything is inside the [try] block. *)
Definition runStrictAttempt (s : SchemaId) (messages : list Message)
    : M (Attempt (dataOf s)) :=
  tryCatch
    (result <- callGenerateObject s messages ;;
     ret {| success := true; data := Some (object result);
            raw := stringifyPretty env (toParsed s (object result));
            errors := None;
            tokens := Some (usageTokens (object_usage result)) |})
    (fun error =>
       match error with
       | ZodError issues =>
           ret {| success := false; data := None; raw := EmptyString;
                  errors := Some (parseZodErrors issues); tokens := None |}
       | _ =>
           let errorMessage := errorText error in
           ret {| success := false; data := None; raw := EmptyString;
                  errors := Some [ {| ValidationError.path := [];
                                      ValidationError.message := errorMessage;
                                      ValidationError.code := "api_error" |} ];
                  tokens := None |}
       end).

(** The [AttemptResult] literal built after every executor call. *)
Definition attemptResult (s : SchemaId) (attempt : nat) (timestamp durationMs : Z)
    (promptText : string) (result : Attempt (dataOf s)) : AttemptResult.t :=
  {| AttemptResult.attemptNumber := attempt;
     AttemptResult.timestamp := timestamp;
     AttemptResult.success := success result;
     AttemptResult.durationMs := durationMs;
     AttemptResult.inputTokens := option_map fst (tokens result);
     AttemptResult.outputTokens := option_map snd (tokens result);
     AttemptResult.prompt := promptText;
     AttemptResult.rawResponse := raw result;
     AttemptResult.parsedResponse :=
       if success result then option_map (toParsed s) (data result) else None;
     AttemptResult.validationErrors :=
       match errors result with Some es => es | None => [] end;
     AttemptResult.errorMessage := None |}.

(** *** Message lists *)

Definition roleText (r : Role) : string :=
  match r with
  | system => "system"
  | user => "user"
  | assistant => "assistant"
  end.

(** [messages.map(m => `[${m.role}] ${m.content}`).join('\n\n')] *)
Definition promptTextOf (messages : list Message) : string :=
  Str.join (Str.nl ++ Str.nl)
    (map (fun m => "[" ++ roleText (role m) ++ "] " ++ content m) messages).

Definition conversationText : string := Conversation.formatConversation.

Definition conversationMessage : Message :=
  mkMessage user
    ("Here is a conversation between team members:" ++ Str.nl ++ Str.nl
     ++ conversationText).

(** The two messages appended after a failed guided attempt. *)
Definition retryContext (rawResponse : string)
    (validationErrors : list ValidationError.t) : list Message :=
  [ mkMessage assistant rawResponse;
    mkMessage user (Prompts.getRetryPrompt rawResponse validationErrors) ].

Definition retryContextOf (a : AttemptResult.t) : list Message :=
  retryContext (AttemptResult.rawResponse a) (AttemptResult.validationErrors a).

(** *** Scenario 1: one-shot, non-strict *)

Definition scenario1Base : list Message :=
  [ mkMessage system Prompts.systemPrompt;
    conversationMessage;
    mkMessage user Prompts.getOneShotPrompt ].

(** The message list built at the top of each iteration: the base
    messages and, on a retry, the context of the last recorded attempt. *)
Definition scenario1Messages (attempt : nat) (attempts : list AttemptResult.t)
    : list Message :=
  (scenario1Base
   ++ (if (1 <? attempt)%nat && (0 <? length attempts)%nat then
         match nth_error attempts (length attempts - 1) with
         | Some lastAttempt => retryContextOf lastAttempt
         | None => []
         end
       else []))%list.

(** [for (let attempt = ...; attempt <= config.maxRetries + 1; attempt++)],
    with [remaining] the number of iterations left; the result is the
    pair of [success] and [finalResponse]. *)
Fixpoint scenario1Attempts (remaining attempt : nat) : M (bool * option Parsed) :=
  match remaining with
  | O => ret (false, None)
  | S remaining' =>
      attemptStartTime <- now ;;
      recorded <- readAttempts ;;
      let messages := scenario1Messages attempt recorded in
      let promptText := promptTextOf messages in
      result <- runNonStrictAttempt ResponseSchema messages ;;
      finished <- now ;;
      let attemptDuration := (finished - attemptStartTime)%Z in
      timestamp <- now ;;
      pushAttempt (attemptResult ResponseSchema attempt timestamp
                                 attemptDuration promptText result) ;;;
      if success result
      then ret (true, option_map OfResponse (data result))      (* break *)
      else scenario1Attempts remaining' (S attempt)
  end.

(** The body of the loop over [runNum]. *)
Definition oneShotRun (attemptsLoop : M (bool * option Parsed)) (runNum : nat)
    : M RunResult.t :=
  newAttempts ;;;
  runStartTime <- now ;;
  outcome <- attemptsLoop ;;
  recorded <- readAttempts ;;
  finished <- now ;;
  ret {| RunResult.runNumber := runNum;
         RunResult.success := fst outcome;
         RunResult.attempts := recorded;
         RunResult.totalDurationMs := (finished - runStartTime)%Z;
         RunResult.finalResponse := snd outcome |}.

Definition scenario1Run (runNum : nat) : M RunResult.t :=
  oneShotRun (scenario1Attempts (maxRetries config + 1) 1) runNum.

(** [for (let runNum = 1; runNum <= config.runsPerScenario; runNum++)] *)
Fixpoint runsLoop (run : nat -> M RunResult.t) (remaining runNum : nat)
    (runs : list RunResult.t) : M (list RunResult.t) :=
  match remaining with
  | O => ret runs
  | S remaining' =>
      r <- run runNum ;;
      runsLoop run remaining' (S runNum) (runs ++ [r])%list
  end.

Definition runScenario1 : M (list RunResult.t) :=
  runsLoop scenario1Run (runsPerScenario config) 1 [].

(** *** Scenario 2: one-shot, strict *)

Definition scenario2Messages : list Message :=
  [ mkMessage system Prompts.systemPrompt;
    conversationMessage;
    mkMessage user Prompts.oneShotStrictPrompt ].

Fixpoint scenario2Attempts (remaining attempt : nat) : M (bool * option Parsed) :=
  match remaining with
  | O => ret (false, None)
  | S remaining' =>
      attemptStartTime <- now ;;
      let messages := scenario2Messages in
      let promptText := promptTextOf messages in
      result <- runStrictAttempt ResponseSchema messages ;;
      finished <- now ;;
      let attemptDuration := (finished - attemptStartTime)%Z in
      timestamp <- now ;;
      pushAttempt (attemptResult ResponseSchema attempt timestamp
                                 attemptDuration promptText result) ;;;
      if success result
      then ret (true, option_map OfResponse (data result))      (* break *)
      else scenario2Attempts remaining' (S attempt)
  end.

Definition scenario2Run (runNum : nat) : M RunResult.t :=
  oneShotRun (scenario2Attempts (maxRetries config + 1) 1) runNum.

Definition runScenario2 : M (list RunResult.t) :=
  runsLoop scenario2Run (runsPerScenario config) 1 [].

(** *** Scenarios 3 and 4: three sequential steps *)

(** One step loop of scenario 3 (the three loops differ by the schema and
    the message list only); the result is the step's [stepNResult].
    Each failure appends its retry context to the step's messages. *)
Fixpoint nonStrictStep (s : SchemaId) (remaining attempt : nat)
    (stepMessages : list Message) : M (option (dataOf s)) :=
  match remaining with
  | O => ret None
  | S remaining' =>
      attemptStartTime <- now ;;
      let promptText := promptTextOf stepMessages in
      result <- runNonStrictAttempt s stepMessages ;;
      timestamp <- now ;;
      finished <- now ;;
      pushAttempt (attemptResult s attempt timestamp
                                 (finished - attemptStartTime)%Z promptText result) ;;;
      if success result
      then ret (data result)                                    (* break *)
      else nonStrictStep s remaining' (S attempt)
             (stepMessages
              ++ retryContext (raw result)
                   (match errors result with Some es => es | None => [] end))%list
  end.

(** One step loop of scenario 4: the message list is constant. *)
Fixpoint strictStep (s : SchemaId) (remaining attempt : nat)
    (stepMessages : list Message) : M (option (dataOf s)) :=
  match remaining with
  | O => ret None
  | S remaining' =>
      attemptStartTime <- now ;;
      let promptText := promptTextOf stepMessages in
      result <- runStrictAttempt s stepMessages ;;
      timestamp <- now ;;
      finished <- now ;;
      pushAttempt (attemptResult s attempt timestamp
                                 (finished - attemptStartTime)%Z promptText result) ;;;
      if success result
      then ret (data result)                                    (* break *)
      else strictStep s remaining' (S attempt) stepMessages
  end.

Definition step1Messages (step1Prompt : string) : list Message :=
  [ mkMessage system Prompts.systemPrompt;
    conversationMessage;
    mkMessage user step1Prompt ].

Definition step2Messages (step2Prompt : string) (step1Result : SequentialPart1.t)
    : list Message :=
  [ mkMessage system Prompts.systemPrompt;
    conversationMessage;
    mkMessage assistant (stringify env (OfPart1 step1Result));
    mkMessage user step2Prompt ].

Definition step3Messages (step3Prompt : string) (step1Result : SequentialPart1.t)
    (step2Result : SequentialPart2.t) : list Message :=
  [ mkMessage system Prompts.systemPrompt;
    conversationMessage;
    mkMessage assistant (stringify env (OfPart1 step1Result));
    mkMessage assistant (stringify env (OfPart2 step2Result));
    mkMessage user step3Prompt ].

(** [if (!stepNResult) throw new Error(msg)] *)
Definition orThrow {A} (result : option A) (msg : string) : M A :=
  match result with
  | Some v => ret v
  | None => throw (OtherError msg)
  end.

(** [ResponseSchema.parse(merged)] *)
Definition parseMerged (merged : Response.t) : M unit :=
  match schemaIssues ResponseSchema merged with
  | [] => ret tt
  | issues => throw (ZodError issues)
  end.

(** The body of the loop over [runNum] in scenarios 3 and 4; [step] is the
    step loop and [p1], [p2], [p3] are the three step prompts. *)
Definition sequentialRun
    (step : forall s : SchemaId, nat -> nat -> list Message -> M (option (dataOf s)))
    (p1 p2 p3 : string) (runNum : nat) : M RunResult.t :=
  newAttempts ;;;
  runStartTime <- now ;;
  outcome <-
    tryCatch
      (step1 <- step SequentialPart1Schema (maxRetries config + 1) 1
                     (step1Messages p1) ;;
       step1Result <- orThrow step1 "Step 1 failed" ;;
       step2 <- step SequentialPart2Schema (maxRetries config + 1) 1
                     (step2Messages p2 step1Result) ;;
       step2Result <- orThrow step2 "Step 2 failed" ;;
       step3 <- step SequentialPart3Schema (maxRetries config + 1) 1
                     (step3Messages p3 step1Result step2Result) ;;
       step3Result <- orThrow step3 "Step 3 failed" ;;
       let merged := mergeSequentialParts step1Result step2Result step3Result in
       parseMerged merged ;;;
       ret (true, Some (OfResponse merged)))
      (fun _ => ret (false, None)) ;;
  recorded <- readAttempts ;;
  finished <- now ;;
  ret {| RunResult.runNumber := runNum;
         RunResult.success := fst outcome;
         RunResult.attempts := recorded;
         RunResult.totalDurationMs := (finished - runStartTime)%Z;
         RunResult.finalResponse := snd outcome |}.

Definition scenario3Run : nat -> M RunResult.t :=
  sequentialRun nonStrictStep
    Prompts.step1_nonStrict Prompts.step2_nonStrict Prompts.step3_nonStrict.

Definition runScenario3 : M (list RunResult.t) :=
  runsLoop scenario3Run (runsPerScenario config) 1 [].

Definition scenario4Run : nat -> M RunResult.t :=
  sequentialRun strictStep
    Prompts.step1_strict Prompts.step2_strict Prompts.step3_strict.

Definition runScenario4 : M (list RunResult.t) :=
  runsLoop scenario4Run (runsPerScenario config) 1 [].

(** *** [runModelTests], for one scenario *)

Record ScenarioResult := mkScenarioResult {
  runs : list RunResult.t;
  summary : Summary.t
}.

Definition runScenario (scenario : nat) : M (list RunResult.t) :=
  match scenario with
  | 1 => runScenario1
  | 2 => runScenario2
  | 3 => runScenario3
  | 4 => runScenario4
  | _ => throw (OtherError ("Invalid scenario: "
                            ++ NilEmpty.string_of_uint (Nat.to_uint scenario)))
  end.

Definition scenarioResult (scenario : nat) : M ScenarioResult :=
  rs <- runScenario scenario ;;
  ret {| runs := rs; summary := Storage.calculateScenarioSummary rs |}.

(** *** A common form of the four attempt loops

    The four loops of the scenario executors are instances of one loop,
    parameterised by the executor, by the order of the two clock
    readings that follow the call, and by how the next message list is
    obtained from the current one and the attempt just recorded.  It is
    used to reason about the four loops at once; the executors above are
    proved equal to its instances. *)

Definition Executor : Type :=
  forall s : SchemaId, list Message -> M (Attempt (dataOf s)).

Fixpoint retryLoop (exec : Executor) (stampFirst : bool)
    (next : list Message -> AttemptResult.t -> list Message)
    (s : SchemaId) (remaining attempt : nat) (messages : list Message)
    : M (option (Attempt (dataOf s))) :=
  match remaining with
  | O => ret None
  | S remaining' =>
      attemptStartTime <- now ;;
      result <- exec s messages ;;
      t1 <- now ;;
      t2 <- now ;;
      let recorded :=
        if stampFirst
        then attemptResult s attempt t1 (t2 - attemptStartTime)%Z
                           (promptTextOf messages) result
        else attemptResult s attempt t2 (t1 - attemptStartTime)%Z
                           (promptTextOf messages) result in
      pushAttempt recorded ;;;
      if success result
      then ret (Some result)
      else retryLoop exec stampFirst next s remaining' (S attempt)
                     (next messages recorded)
  end.

(** How each kind of loop obtains its next message list. *)
Definition nextOneShot (messages : list Message) (a : AttemptResult.t)
    : list Message :=
  (scenario1Base ++ retryContextOf a)%list.

Definition nextAccumulate (messages : list Message) (a : AttemptResult.t)
    : list Message :=
  (messages ++ retryContextOf a)%list.

Definition nextSame (messages : list Message) (a : AttemptResult.t)
    : list Message :=
  messages.

Definition oneShotOutcome (r : option (Attempt Response.t))
    : bool * option Parsed :=
  match r with
  | Some result => (true, option_map OfResponse (data result))
  | None => (false, None)
  end.

Definition stepOutcome {T} (r : option (Attempt T)) : option T :=
  match r with
  | Some result => data result
  | None => None
  end.

End WithEnv.

(** The generator calls made between two states. *)
Definition callsSince (before after : State) : list Call :=
  skipn (length (calls before)) (calls after).

(** The runs a scenario execution hands to the aggregator; none when the
    execution ended in an exception. *)
Definition produced {A} (o : Outcome (list A)) : list A :=
  match o with
  | Returns rs _ => rs
  | Throws _ _ => []
  end.

(** A recorded attempt that failed. *)
Definition Failed (a : AttemptResult.t) : Prop :=
  AttemptResult.success a = false /\ AttemptResult.parsedResponse a = None.

(** The last element of a list, as [attempts[attempts.length - 1]]. *)
Definition lastOf {A} (l : list A) : option A :=
  nth_error l (length l - 1).

End Engine.

(** ** The cumulative tiers as the specification words them *)

Module TierSpec.

(** The first of [attempts[1]], [attempts[2]], [attempts[3]] that exists
    and succeeds. *)
Definition firstRetrySuccess (run : RunResult.t) : option nat :=
  find (Storage.attemptSucceeds run) [1; 2; 3]%nat.

(** Whether a run not counted by the first-attempt count adds one to
    [afterTier[k]]. *)
Definition addsTo (k : nat) (run : RunResult.t) : bool :=
  negb (Storage.attemptSucceeds run 0)
  && match firstRetrySuccess run with
     | Some i => (i <=? k)%nat
     | None => false
     end.

Definition firstAttemptSuccesses (runs : list RunResult.t) : Z :=
  Storage.countIf (fun r => Storage.attemptSucceeds r 0) runs.

Definition afterTier (k : nat) (runs : list RunResult.t) : Z :=
  (firstAttemptSuccesses runs + Storage.countIf (addsTo k) runs)%Z.

(** Every attempt of every run, and the tokens of one attempt. *)
Definition allAttempts (runs : list RunResult.t) : list AttemptResult.t :=
  flat_map RunResult.attempts runs.

Definition tokensOf (a : AttemptResult.t) : Z :=
  (Storage.orZero (AttemptResult.inputTokens a)
   + Storage.orZero (AttemptResult.outputTokens a))%Z.

Definition sum (l : list Z) : Z := fold_right Z.add 0%Z l.

End TierSpec.

(** ** Concrete values and environments *)

Module Examples.

Import Engine.

(** *** JSON texts

    [JSON.stringify] for the validated objects, on strings that need no
    escaping (no double quote, backslash or control character), which is
    the case of every string below. *)

Local Unset Elimination Schemes.
Inductive Json :=
| JNull
| JString (s : string)
| JArray (items : list Json)
| JObject (fields : list (string * Json)).
Local Set Elimination Schemes.

Definition modelTypeText (m : ModelType) : string :=
  match m with
  | reasoning => "reasoning"
  | semantic => "semantic"
  end.

Definition actorJson (a : Actor.t) : Json :=
  JObject [ ("title", JString (Actor.title a));
            ("reason", JString (Actor.reason a));
            ("skills", JArray (map JString (Actor.skills a)));
            ("prompt", JString (Actor.prompt a));
            ("model", JString (modelTypeText (Actor.model a))) ].

Definition toJson (p : Parsed) : Json :=
  match p with
  | OfResponse r =>
      JObject [ ("recommendation", JString (Response.recommendation r));
                ("action",
                 match Response.action r with
                 | Some a => JObject [ ("type", JString "create_actor");
                                       ("actor", actorJson (Action.actor a)) ]
                 | None => JNull
                 end) ]
  | OfPart1 p1 =>
      JObject [ ("recommendation", JString (SequentialPart1.recommendation p1));
                ("action",
                 match SequentialPart1.action p1 with
                 | Some create_actor => JString "create_actor"
                 | None => JNull
                 end) ]
  | OfPart2 p2 =>
      JObject [ ("title", JString (SequentialPart2.title p2));
                ("reason", JString (SequentialPart2.reason p2));
                ("skills", JArray (map JString (SequentialPart2.skills p2))) ]
  | OfPart3 p3 =>
      JObject [ ("prompt", JString (SequentialPart3.prompt p3));
                ("model", JString (modelTypeText (SequentialPart3.model p3))) ]
  end.

(** [JSON.stringify(j)] *)
Fixpoint compact (j : Json) : string :=
  match j with
  | JNull => "null"
  | JString s => Str.dq ++ s ++ Str.dq
  | JArray items => "[" ++ Str.join "," (map compact items) ++ "]"
  | JObject fields =>
      "{" ++ Str.join ","
               (map (fun kv => match kv with
                               | (k, v) => Str.dq ++ k ++ Str.dq ++ ":" ++ compact v
                               end) fields)
          ++ "}"
  end.

(** [JSON.stringify(j, null, 2)], at the given indentation. *)
Fixpoint pretty (indent : string) (j : Json) : string :=
  let inner := indent ++ "  " in
  match j with
  | JNull => "null"
  | JString s => Str.dq ++ s ++ Str.dq
  | JArray [] => "[]"
  | JArray items =>
      "[" ++ Str.nl
      ++ Str.join ("," ++ Str.nl) (map (fun v => inner ++ pretty inner v) items)
      ++ Str.nl ++ indent ++ "]"
  | JObject [] => "{}"
  | JObject fields =>
      "{" ++ Str.nl
      ++ Str.join ("," ++ Str.nl)
           (map (fun kv => match kv with
                           | (k, v) => inner ++ Str.dq ++ k ++ Str.dq ++ ": "
                                       ++ pretty inner v
                           end) fields)
      ++ Str.nl ++ indent ++ "}"
  end.

Definition jsonText (p : Parsed) : string := compact (toJson p).
Definition jsonPretty (p : Parsed) : string := pretty EmptyString (toJson p).

(** *** Validated objects *)

Definition dbaActor : Actor.t :=
  {| Actor.title := "DBA";
     Actor.reason := "needs db help, long enough text";
     Actor.skills := ["PostgreSQL"; "Indexing"; "Tuning"];
     Actor.prompt := "You are a DBA expert with enough characters";
     Actor.model := reasoning |}.

Definition goodResponse : Response.t :=
  {| Response.recommendation := "I think you need to hire a database administrator";
     Response.action := Some {| Action.type := create_actor; Action.actor := dbaActor |} |}.

(** The recommendation is five characters long: below [.min(20)]. *)
Definition shortResponse : Response.t :=
  {| Response.recommendation := "Short"; Response.action := None |}.

Definition part1 : SequentialPart1.t :=
  {| SequentialPart1.recommendation := "I recommend hiring a database administrator";
     SequentialPart1.action := Some create_actor |}.

Definition part1Null : SequentialPart1.t :=
  {| SequentialPart1.recommendation := "No hire is needed for the team right now";
     SequentialPart1.action := None |}.

Definition part2 : SequentialPart2.t :=
  {| SequentialPart2.title := "DBA";
     SequentialPart2.reason := "needs db help, long enough text";
     SequentialPart2.skills := ["PostgreSQL"; "Indexing"; "Tuning"] |}.

Definition part3 : SequentialPart3.t :=
  {| SequentialPart3.prompt := "You are a DBA expert with enough characters";
     SequentialPart3.model := reasoning |}.

(** The step outputs of the merge example of the specification. *)
Definition mergePart1 : SequentialPart1.t :=
  {| SequentialPart1.recommendation := "R";
     SequentialPart1.action := Some create_actor |}.

(** *** A validator for the texts above

    [schema.parse(JSON.parse(text))] on the JSON texts of the objects
    above, and a [SyntaxError] on every other text (the only other text
    used below, [notJson], is not JSON). *)

Definition known (s : SchemaId) : list (dataOf s) :=
  match s with
  | ResponseSchema => [goodResponse; shortResponse]
  | SequentialPart1Schema => [part1; part1Null]
  | SequentialPart2Schema => [part2]
  | SequentialPart3Schema => [part3]
  end.

Definition parseKnown (s : SchemaId) (text : string) : Exn + dataOf s :=
  match find (fun v => String.eqb text (jsonText (toParsed s v))) (known s) with
  | Some v =>
      match schemaIssues s v with
      | [] => inr v
      | issues => inl (ZodError issues)
      end
  | None => inl (SyntaxError "Unexpected token")
  end.

Definition notJson : string := "Sure! Here is my recommendation.".

Definition usage (i o : Z) : option Usage :=
  Some {| usage_inputTokens := Some i; usage_outputTokens := Some o |}.

(** A model answering with the given text. *)
Definition says (t : string) : Exn + GenerateTextResult :=
  inr {| text := t; text_usage := usage 100 50 |}.

Definition gives {T} (v : T) : Exn + GenerateObjectResult T :=
  inr {| object := v; object_usage := usage 100 50 |}.

Definition networkError : Exn := OtherError "Rate limit exceeded".

(** An environment from a script of text answers and a script of object
    answers, both indexed by the number of earlier generator calls. *)
Definition scripted (texts : nat -> Exn + GenerateTextResult)
    (objects : forall s : SchemaId, nat -> Exn + GenerateObjectResult (dataOf s))
    : Env :=
  {| generateText := fun n _ => texts n;
     generateObject := fun s n _ => objects s n;
     parse := parseKnown;
     stringify := jsonText;
     stringifyPretty := jsonPretty;
     clock := fun n => (1000 * Z.of_nat n)%Z |}.

Definition noObjects (s : SchemaId) (n : nat)
    : Exn + GenerateObjectResult (dataOf s) :=
  inl networkError.

Definition noTexts (n : nat) : Exn + GenerateTextResult := inl networkError.

(** *** The end-to-end example

    Scenario 1 with three runs and the default retry budget: the model
    answers correctly at once in run 1, after one retry in run 2, and never
    in run 3. *)

Definition endToEndConfig : TestConfig :=
  {| temperature := (1 # 10)%Q; maxTokens := 1500;
     maxRetries := 3; runsPerScenario := 3 |}.

Definition endToEndEnv : Env :=
  scripted
    (fun n =>
       match n with
       | 0 => says (jsonText (OfResponse goodResponse))
       | 1 => says notJson
       | 2 => says (jsonText (OfResponse goodResponse))
       | _ => says (jsonText (OfResponse shortResponse))
       end)
    noObjects.

Definition endToEndRuns : list RunResult.t :=
  produced (runScenario1 endToEndEnv endToEndConfig initialState).

(** *** The data of the storage tests ([createMockAttempt], [createMockRun]) *)

Definition createMockAttempt (ok : bool) (inputTokens outputTokens : Z)
    : AttemptResult.t :=
  {| AttemptResult.attemptNumber := 1;
     AttemptResult.timestamp := 0;
     AttemptResult.success := ok;
     AttemptResult.durationMs := 1000;
     AttemptResult.inputTokens := Some inputTokens;
     AttemptResult.outputTokens := Some outputTokens;
     AttemptResult.prompt := "mock prompt";
     AttemptResult.rawResponse := "mock response";
     AttemptResult.parsedResponse :=
       if ok then Some (OfResponse goodResponse) else None;
     AttemptResult.validationErrors := [];
     AttemptResult.errorMessage := None |}.

Definition createMockRun (attempts : list AttemptResult.t) : RunResult.t :=
  {| RunResult.runNumber := 1;
     RunResult.success := existsb AttemptResult.success attempts;
     RunResult.attempts := attempts;
     RunResult.totalDurationMs := 5000;
     RunResult.finalResponse :=
       if existsb AttemptResult.success attempts
       then Some (OfResponse goodResponse) else None |}.

Definition tokenTestRuns : list RunResult.t :=
  [ createMockRun [createMockAttempt true 100 50];
    createMockRun [createMockAttempt false 80 40; createMockAttempt true 120 60] ].

(** *** Environments for the three-step scenarios and for strict mode *)

Definition oneRunConfig : TestConfig :=
  {| temperature := (1 # 10)%Q; maxTokens := 1500;
     maxRetries := 3; runsPerScenario := 1 |}.

(** Step 1 is answered correctly at once; step 2 never is. *)
Definition stepTwoFailsEnv : Env :=
  scripted
    (fun n =>
       match n with
       | 0 => says (jsonText (OfPart1 part1))
       | _ => says notJson
       end)
    noObjects.

(** Step 1 answers with [action: null]; steps 2 and 3 are answered
    correctly at once. *)
Definition nullActionEnv : Env :=
  scripted
    (fun n =>
       match n with
       | 0 => says (jsonText (OfPart1 part1Null))
       | 1 => says (jsonText (OfPart2 part2))
       | _ => says (jsonText (OfPart3 part3))
       end)
    noObjects.

Definition goodObject (s : SchemaId) : Exn + GenerateObjectResult (dataOf s) :=
  match s return Exn + GenerateObjectResult (dataOf s) with
  | ResponseSchema => gives goodResponse
  | SequentialPart1Schema => gives part1
  | SequentialPart2Schema => gives part2
  | SequentialPart3Schema => gives part3
  end.

(** The provider fails once at the transport level, then answers. *)
Definition outageEnv : Env :=
  scripted noTexts
    (fun s n =>
       match n with
       | 0 => inl networkError
       | _ => goodObject s
       end).

(** The provider is unreachable throughout. *)
Definition unreachableEnv : Env := scripted noTexts noObjects.

(** The first attempt of a list of runs. *)
Definition firstAttempt (runs : list RunResult.t) : option AttemptResult.t :=
  match runs with
  | r :: _ => nth_error (RunResult.attempts r) 0
  | [] => None
  end.

(** The model fails once to produce JSON, then answers correctly. *)
Definition oneRetryEnv : Env :=
  scripted
    (fun n =>
       match n with
       | 0 => says notJson
       | _ => says (jsonText (OfResponse goodResponse))
       end)
    noObjects.

End Examples.

(** ** Traces of the engine

    The vocabulary in which the executions of the loops and of the runs are
    described: the attempts an execution recorded and the generator calls it
    made. *)

Module Traces.

Import Engine.

(** What the loops rely on: an executor makes exactly one generator call,
    with the messages it was given, touches nothing else, and a successful
    result carries its data. *)
Definition ExecFacts (exec : Executor) : Prop :=
  forall (s : SchemaId) (messages : list Message) (st : State),
  exists c,
    call_messages c = messages
    /\ finalState (exec s messages st) = logCall c st
    /\ match exec s messages st with
       | Returns r _ => success r = true -> exists d, data r = Some d
       | Throws _ _ => True
       end.

(** The state after one reading of the clock. *)
Definition tick (st : State) : State :=
  {| calls := calls st; ticks := S (ticks st); attempts := attempts st |}.

(** The record the common loop pushes for a result obtained in state
    [st2], the iteration having started in state [st]. *)
Definition recordedIn (env : Env) (stampFirst : bool) (s : SchemaId)
    (attempt : nat) (messages : list Message)
    (st st2 : State) (result : Attempt (dataOf s)) : AttemptResult.t :=
  let attemptStartTime := clock env (ticks st) in
  let t1 := clock env (ticks st2) in
  let t2 := clock env (S (ticks st2)) in
  if stampFirst
  then attemptResult s attempt t1 (t2 - attemptStartTime)%Z
                     (promptTextOf messages) result
  else attemptResult s attempt t2 (t1 - attemptStartTime)%Z
                     (promptTextOf messages) result.

(** What one execution of the common loop did, in terms of the attempts
    [atts] it recorded and the generator calls [cs] it made. *)
Definition LoopFacts (next : list Message -> AttemptResult.t -> list Message)
    (s : SchemaId) (remaining : nat) (messages : list Message)
    (st : State) (out : Outcome (option (Attempt (dataOf s))))
    (atts : list AttemptResult.t) (cs : list Call) : Prop :=
  attempts (finalState out) = (attempts st ++ atts)%list
  /\ calls (finalState out) = (calls st ++ cs)%list
  /\ length atts <= remaining
  /\ (forall j c, nth_error cs j = Some c ->
                  call_messages c = fold_left next (firstn j atts) messages)
  /\ match out with
     | Returns (Some r) _ =>
         success r = true
         /\ length cs = length atts
         /\ exists init a d,
             atts = (init ++ [a])%list
             /\ Forall Failed init
             /\ AttemptResult.success a = true
             /\ data r = Some d
             /\ AttemptResult.parsedResponse a = Some (toParsed s d)
     | Returns None _ =>
         Forall Failed atts /\ length atts = remaining
         /\ length cs = length atts
     | Throws _ _ =>
         Forall Failed atts /\ length cs = S (length atts)
     end.

(** A step loop as an instance of the common loop. *)
Definition stepVia (env : Env) (exec : Executor)
    (next : list Message -> AttemptResult.t -> list Message)
    (s : SchemaId) (remaining attempt : nat) (messages : list Message)
    : M (option (dataOf s)) :=
  bind (retryLoop env exec true next s remaining attempt messages)
       (fun r => ret (stepOutcome r)).

(** What one step loop did, states forgotten: [res] is the step's result
    ([None] when the budget was exhausted or the generator threw). *)
Definition StepFacts (next : list Message -> AttemptResult.t -> list Message)
    (s : SchemaId) (remaining : nat) (messages : list Message)
    (res : option (dataOf s)) (atts : list AttemptResult.t) (cs : list Call)
    : Prop :=
  length atts <= remaining
  /\ length atts <= length cs <= S (length atts)
  /\ (0 < remaining -> 0 < length cs)
  /\ (forall j c, nth_error cs j = Some c ->
                  call_messages c = fold_left next (firstn j atts) messages)
  /\ match res with
     | Some d =>
         length cs = length atts
         /\ exists init a,
             atts = (init ++ [a])%list
             /\ Forall Failed init
             /\ AttemptResult.success a = true
             /\ AttemptResult.parsedResponse a = Some (toParsed s d)
     | None => Forall Failed atts
     end.

(** What a run of scenario 1 or 2 did: [cs] are the generator calls it
    made, and the attempts are read in the final state, where the array of
    the run stays also when the run ends in an exception. *)
Definition OneShotTrace (budget : nat)
    (next : list Message -> AttemptResult.t -> list Message)
    (messages : list Message) (out : Outcome RunResult.t) (cs : list Call)
    : Prop :=
  let atts := attempts (finalState out) in
  length atts <= budget
  /\ (forall j c, nth_error cs j = Some c ->
                  call_messages c = fold_left next (firstn j atts) messages)
  /\ match out with
     | Returns r _ =>
         RunResult.attempts r = atts
         /\ length cs = length atts
         /\ ((RunResult.success r = true
              /\ exists init a d,
                  atts = (init ++ [a])%list
                  /\ Forall Failed init
                  /\ AttemptResult.success a = true
                  /\ AttemptResult.parsedResponse a = Some (OfResponse d)
                  /\ RunResult.finalResponse r = Some (OfResponse d))
             \/ (RunResult.success r = false
                 /\ Forall Failed atts
                 /\ length atts = budget
                 /\ RunResult.finalResponse r = None))
     | Throws _ _ =>
         Forall Failed atts /\ length cs = S (length atts)
     end.

(** What a run of scenario 3 or 4 did: the attempts and the calls of the
    steps that were reached, in order. *)
Definition SequentialTrace (env : Env) (budget : nat)
    (next : list Message -> AttemptResult.t -> list Message)
    (p1 p2 p3 : string) (r : RunResult.t) (cs : list Call) : Prop :=
  exists res1 atts1 cs1,
    StepFacts next SequentialPart1Schema budget (step1Messages p1) res1 atts1 cs1
    /\ match res1 with
       | None =>
           RunResult.attempts r = atts1 /\ cs = cs1
           /\ RunResult.success r = false /\ RunResult.finalResponse r = None
       | Some d1 =>
           exists res2 atts2 cs2,
             StepFacts next SequentialPart2Schema budget
                       (step2Messages env p2 d1) res2 atts2 cs2
             /\ match res2 with
                | None =>
                    RunResult.attempts r = (atts1 ++ atts2)%list
                    /\ cs = (cs1 ++ cs2)%list
                    /\ RunResult.success r = false
                    /\ RunResult.finalResponse r = None
                | Some d2 =>
                    exists res3 atts3 cs3,
                      StepFacts next SequentialPart3Schema budget
                                (step3Messages env p3 d1 d2) res3 atts3 cs3
                      /\ RunResult.attempts r = (atts1 ++ atts2 ++ atts3)%list
                      /\ cs = (cs1 ++ cs2 ++ cs3)%list
                      /\ match res3 with
                         | None =>
                             RunResult.success r = false
                             /\ RunResult.finalResponse r = None
                         | Some d3 =>
                             let merged := mergeSequentialParts d1 d2 d3 in
                             match schemaIssues ResponseSchema merged with
                             | [] =>
                                 RunResult.success r = true
                                 /\ RunResult.finalResponse r
                                    = Some (OfResponse merged)
                             | _ :: _ =>
                                 RunResult.success r = false
                                 /\ RunResult.finalResponse r = None
                             end
                         end
                end
       end.

(** A message literally contains the raw response of an attempt and, for
    every validation error of the attempt, the error's path text and its
    message. *)
Definition Mentions (m : Message) (a : AttemptResult.t) : Prop :=
  Str.includes (content m) (AttemptResult.rawResponse a) = true
  /\ forall e, In e (AttemptResult.validationErrors a) ->
       Str.includes (content m) (Prompts.pathText e) = true
       /\ Str.includes (content m) (ValidationError.message e) = true.

(** The retry contexts of a list of attempts, in order. *)
Definition retryContexts (atts : list AttemptResult.t) : list Message :=
  flat_map retryContextOf atts.

(** The shape of a run of scenario 1 or 2: a possibly empty series of
    failed attempts, closed by a successful attempt when the run succeeded
    and of the full length of the budget when it failed. *)
Definition OneShotShape (budget : nat) (r : RunResult.t) : Prop :=
  length (RunResult.attempts r) <= budget
  /\ ((RunResult.success r = true
       /\ exists init a,
           RunResult.attempts r = (init ++ [a])%list
           /\ Forall Failed init
           /\ AttemptResult.success a = true)
      \/ (RunResult.success r = false
          /\ Forall Failed (RunResult.attempts r)
          /\ length (RunResult.attempts r) = budget)).

(** The retry budget: at most [budget] attempts, and when the budget is
    used up the success flag of the run is that of its last attempt. *)
Definition WithinBudget (budget : nat) (r : RunResult.t) : Prop :=
  length (RunResult.attempts r) <= budget
  /\ (length (RunResult.attempts r) = budget ->
      exists a,
        lastOf (RunResult.attempts r) = Some a
        /\ RunResult.success r = AttemptResult.success a).

(** The chain of the rates of a summary. *)
Definition RateChain (s : Summary.t) : Prop :=
  (0 <= Summary.firstAttemptSuccessRate s
   /\ Summary.firstAttemptSuccessRate s <= Summary.afterRetry1SuccessRate s
   /\ Summary.afterRetry1SuccessRate s <= Summary.afterRetry2SuccessRate s
   /\ Summary.afterRetry2SuccessRate s <= Summary.afterRetry3SuccessRate s
   /\ Summary.afterRetry3SuccessRate s <= Summary.successRate s)%Q.

(** What a three-step run does once step 1 has returned an object [d1]
    whose action is null: step 2 is called with [d1] in its context, and
    when the run succeeds step 3 was called too and the final response is
    the merge, whose action is null. *)
Definition NullActionFacts (env : Env) (p2 p3 : string)
    (cs : list Call) (r : RunResult.t) : Prop :=
  forall a d1,
    In a (RunResult.attempts r) ->
    AttemptResult.parsedResponse a = Some (OfPart1 d1) ->
    SequentialPart1.action d1 = None ->
    (exists c, In c cs /\ call_messages c = step2Messages env p2 d1)
    /\ (RunResult.success r = true ->
        exists d2 d3,
          (exists c, In c cs /\ call_messages c = step3Messages env p3 d1 d2)
          /\ RunResult.finalResponse r
             = Some (OfResponse (mergeSequentialParts d1 d2 d3))
          /\ Response.action (mergeSequentialParts d1 d2 d3) = None).

(** The attempt record of a transport failure in strict mode. *)
Definition apiError (e : Exn) : ValidationError.t :=
  {| ValidationError.path := [];
     ValidationError.message := errorText e;
     ValidationError.code := "api_error" |}.

End Traces.

(** ** Objects used as maps

    A JavaScript object with string keys, as the list of its entries.
    Assignment replaces the value of a key that is present and adds the entry
    otherwise; only look-ups and sums over all entries are taken from it, so
    the enumeration order of the keys plays no role. *)

Module Obj.

Definition t (V : Type) : Type := list (string * V).

(** [obj[key]] *)
Fixpoint get {V} (key : string) (obj : t V) : option V :=
  match obj with
  | [] => None
  | (k, v) :: rest => if String.eqb k key then Some v else get key rest
  end.

(** [obj[key] = value] *)
Fixpoint set {V} (key : string) (value : V) (obj : t V) : t V :=
  match obj with
  | [] => [(key, value)]
  | (k, v) :: rest =>
      if String.eqb k key then (k, value) :: rest
      else (k, v) :: set key value rest
  end.

(** [Object.keys(obj)] and [Object.values(obj)] *)
Definition keys {V} (obj : t V) : list string := map fst obj.
Definition values {V} (obj : t V) : list V := map snd obj.

End Obj.

(** ** The rest of the storage module *)

Module TestRunConfig.
Record t := mk {
  models : list string;
  scenarios : list nat;
  runsPerScenario : nat;
  temperature : Q;
  maxRetries : nat
}.
End TestRunConfig.

Module TestRunSummary.
Record t := mk {
  totalTests : Z;
  passed : Z;
  failed : Z;
  successRate : Q
}.
End TestRunSummary.

Module TestRunFile.
Record t := mk {
  id : string;
  timestamp : string;
  duration : Z;
  config : TestRunConfig.t;
  summary : TestRunSummary.t;
  results : Obj.t (Obj.t Engine.ScenarioResult)
}.
End TestRunFile.

Module IndexEntry.
Record Summary := mkSummary {
  models : list string;
  totalTests : Z;
  successRate : Q
}.
Record t := mk {
  id : string;
  timestamp : string;
  filename : string;
  summary : Summary
}.
End IndexEntry.

Module Disk.

(** What [JSON.parse(readFileSync(path, 'utf-8'))] meets in a file: the
    value that was written there, [JSON.stringify] followed by [JSON.parse]
    being the identity on these plain records, or a text on which
    [JSON.parse] throws.  A file is read at its TypeScript type: valid JSON
    of another shape is not represented.  For the index that is a value
    without a [runs] array (an empty object, [null], an array), on which the
    source, reading [index.runs] unchecked, throws a [TypeError] in
    [saveTestRun], [loadTestRun], [listRecentRuns], [deleteTestRun] and
    [getAllRuns]; what is proved of these functions is proved for an index
    file that is missing, unparseable or of the shape this module writes. *)
Inductive Content (A : Type) :=
| Json (value : A)
| Garbage.
Arguments Json {A}.
Arguments Garbage {A}.

(** The data directory: [data/index.json], when it exists, and the files of
    [data/results] by name.  [ensureDirectories] only creates the two
    directories and is not modelled. *)
Record t := mk {
  indexFile : option (Content (list IndexEntry.t));
  resultFiles : list (string * Content TestRunFile.t)
}.

Definition empty : t := {| indexFile := None; resultFiles := [] |}.

(** [existsSync(path) ? readFileSync(path) : absent], in [data/results]. *)
Definition readFile (name : string) (disk : t) : option (Content TestRunFile.t) :=
  Obj.get name (resultFiles disk).

(** [writeFileSync(path, content)], in [data/results]. *)
Definition writeFile (name : string) (content : Content TestRunFile.t) (disk : t) : t :=
  {| indexFile := indexFile disk;
     resultFiles := Obj.set name content (resultFiles disk) |}.

(** [unlinkSync(path)], in [data/results]. *)
Definition unlink (name : string) (disk : t) : t :=
  {| indexFile := indexFile disk;
     resultFiles :=
       filter (fun kv => negb (String.eqb (fst kv) name)) (resultFiles disk) |}.

(** [loadIndex]: the runs of the index; none when the file is missing or
    cannot be parsed. *)
Definition loadIndex (disk : t) : list IndexEntry.t :=
  match indexFile disk with
  | None => []
  | Some (Json runs) => runs
  | Some Garbage => []
  end.

Definition saveIndex (runs : list IndexEntry.t) (disk : t) : t :=
  {| indexFile := Some (Json runs); resultFiles := resultFiles disk |}.

(** [timestamp.replace(/:/g, '-')] *)
Fixpoint replaceColons (s : string) : string :=
  match s with
  | EmptyString => EmptyString
  | String c s' =>
      String (if Ascii.eqb c ":"%char then "-"%char else c) (replaceColons s')
  end.

Definition filenameOf (run : TestRunFile.t) : string :=
  replaceColons (TestRunFile.timestamp run) ++ ".json".

(** [runs.findIndex(p)], with [None] for [-1]. *)
Fixpoint findIndex {A} (p : A -> bool) (l : list A) : option nat :=
  match l with
  | [] => None
  | x :: rest =>
      if p x then Some 0
      else option_map S (findIndex p rest)
  end.

(** [runs.splice(i, 1)]: what is left of [runs]. *)
Definition removeAt {A} (i : nat) (l : list A) : list A :=
  (firstn i l ++ skipn (S i) l)%list.

Definition entryOf (run : TestRunFile.t) : IndexEntry.t :=
  {| IndexEntry.id := TestRunFile.id run;
     IndexEntry.timestamp := TestRunFile.timestamp run;
     IndexEntry.filename := filenameOf run;
     IndexEntry.summary :=
       {| IndexEntry.models := TestRunConfig.models (TestRunFile.config run);
          IndexEntry.totalTests :=
            TestRunSummary.totalTests (TestRunFile.summary run);
          IndexEntry.successRate :=
            TestRunSummary.successRate (TestRunFile.summary run) |} |}.

Definition hasId (id : string) (r : IndexEntry.t) : bool :=
  String.eqb (IndexEntry.id r) id.

Definition saveTestRun (run : TestRunFile.t) (disk : t) : t :=
  let disk := writeFile (filenameOf run) (Json run) disk in
  let runs := loadIndex disk in
  let runs :=
    match findIndex (hasId (TestRunFile.id run)) runs with
    | Some existingIndex => removeAt existingIndex runs
    | None => runs
    end in
  saveIndex (entryOf run :: runs) disk.

Definition loadTestRun (id : string) (disk : t) : option TestRunFile.t :=
  match find (hasId id) (loadIndex disk) with
  | None => None
  | Some entry =>
      match readFile (IndexEntry.filename entry) disk with
      | None => None
      | Some (Json run) => Some run
      | Some Garbage => None
      end
  end.

(** [index.runs.slice(0, limit)], for a limit that is a natural number. *)
Definition listRecentRuns (limit : nat) (disk : t) : list IndexEntry.t :=
  firstn limit (loadIndex disk).

Definition deleteTestRun (id : string) (disk : t) : bool * t :=
  let runs := loadIndex disk in
  match findIndex (hasId id) runs with
  | None => (false, disk)
  | Some entryIndex =>
      match nth_error runs entryIndex with
      | None => (false, disk)      (* unreachable: the index was just found *)
      | Some entry =>
          let disk :=
            match readFile (IndexEntry.filename entry) disk with
            | Some _ => unlink (IndexEntry.filename entry) disk
            | None => disk
            end in
          (true, saveIndex (removeAt entryIndex runs) disk)
      end
  end.

(** [getAllRuns]: every entry of the index is loaded by its id. *)
Definition getAllRuns (disk : t) : list TestRunFile.t :=
  fold_left
    (fun runs entry =>
       match loadTestRun (IndexEntry.id entry) disk with
       | Some run => (runs ++ [run])%list
       | None => runs
       end)
    (loadIndex disk) [].

(** [createTestRun], for the identifier and the time stamp it draws. *)
Definition createTestRun (id timestamp : string) (config : TestRunConfig.t)
    : TestRunFile.t :=
  {| TestRunFile.id := id;
     TestRunFile.timestamp := timestamp;
     TestRunFile.duration := 0;
     TestRunFile.config := config;
     TestRunFile.summary :=
       {| TestRunSummary.totalTests := 0; TestRunSummary.passed := 0;
          TestRunSummary.failed := 0; TestRunSummary.successRate := 0 |};
     TestRunFile.results := [] |}.

(** The two counters of [updateRunSummary] after one scenario result. *)
Definition countScenario (acc : Z * Z) (scenarioResult : Engine.ScenarioResult)
    : Z * Z :=
  ((fst acc + Z.of_nat (length (Engine.runs scenarioResult)))%Z,
   (snd acc + Storage.countIf RunResult.success (Engine.runs scenarioResult))%Z).

(** [updateRunSummary]: the run with its summary replaced. *)
Definition updateRunSummary (run : TestRunFile.t) : TestRunFile.t :=
  let counts :=
    fold_left
      (fun acc modelResults => fold_left countScenario (Obj.values modelResults) acc)
      (Obj.values (TestRunFile.results run)) (0%Z, 0%Z) in
  let totalTests := fst counts in
  let passed := snd counts in
  {| TestRunFile.id := TestRunFile.id run;
     TestRunFile.timestamp := TestRunFile.timestamp run;
     TestRunFile.duration := TestRunFile.duration run;
     TestRunFile.config := TestRunFile.config run;
     TestRunFile.summary :=
       {| TestRunSummary.totalTests := totalTests;
          TestRunSummary.passed := passed;
          TestRunSummary.failed := (totalTests - passed)%Z;
          TestRunSummary.successRate :=
            if (0 <? totalTests)%Z then Storage.percent passed totalTests
            else 0%Q |};
     TestRunFile.results := TestRunFile.results run |}.

(** Every run stored in a test run file. *)
Definition allRuns (run : TestRunFile.t) : list RunResult.t :=
  flat_map (fun modelResults => flat_map Engine.runs (Obj.values modelResults))
           (Obj.values (TestRunFile.results run)).

End Disk.

(** ** The model table ([src/lib/models.ts]) *)

Module Models.

Inductive Provider := openai | anthropic | google.

(** [model] is the identifier handed to the provider's client; the client
    itself is the generator of the engine's environment. *)
Record ModelConfig := mk {
  id : string;
  name : string;
  provider : Provider;
  model : string;
  supportsStrictMode : bool
}.

Definition openaiModels : list ModelConfig :=
  [ {| id := "openai-gpt5"; name := "GPT-5"; provider := openai;
       model := "gpt-5"; supportsStrictMode := true |};
    {| id := "openai-gpt4o"; name := "GPT-4o"; provider := openai;
       model := "gpt-4o"; supportsStrictMode := true |} ].

Definition anthropicModels : list ModelConfig :=
  [ {| id := "anthropic-sonnet"; name := "Claude Sonnet 4.5"; provider := anthropic;
       model := "claude-sonnet-4-5-20250929"; supportsStrictMode := true |};
    {| id := "anthropic-opus"; name := "Claude Opus 4.5"; provider := anthropic;
       model := "claude-opus-4-5-20251101"; supportsStrictMode := true |} ].

Definition googleModels : list ModelConfig :=
  [ {| id := "google-flash"; name := "Gemini 2.5 Flash"; provider := google;
       model := "gemini-2.5-flash"; supportsStrictMode := true |};
    {| id := "google-pro"; name := "Gemini 3 Pro"; provider := google;
       model := "gemini-3-pro-preview"; supportsStrictMode := true |} ].

Definition models : list ModelConfig :=
  (openaiModels ++ anthropicModels ++ googleModels)%list.

Definition getModel (id : string) : option ModelConfig :=
  find (fun m => String.eqb (Models.id m) id) models.

End Models.

(** ** [runModelTests] and [runFullTestSuite] *)

Module Suite.

Import Engine.
Local Open Scope engine_scope.

Section WithWorld.

(** The generator, parser and clock met when a model is used. *)
Variable world : Models.ModelConfig -> Env.
Variable config : TestConfig.

(** [scenario.toString()] *)
Definition scenarioKey (scenario : nat) : string :=
  NilEmpty.string_of_uint (Nat.to_uint scenario).

(** [for (const scenario of scenarios)], [results] being the object filled
    so far. *)
Fixpoint scenariosLoop (model : Models.ModelConfig) (scenarios : list nat)
    (results : Obj.t ScenarioResult) : M (Obj.t ScenarioResult) :=
  match scenarios with
  | [] => ret results
  | scenario :: rest =>
      r <- scenarioResult (world model) config scenario ;;
      scenariosLoop model rest (Obj.set (scenarioKey scenario) r results)
  end.

Definition runModelTests (modelId : string) (scenarios : list nat)
    : M (Obj.t ScenarioResult) :=
  match Models.getModel modelId with
  | None => throw (OtherError ("Model not found: " ++ modelId))
  | Some model => scenariosLoop model scenarios []
  end.

(** [for (const modelId of modelIds)] *)
Fixpoint modelsLoop (modelIds : list string) (scenarios : list nat)
    (results : Obj.t (Obj.t ScenarioResult)) : M (Obj.t (Obj.t ScenarioResult)) :=
  match modelIds with
  | [] => ret results
  | modelId :: rest =>
      r <- runModelTests modelId scenarios ;;
      modelsLoop rest scenarios (Obj.set modelId r results)
  end.

Definition runFullTestSuite (modelIds : list string) (scenarios : list nat)
    : M (Obj.t (Obj.t ScenarioResult)) :=
  modelsLoop modelIds scenarios [].

End WithWorld.

End Suite.

(** ** What the attempt records say

    The vocabulary for the attempt records themselves: which executor call
    a record was built from, how the records of a run line up with its
    generator calls, and what a record always satisfies. *)

Module Records.

Import Engine Traces.

(** The record [a] was built, under attempt number [n], from the result the
    executor returned when called with [messages]. *)
Definition RecordOf (env : Env) (exec : Executor) (s : SchemaId) (n : nat)
    (messages : list Message) (a : AttemptResult.t) : Prop :=
  exists stampFirst st st2 result,
    exec s messages (tick st) = Returns result st2
    /\ a = recordedIn env stampFirst s n messages st st2 result.

(** The attempts of one loop, numbered from [first]: the [j]-th was built
    from the call made with the messages reached after the [j] attempts
    before it. *)
Definition LoopRecords (env : Env) (exec : Executor)
    (next : list Message -> AttemptResult.t -> list Message)
    (s : SchemaId) (first : nat) (messages : list Message)
    (atts : list AttemptResult.t) : Prop :=
  forall j a,
    nth_error atts j = Some a ->
    RecordOf env exec s (first + j) (fold_left next (firstn j atts) messages) a.

(** An executor without a path that throws. *)
Definition NeverThrows (exec : Executor) : Prop :=
  forall (s : SchemaId) (messages : list Message) (st : State),
  exists r st', exec s messages st = Returns r st'.

(** One step loop: its trace, where each of its records comes from, and,
    for an executor that never throws, a record for every call. *)
Definition StepRecords (env : Env) (exec : Executor)
    (next : list Message -> AttemptResult.t -> list Message)
    (budget : nat) (s : SchemaId) (messages : list Message)
    (res : option (dataOf s)) (atts : list AttemptResult.t) (cs : list Call)
    : Prop :=
  StepFacts next s budget messages res atts cs
  /\ LoopRecords env exec next s 1 messages atts
  /\ (NeverThrows exec -> length cs = length atts).

(** A run of scenario 3 or 4 step by step, as in [SequentialTrace], with
    [F] saying what is known of each step that was reached. *)
Definition SequentialVia
    (F : forall s : SchemaId,
        list Message -> option (dataOf s) -> list AttemptResult.t -> list Call -> Prop)
    (env : Env) (p1 p2 p3 : string) (r : RunResult.t) (cs : list Call) : Prop :=
  exists res1 atts1 cs1,
    F SequentialPart1Schema (step1Messages p1) res1 atts1 cs1
    /\ match res1 with
       | None =>
           RunResult.attempts r = atts1 /\ cs = cs1
           /\ RunResult.success r = false /\ RunResult.finalResponse r = None
       | Some d1 =>
           exists res2 atts2 cs2,
             F SequentialPart2Schema (step2Messages env p2 d1) res2 atts2 cs2
             /\ match res2 with
                | None =>
                    RunResult.attempts r = (atts1 ++ atts2)%list
                    /\ cs = (cs1 ++ cs2)%list
                    /\ RunResult.success r = false
                    /\ RunResult.finalResponse r = None
                | Some d2 =>
                    exists res3 atts3 cs3,
                      F SequentialPart3Schema (step3Messages env p3 d1 d2)
                        res3 atts3 cs3
                      /\ RunResult.attempts r = (atts1 ++ atts2 ++ atts3)%list
                      /\ cs = (cs1 ++ cs2 ++ cs3)%list
                      /\ match res3 with
                         | None =>
                             RunResult.success r = false
                             /\ RunResult.finalResponse r = None
                         | Some d3 =>
                             let merged := mergeSequentialParts d1 d2 d3 in
                             match schemaIssues ResponseSchema merged with
                             | [] =>
                                 RunResult.success r = true
                                 /\ RunResult.finalResponse r
                                    = Some (OfResponse merged)
                             | _ :: _ =>
                                 RunResult.success r = false
                                 /\ RunResult.finalResponse r = None
                             end
                         end
                end
       end.

(** The [j]-th record carries as its prompt the rendering of the messages
    of the [j]-th call. *)
Definition Aligned (atts : list AttemptResult.t) (cs : list Call) : Prop :=
  forall j a c,
    nth_error atts j = Some a -> nth_error cs j = Some c ->
    AttemptResult.prompt a = promptTextOf (call_messages c).

(** Attempt numbers 1, 2, 3, ... in order. *)
Definition Numbered (atts : list AttemptResult.t) : Prop :=
  map AttemptResult.attemptNumber atts = seq 1 (length atts).

(** What every attempt record of the engine satisfies. *)
Definition WellFormed (a : AttemptResult.t) : Prop :=
  AttemptResult.errorMessage a = None
  /\ (AttemptResult.success a = true ->
      (exists p, AttemptResult.parsedResponse a = Some p)
      /\ AttemptResult.validationErrors a = [])
  /\ (AttemptResult.success a = false -> AttemptResult.parsedResponse a = None)
  /\ (AttemptResult.inputTokens a = None <-> AttemptResult.outputTokens a = None).

(** A record of guided mode always carries both token counts. *)
Definition Counted (a : AttemptResult.t) : Prop :=
  exists i o,
    AttemptResult.inputTokens a = Some i /\ AttemptResult.outputTokens a = Some o.

(** A record of strict mode carries token counts exactly when it succeeded,
    and a failed one has an empty raw response. *)
Definition StrictRecord (a : AttemptResult.t) : Prop :=
  (AttemptResult.success a = true -> Counted a)
  /\ (AttemptResult.success a = false ->
      AttemptResult.rawResponse a = EmptyString
      /\ AttemptResult.inputTokens a = None
      /\ AttemptResult.outputTokens a = None).

(** The parsed value of the record, when of schema [s], has no issue. *)
Definition Validated (s : SchemaId) (a : AttemptResult.t) : Prop :=
  forall v : dataOf s,
    AttemptResult.parsedResponse a = Some (toParsed s v) -> schemaIssues s v = [].

(** [P] holds of every record built from a result of the executor. *)
Definition ResultFacts (exec : Executor)
    (P : SchemaId -> AttemptResult.t -> Prop) : Prop :=
  forall s messages st result st2 n ts d promptText,
    exec s messages st = Returns result st2 ->
    P s (attemptResult s n ts d promptText result).

(** The validator and the generator of strict mode only let through values
    that the schema accepts, as [schema.parse] and a generator bound to the
    schema do. *)
Definition SoundValidator (env : Env) : Prop :=
  forall (s : SchemaId) (text : string) (v : dataOf s),
    parse env s text = inr v -> schemaIssues s v = [].

Definition SoundGenerator (env : Env) : Prop :=
  forall (s : SchemaId) (n : nat) (messages : list Message)
         (r : GenerateObjectResult (dataOf s)),
    generateObject env s n messages = inr r -> schemaIssues s (object r) = [].

(** The final response of a run is set exactly when the run succeeded, and
    is then a full response. *)
Definition Settled (r : RunResult.t) : Prop :=
  (RunResult.success r = true
   /\ exists response, RunResult.finalResponse r = Some (OfResponse response))
  \/ (RunResult.success r = false /\ RunResult.finalResponse r = None).

(** The last attempt of a run decides the run. *)
Definition DecidedByLast (r : RunResult.t) : Prop :=
  exists a,
    lastOf (RunResult.attempts r) = Some a
    /\ RunResult.success r = AttemptResult.success a
    /\ RunResult.finalResponse r = AttemptResult.parsedResponse a.

(** The attempts of a three-step run: those of step 1, of step 2 and of
    step 3, each series numbered from 1 and within the budget. *)
Definition NumberedBySteps (budget : nat) (r : RunResult.t) : Prop :=
  exists atts1 atts2 atts3,
    RunResult.attempts r = (atts1 ++ atts2 ++ atts3)%list
    /\ (Numbered atts1 /\ length atts1 <= budget)
    /\ (Numbered atts2 /\ length atts2 <= budget)
    /\ (Numbered atts3 /\ length atts3 <= budget).

(** A three-step run has at most three successful attempts; when it
    succeeded they are the last attempts of the three steps, in order, and
    the final response is the merge of what they parsed. *)
Definition MergedFromSteps (r : RunResult.t) : Prop :=
  (Storage.countIf AttemptResult.success (RunResult.attempts r) <= 3)%Z
  /\ (RunResult.success r = true ->
      exists d1 d2 d3,
        map AttemptResult.parsedResponse
            (filter AttemptResult.success (RunResult.attempts r))
        = [Some (OfPart1 d1); Some (OfPart2 d2); Some (OfPart3 d3)]
        /\ RunResult.finalResponse r
           = Some (OfResponse (mergeSequentialParts d1 d2 d3))).

(** An exception that the generator of guided mode or the validator threw;
    from the validator, one that is neither a schema nor a syntax error. *)
Definition ThrownByWorld (env : Env) (e : Exn) : Prop :=
  (exists n messages, generateText env n messages = inl e)
  \/ (exists s text,
        parse env s text = inl e
        /\ match e with
           | ZodError _ | SyntaxError _ => False
           | OtherError _ | NonError _ => True
           end).

(** What follows a failed attempt.  When the [j]-th record of a run failed
    and the run made a call after the [j]-th, that call was sent what [next]
    makes of the messages of the [j]-th call and of the failed record, and
    the record of that call, if there is one, carries the next attempt
    number: it is the next attempt of the same attempt loop. *)
Definition Follows (next : list Message -> AttemptResult.t -> list Message)
    (atts : list AttemptResult.t) (cs : list Call) : Prop :=
  forall j a c,
    nth_error atts j = Some a ->
    AttemptResult.success a = false ->
    nth_error cs (S j) = Some c ->
    (exists cj,
        nth_error cs j = Some cj
        /\ call_messages c = next (call_messages cj) a)
    /\ (forall a',
           nth_error atts (S j) = Some a' ->
           AttemptResult.attemptNumber a'
           = S (AttemptResult.attemptNumber a)).

(** Guided mode: the call that follows a failed attempt ends with a user
    message that mentions the failure, and it is the next attempt of the
    same attempt loop. *)
Definition Corrected (atts : list AttemptResult.t) (cs : list Call) : Prop :=
  forall j a c,
    nth_error atts j = Some a ->
    AttemptResult.success a = false ->
    nth_error cs (S j) = Some c ->
    (exists m,
        lastOf (call_messages c) = Some m /\ role m = user /\ Mentions m a)
    /\ (forall a',
           nth_error atts (S j) = Some a' ->
           AttemptResult.attemptNumber a'
           = S (AttemptResult.attemptNumber a)).

(** Strict mode: the call that follows a failed attempt is sent the
    messages of the call before, and it is the next attempt of the same
    attempt loop. *)
Definition Repeated (atts : list AttemptResult.t) (cs : list Call) : Prop :=
  forall j a c,
    nth_error atts j = Some a ->
    AttemptResult.success a = false ->
    nth_error cs (S j) = Some c ->
    (exists cj,
        nth_error cs j = Some cj /\ call_messages c = call_messages cj)
    /\ (forall a',
           nth_error atts (S j) = Some a' ->
           AttemptResult.attemptNumber a'
           = S (AttemptResult.attemptNumber a)).

(** One step loop with the reason why it ended without a result: its
    budget was used up, or its last call threw. *)
Definition StepCalls
    (next : list Message -> AttemptResult.t -> list Message)
    (budget : nat) (s : SchemaId) (messages : list Message)
    (res : option (dataOf s)) (atts : list AttemptResult.t) (cs : list Call)
    : Prop :=
  StepFacts next s budget messages res atts cs
  /\ (res = None -> length atts = budget \/ length cs = S (length atts)).

End Records.

(** ** Stored runs and further environments used as examples *)

Module Fixtures.

Definition runConfig : TestRunConfig.t :=
  {| TestRunConfig.models := ["openai-gpt4o"];
     TestRunConfig.scenarios := [1; 2];
     TestRunConfig.runsPerScenario := 2;
     TestRunConfig.temperature := (1 # 10)%Q;
     TestRunConfig.maxRetries := 3 |}.

Definition firstRun : TestRunFile.t :=
  Disk.createTestRun "run-1" "2025-01-01T10:00:00.000Z" runConfig.

Definition secondRun : TestRunFile.t :=
  Disk.createTestRun "run-2" "2025-01-02T10:00:00.000Z" runConfig.

(** A run created in the same millisecond as [firstRun]. *)
Definition clashingRun : TestRunFile.t :=
  Disk.createTestRun "run-3" "2025-01-01T10:00:00.000Z" runConfig.

Definition twoRunsDisk : Disk.t :=
  Disk.saveTestRun secondRun (Disk.saveTestRun firstRun Disk.empty).

(** Every model is served by the provider that fails once, then answers. *)
Definition world (model : Models.ModelConfig) : Engine.Env := Examples.outageEnv.

(** Step 1 fails twice to produce JSON; then every step is answered
    correctly at once. *)
Definition stepOneRetriesEnv : Engine.Env :=
  Examples.scripted
    (fun n =>
       match n with
       | 0 => Examples.says Examples.notJson
       | 1 => Examples.says Examples.notJson
       | 2 => Examples.says (Examples.jsonText (OfPart1 Examples.part1))
       | 3 => Examples.says (Examples.jsonText (OfPart2 Examples.part2))
       | _ => Examples.says (Examples.jsonText (OfPart3 Examples.part3))
       end)
    Examples.noObjects.

(** Step 1 is answered correctly at once; step 2 fails once to produce
    JSON, then steps 2 and 3 are answered correctly. *)
Definition stepTwoRetryEnv : Engine.Env :=
  Examples.scripted
    (fun n =>
       match n with
       | 0 => Examples.says (Examples.jsonText (OfPart1 Examples.part1))
       | 1 => Examples.says Examples.notJson
       | 2 => Examples.says (Examples.jsonText (OfPart2 Examples.part2))
       | _ => Examples.says (Examples.jsonText (OfPart3 Examples.part3))
       end)
    Examples.noObjects.

(** Strict mode: the provider fails at the transport level on the first
    call of step 2 only. *)
Definition strictStepTwoRetryEnv : Engine.Env :=
  Examples.scripted Examples.noTexts
    (fun s n =>
       match n with
       | 1 => inl Examples.networkError
       | _ => Examples.goodObject s
       end).

End Fixtures.

(** * Properties of the aggregator and of the merge *)

Module StorageFacts.

Import Storage.

Lemma countIf_cons {A} (p : A -> bool) (x : A) (l : list A) :
  countIf p (x :: l) = ((if p x then 1 else 0) + countIf p l)%Z.
Proof.
  unfold countIf. simpl. destruct (p x); simpl length; lia.
Qed.

Lemma countIf_nonneg {A} (p : A -> bool) (l : list A) : (0 <= countIf p l)%Z.
Proof. unfold countIf. lia. Qed.

Lemma countIf_le_length {A} (p : A -> bool) (l : list A) :
  (countIf p l <= Z.of_nat (length l))%Z.
Proof.
  unfold countIf. apply inj_le, filter_length_le.
Qed.

(** Pointwise implication of the predicates orders the counts. *)
Lemma countIf_mono {A} (p q : A -> bool) (l : list A) :
  (forall x, In x l -> p x = true -> q x = true) ->
  (countIf p l <= countIf q l)%Z.
Proof.
  induction l as [|x l IH]; intros H.
  - reflexivity.
  - rewrite !countIf_cons.
    assert (IH' : (countIf p l <= countIf q l)%Z)
      by (apply IH; intros y Hy; apply H; now right).
    specialize (H x (or_introl eq_refl)).
    destruct (p x), (q x); first [lia | discriminate (H eq_refl)].
Qed.

(** The loop of the aggregator computes the tiers of the specification. *)
Lemma tiers_fold (runs : list RunResult.t) (a1 a2 a3 : Z) :
  fold_left tierStep runs (mkTiers a1 a2 a3)
  = mkTiers (a1 + countIf (TierSpec.addsTo 1) runs)
            (a2 + countIf (TierSpec.addsTo 2) runs)
            (a3 + countIf (TierSpec.addsTo 3) runs).
Proof.
  revert a1 a2 a3.
  induction runs as [|run runs IH]; intros a1 a2 a3.
  - unfold countIf; simpl. f_equal; lia.
  - simpl fold_left. rewrite !countIf_cons.
    set (c1 := countIf (TierSpec.addsTo 1) runs).
    set (c2 := countIf (TierSpec.addsTo 2) runs).
    set (c3 := countIf (TierSpec.addsTo 3) runs).
    unfold tierStep, TierSpec.addsTo, TierSpec.firstRetrySuccess; simpl find.
    destruct (attemptSucceeds run 0), (attemptSucceeds run 1),
             (attemptSucceeds run 2), (attemptSucceeds run 3);
      cbn [negb andb Nat.leb afterRetry1 afterRetry2 afterRetry3];
      rewrite IH; fold c1 c2 c3; f_equal; lia.
Qed.

Lemma tiers_spec (runs : list RunResult.t) :
  tiers (TierSpec.firstAttemptSuccesses runs) runs
  = mkTiers (TierSpec.afterTier 1 runs) (TierSpec.afterTier 2 runs)
            (TierSpec.afterTier 3 runs).
Proof. unfold tiers. now rewrite tiers_fold. Qed.

Lemma sum_app (l1 l2 : list Z) :
  TierSpec.sum (l1 ++ l2) = (TierSpec.sum l1 + TierSpec.sum l2)%Z.
Proof.
  induction l1 as [|x l1 IH]; simpl; [reflexivity | rewrite IH; lia].
Qed.

Lemma attemptTokens_fold (l : list AttemptResult.t) (acc : Z) :
  fold_left attemptTokens l acc = (acc + TierSpec.sum (map TierSpec.tokensOf l))%Z.
Proof.
  revert acc; induction l as [|a l IH]; intros acc; simpl.
  - lia.
  - rewrite IH. unfold attemptTokens, TierSpec.tokensOf. lia.
Qed.

Lemma runTokens_fold (runs : list RunResult.t) (acc : Z) :
  fold_left runTokens runs acc
  = (acc + TierSpec.sum (map TierSpec.tokensOf (TierSpec.allAttempts runs)))%Z.
Proof.
  revert acc; induction runs as [|r runs IH]; intros acc; simpl.
  - lia.
  - rewrite IH. unfold runTokens. rewrite attemptTokens_fold.
    rewrite map_app, sum_app. lia.
Qed.

(** Past the guard, the summary is the record of the second [return]. *)
Lemma summary_nonempty (runs : list RunResult.t) :
  runs <> [] ->
  (Z.of_nat (length runs) =? 0)%Z = false.
Proof.
  intros H. destruct runs; [contradiction | simpl length].
  apply Z.eqb_neq. lia.
Qed.

(** Past the guard each rate is the percentage of its count. *)
Lemma summary_rates (runs : list RunResult.t) :
  runs <> [] ->
  let s := calculateScenarioSummary runs in
  let n := Z.of_nat (length runs) in
  Summary.successRate s = percent (countIf RunResult.success runs) n
  /\ Summary.firstAttemptSuccessRate s
     = percent (TierSpec.firstAttemptSuccesses runs) n
  /\ Summary.afterRetry1SuccessRate s = percent (TierSpec.afterTier 1 runs) n
  /\ Summary.afterRetry2SuccessRate s = percent (TierSpec.afterTier 2 runs) n
  /\ Summary.afterRetry3SuccessRate s = percent (TierSpec.afterTier 3 runs) n.
Proof.
  intros Hne s n. subst s n.
  unfold calculateScenarioSummary.
  rewrite (summary_nonempty runs Hne).
  cbn [Summary.successRate Summary.firstAttemptSuccessRate
       Summary.afterRetry1SuccessRate
       Summary.afterRetry2SuccessRate Summary.afterRetry3SuccessRate].
  fold (TierSpec.firstAttemptSuccesses runs).
  rewrite tiers_spec.
  cbn [afterRetry1 afterRetry2 afterRetry3].
  repeat split; reflexivity.
Qed.

End StorageFacts.

(** C9.  On the empty run list [calculateScenarioSummary] takes its guard and
    returns the summary whose five rates, two averages and token total are
    all the number 0: no division is evaluated, so nothing is thrown and no
    field is NaN or undefined. *)
Theorem C9_empty_run_list_summary :
  Storage.calculateScenarioSummary []
  = {| Summary.successRate := 0;
       Summary.firstAttemptSuccessRate := 0;
       Summary.afterRetry1SuccessRate := 0;
       Summary.afterRetry2SuccessRate := 0;
       Summary.afterRetry3SuccessRate := 0;
       Summary.averageDurationMs := 0;
       Summary.averageAttempts := 0;
       Summary.totalTokensUsed := 0 |}.
Proof. reflexivity. Qed.

(** C8.  On the three step outputs of the specification's example,
    [mergeSequentialParts] returns exactly the object with recommendation "R"
    and the action of type create_actor whose actor takes title, reason and
    skills from step 2 and prompt and model from step 3; the record types
    leave room for no other field. *)
Theorem C8_merge_example :
  mergeSequentialParts Examples.mergePart1 Examples.part2 Examples.part3
  = {| Response.recommendation := "R";
       Response.action :=
         Some {| Action.type := create_actor;
                 Action.actor :=
                   {| Actor.title := "DBA";
                      Actor.reason := "needs db help, long enough text";
                      Actor.skills := ["PostgreSQL"; "Indexing"; "Tuning"];
                      Actor.prompt := "You are a DBA expert with enough characters";
                      Actor.model := reasoning |} |} |}.
Proof. reflexivity. Qed.

(** C7.  For every non-empty list of runs, [totalTokensUsed] is the sum over
    every attempt of every run, failed attempts included, of the input
    tokens (0 when absent) plus the output tokens (0 when absent). *)
Theorem C7_total_tokens (runs : list RunResult.t) :
  runs <> [] ->
  Summary.totalTokensUsed (Storage.calculateScenarioSummary runs)
  = TierSpec.sum (map TierSpec.tokensOf (TierSpec.allAttempts runs)).
Proof.
  intros Hne. unfold Storage.calculateScenarioSummary.
  rewrite (StorageFacts.summary_nonempty runs Hne).
  cbn [Summary.totalTokensUsed].
  rewrite StorageFacts.runTokens_fold. lia.
Qed.

(** The token test of the storage tests: 150 + 120 + 180 = 450, the failed
    attempt of the second run included. *)
Lemma C7_total_tokens_witness :
  Examples.tokenTestRuns <> []
  /\ Summary.totalTokensUsed (Storage.calculateScenarioSummary Examples.tokenTestRuns)
     = 450%Z.
Proof.
  split; [discriminate |].
  rewrite (C7_total_tokens Examples.tokenTestRuns); [reflexivity | discriminate].
Defined.

(** C5.  The cumulative tiers are computed as the specification words them:
    each [afterTier[k]] is the number of runs whose first attempt succeeded
    plus the number of other runs whose first successful attempt among
    [attempts[1]], [attempts[2]], [attempts[3]] has index at most [k], and each
    rate is that count divided by the number of runs, times 100.  In the
    end-to-end example (three runs of scenario 1: success at attempt 1,
    success at attempt 2, four failures) the success rate is 2/3 * 100, the
    first-attempt rate 1/3 * 100 and the three tier rates 2/3 * 100, that is
    66.7 and 33.3 to one decimal. *)
Theorem C5_cumulative_tiers :
  (forall runs : list RunResult.t,
      runs <> [] ->
      let s := Storage.calculateScenarioSummary runs in
      let n := Z.of_nat (length runs) in
      Summary.firstAttemptSuccessRate s
      = Storage.percent (TierSpec.firstAttemptSuccesses runs) n
      /\ Summary.afterRetry1SuccessRate s = Storage.percent (TierSpec.afterTier 1 runs) n
      /\ Summary.afterRetry2SuccessRate s = Storage.percent (TierSpec.afterTier 2 runs) n
      /\ Summary.afterRetry3SuccessRate s = Storage.percent (TierSpec.afterTier 3 runs) n)
  /\ (let s := Storage.calculateScenarioSummary Examples.endToEndRuns in
      map (fun r => (RunResult.success r,
                     map AttemptResult.success (RunResult.attempts r)))
          Examples.endToEndRuns
      = [ (true, [true]); (true, [false; true]);
          (false, [false; false; false; false]) ]
      /\ Summary.successRate s = Storage.percent 2 3
      /\ Summary.firstAttemptSuccessRate s = Storage.percent 1 3
      /\ Summary.afterRetry1SuccessRate s = Storage.percent 2 3
      /\ Summary.afterRetry2SuccessRate s = Storage.percent 2 3
      /\ Summary.afterRetry3SuccessRate s = Storage.percent 2 3
      /\ (Qabs (Storage.percent 2 3 - 66.7) <= 0.05)%Q
      /\ (Qabs (Storage.percent 1 3 - 33.3) <= 0.05)%Q).
Proof.
  split.
  - intros runs Hne.
    exact (proj2 (StorageFacts.summary_rates runs Hne)).
  - vm_compute. repeat split; try reflexivity; discriminate.
Qed.

(** The general part of C5 at the runs of the end-to-end example. *)
Lemma C5_cumulative_tiers_witness :
  Examples.endToEndRuns <> []
  /\ Summary.afterRetry1SuccessRate
       (Storage.calculateScenarioSummary Examples.endToEndRuns)
     = Storage.percent (TierSpec.afterTier 1 Examples.endToEndRuns) 3.
Proof.
  assert (Hne : Examples.endToEndRuns <> []) by (vm_compute; discriminate).
  split; [exact Hne |].
  exact (proj1 (proj2 (proj1 C5_cumulative_tiers Examples.endToEndRuns Hne))).
Defined.

(** * Substrings and the retry prompt *)

Module StrFacts.

Import Str.

Lemma append_assoc (a b c : string) : (a ++ b) ++ c = a ++ b ++ c.
Proof.
  induction a as [|x a IH]; simpl; [reflexivity | now rewrite IH].
Qed.

Lemma append_nil_r (a : string) : a ++ EmptyString = a.
Proof.
  induction a as [|x a IH]; simpl; [reflexivity | now rewrite IH].
Qed.

Lemma startsWith_append (needle post : string) :
  startsWith (needle ++ post) needle = true.
Proof.
  induction needle as [|c needle IH]; simpl.
  - now destruct post.
  - now rewrite Ascii.eqb_refl.
Qed.

Lemma startsWith_sound (hay needle : string) :
  startsWith hay needle = true -> exists post, hay = needle ++ post.
Proof.
  revert hay; induction needle as [|c needle IH]; intros hay H.
  - exists hay. reflexivity.
  - destruct hay as [|d hay]; simpl in H; [discriminate |].
    destruct (Ascii.eqb c d) eqn:E; [| discriminate].
    apply Ascii.eqb_eq in E. subst d.
    destruct (IH hay H) as (post & ->). now exists post.
Qed.

Lemma includes_unfold (hay needle : string) :
  includes hay needle
  = if startsWith hay needle then true
    else match hay with
         | EmptyString => false
         | String _ hay' => includes hay' needle
         end.
Proof. now destruct hay. Qed.

(** [includes] decides [Contains]. *)
Lemma includes_complete (pre needle post : string) :
  includes (pre ++ needle ++ post) needle = true.
Proof.
  induction pre as [|c pre IH].
  - simpl append. now rewrite includes_unfold, startsWith_append.
  - simpl append. rewrite includes_unfold, IH.
    now destruct (startsWith _ needle).
Qed.

Lemma includes_sound (hay needle : string) :
  includes hay needle = true -> Contains hay needle.
Proof.
  induction hay as [|c hay IH]; cbn [includes]; intros H.
  - destruct (startsWith EmptyString needle) eqn:E; [| discriminate].
    destruct (startsWith_sound _ _ E) as (post & Hp).
    exists EmptyString, post. exact Hp.
  - destruct (startsWith (String c hay) needle) eqn:E.
    + destruct (startsWith_sound _ _ E) as (post & Hp).
      exists EmptyString, post. exact Hp.
    + destruct (IH H) as (pre & post & ->).
      now exists (String c pre), post.
Qed.

Lemma includes_iff (hay needle : string) :
  includes hay needle = true <-> Contains hay needle.
Proof.
  split; [apply includes_sound |].
  intros (pre & post & ->). apply includes_complete.
Qed.

Lemma Contains_refl (a : string) : Contains a a.
Proof. exists EmptyString, EmptyString. now rewrite append_nil_r. Qed.

Lemma Contains_trans (a b c : string) :
  Contains a b -> Contains b c -> Contains a c.
Proof.
  intros (p1 & q1 & ->) (p2 & q2 & ->).
  exists (p1 ++ p2), (q2 ++ q1). now rewrite !append_assoc.
Qed.

Lemma Contains_left (a b x : string) : Contains a x -> Contains (a ++ b) x.
Proof.
  intros (p & q & ->). exists p, (q ++ b). now rewrite !append_assoc.
Qed.

Lemma Contains_right (a b x : string) : Contains b x -> Contains (a ++ b) x.
Proof.
  intros (p & q & ->). exists (a ++ p), q. now rewrite !append_assoc.
Qed.

(** Every part occurs in the joined text. *)
Lemma Contains_join (sep x : string) (parts : list string) :
  In x parts -> Contains (join sep parts) x.
Proof.
  unfold join.
  induction parts as [|y parts IH]; intros Hin; [contradiction |].
  destruct parts as [|z parts].
  - destruct Hin as [-> | []]. apply Contains_refl.
  - change (String.concat sep (y :: z :: parts))
      with (y ++ sep ++ String.concat sep (z :: parts)).
    destruct Hin as [-> | Hin].
    + apply Contains_left, Contains_refl.
    + apply Contains_right, Contains_right, IH, Hin.
Qed.

(** The retry prompt holds the previous response and, for every error, its
    path text and its message. *)
Lemma getRetryPrompt_previous (previous : string) (errs : list ValidationError.t) :
  Contains (Prompts.getRetryPrompt previous errs) previous.
Proof.
  unfold Prompts.getRetryPrompt, lines. apply Contains_join.
  do 4 right. now left.
Qed.

Lemma getRetryPrompt_error (previous : string) (errs : list ValidationError.t)
    (e : ValidationError.t) :
  In e errs ->
  Contains (Prompts.getRetryPrompt previous errs) (Prompts.pathText e)
  /\ Contains (Prompts.getRetryPrompt previous errs) (ValidationError.message e).
Proof.
  intros Hin.
  assert (Hline : Contains (Prompts.getRetryPrompt previous errs)
                           (Prompts.errorLine e)).
  { apply Contains_trans
      with (b := join nl (map Prompts.errorLine errs)).
    - unfold Prompts.getRetryPrompt, lines. apply Contains_join.
      do 8 right. now left.
    - apply Contains_join. now apply in_map. }
  split; apply (Contains_trans _ _ _ Hline); unfold Prompts.errorLine.
  - apply Contains_right, Contains_right, Contains_left, Contains_refl.
  - do 4 apply Contains_right. apply Contains_refl.
Qed.

(** The cases of the prompt tests. *)
Example extractJson_fenced :
  let jsonContent := quoted ["{"; "test"; ": "; "data"; "}"] in
  Prompts.extractJson ("```json" ++ nl ++ jsonContent ++ nl ++ "```") = jsonContent
  /\ Prompts.extractJson ("```" ++ nl ++ jsonContent ++ nl ++ "```") = jsonContent
  /\ Prompts.extractJson jsonContent = jsonContent
  /\ Prompts.extractJson ("```json" ++ nl ++ jsonContent) = jsonContent
  /\ Prompts.extractJson (jsonContent ++ nl ++ "```") = jsonContent
  /\ Prompts.extractJson ("  " ++ nl ++ "  " ++ jsonContent ++ "  " ++ nl ++ "  ")
     = jsonContent.
Proof. repeat split; reflexivity. Qed.

Example getRetryPrompt_root_error :
  includes
    (Prompts.getRetryPrompt "previous"
       [ {| ValidationError.path := [];
            ValidationError.message := "Root level error";
            ValidationError.code := "custom" |} ])
    "root: Root level error"
  = true.
Proof. reflexivity. Qed.

End StrFacts.

(** * Properties of the engine *)

Module EngineFacts.

Import Engine Traces.
Local Open Scope engine_scope.

(** ** List helpers *)

Lemma nth_error_snoc_last {A} (l : list A) (x : A) :
  nth_error (l ++ [x]) (length (l ++ [x]) - 1) = Some x.
Proof.
  rewrite length_app; simpl length.
  replace (length l + 1 - 1) with (length l) by lia.
  rewrite nth_error_app2 by lia.
  now rewrite Nat.sub_diag.
Qed.

Lemma Forall_snoc {A} (P : A -> Prop) (l : list A) (x : A) :
  Forall P l -> P x -> Forall P (l ++ [x]).
Proof.
  intros Hl Hx. apply Forall_app. split; [exact Hl | now constructor].
Qed.

(** ** The executors *)

Section Executors.

Variable env : Env.

Lemma runNonStrictAttempt_facts : ExecFacts (runNonStrictAttempt env).
Proof.
  intros s messages st. exists (mkCall None messages).
  unfold runNonStrictAttempt, bind, callGenerateText.
  destruct (generateText env (length (calls st)) messages) as [e | result].
  - cbn. auto.
  - destruct (parse env s (Prompts.extractJson (text result)))
      as [[issues | m | m | r] | validated]; cbn; repeat split; eauto;
      discriminate.
Qed.

(** The strict executor has no path that throws. *)
Lemma runStrictAttempt_returns (s : SchemaId) (messages : list Message)
    (st : State) :
  exists r, runStrictAttempt env s messages st
            = Returns r (logCall (mkCall (Some s) messages) st).
Proof.
  unfold runStrictAttempt, tryCatch, bind, callGenerateObject.
  destruct (generateObject env s (length (calls st)) messages)
    as [[issues | m | m | r] | result]; cbn; eauto.
Qed.

Lemma runStrictAttempt_facts : ExecFacts (runStrictAttempt env).
Proof.
  intros s messages st. exists (mkCall (Some s) messages).
  unfold runStrictAttempt, tryCatch, bind, callGenerateObject.
  destruct (generateObject env s (length (calls st)) messages)
    as [[issues | m | m | r] | result]; cbn; repeat split; eauto;
    discriminate.
Qed.

End Executors.

(** ** The common loop *)

(** What the record built after an executor call keeps of the result. *)
Lemma attemptResult_success s attempt ts d p (r : Attempt (dataOf s)) :
  AttemptResult.success (attemptResult s attempt ts d p r) = success r.
Proof. reflexivity. Qed.

Lemma attemptResult_errorMessage s attempt ts d p (r : Attempt (dataOf s)) :
  AttemptResult.errorMessage (attemptResult s attempt ts d p r) = None.
Proof. reflexivity. Qed.

Lemma attemptResult_failed s attempt ts d p (r : Attempt (dataOf s)) :
  success r = false -> Failed (attemptResult s attempt ts d p r).
Proof.
  intros H. split; cbn; [exact H | now rewrite H].
Qed.

Lemma attemptResult_parsed s attempt ts d p (r : Attempt (dataOf s)) v :
  success r = true -> data r = Some v ->
  AttemptResult.parsedResponse (attemptResult s attempt ts d p r)
  = Some (toParsed s v).
Proof.
  intros H Hd. cbn. now rewrite H, Hd.
Qed.

Section Loops.

Variable env : Env.
Variable exec : Executor.
Hypothesis exec_ok : ExecFacts exec.
Variable stampFirst : bool.
Variable next : list Message -> AttemptResult.t -> list Message.

Lemma recordedIn_success s attempt messages st st2 result :
  AttemptResult.success (recordedIn env stampFirst s attempt messages st st2 result)
  = success result.
Proof. unfold recordedIn. now destruct stampFirst. Qed.

Lemma recordedIn_failed s attempt messages st st2 result :
  success result = false ->
  Failed (recordedIn env stampFirst s attempt messages st st2 result).
Proof.
  unfold recordedIn. destruct stampFirst; apply attemptResult_failed.
Qed.

Lemma recordedIn_parsed s attempt messages st st2 result v :
  success result = true -> data result = Some v ->
  AttemptResult.parsedResponse (recordedIn env stampFirst s attempt messages st st2 result)
  = Some (toParsed s v).
Proof.
  unfold recordedIn. destruct stampFirst; apply attemptResult_parsed.
Qed.

(** One iteration, state made explicit. *)
Lemma retryLoop_step s remaining attempt messages st :
  retryLoop env exec stampFirst next s (S remaining) attempt messages st
  = match exec s messages (tick st) with
    | Throws e st2 => Throws e st2
    | Returns result st2 =>
        let recorded := recordedIn env stampFirst s attempt messages st st2 result in
        let st5 := {| calls := calls st2; ticks := S (S (ticks st2));
                      attempts := (attempts st2 ++ [recorded])%list |} in
        if success result
        then Returns (Some result) st5
        else retryLoop env exec stampFirst next s remaining (S attempt)
                       (next messages recorded) st5
    end.
Proof.
  cbn [retryLoop]. unfold bind at 1. unfold now at 1.
  fold (tick st). unfold bind at 1.
  destruct (exec s messages (tick st)) as [result st2 | e st2]; [| reflexivity].
  unfold recordedIn. cbn. destruct (success result); reflexivity.
Qed.

Lemma retryLoop_facts s remaining :
  forall attempt messages st,
  exists atts cs,
    LoopFacts next s remaining messages st
      (retryLoop env exec stampFirst next s remaining attempt messages st)
      atts cs.
Proof.
  induction remaining as [|remaining IH]; intros attempt messages st.
  - exists [], []. unfold LoopFacts; cbn.
    rewrite !app_nil_r. repeat split; auto.
    intros j c H. now destruct j.
  - rewrite retryLoop_step.
    destruct (exec_ok s messages (tick st)) as (c & Hc & Hst & Hdata).
    destruct (exec s messages (tick st)) as [result st2 | e st2];
      cbn [finalState] in Hst; subst st2.
    + cbn zeta. cbn [logCall tick calls attempts ticks].
      set (recorded := recordedIn env stampFirst s attempt messages st
                         (logCall c (tick st)) result).
      destruct (success result) eqn:Hok.
      * destruct (Hdata eq_refl) as (d & Hd).
        exists [recorded], [c]. unfold LoopFacts; cbn [finalState calls attempts].
        repeat split; auto; [simpl; lia | |].
        -- intros [|j] c' H; [injection H as <-; exact Hc | now destruct j].
        -- exists [], recorded, d. repeat split; auto.
           ++ subst recorded. now rewrite recordedIn_success.
           ++ subst recorded. now apply recordedIn_parsed.
      * match goal with
        | |- context [retryLoop _ _ _ _ _ _ ?a ?m ?st'] =>
            destruct (IH a m st') as (atts & cs & Ha & Hcs & Hlen & Hmsg & Hshape)
        end.
        cbn [attempts calls] in Ha, Hcs.
        assert (Hrec : Failed recorded)
          by (subst recorded; now apply recordedIn_failed).
        exists (recorded :: atts), (c :: cs). unfold LoopFacts.
        rewrite Ha, Hcs, <- !app_assoc. cbn [app length].
        repeat split; auto; [lia | |].
        -- intros [|j] c' H; cbn in H.
           ++ injection H as <-. exact Hc.
           ++ cbn [firstn fold_left]. now apply Hmsg.
        -- match goal with
           | |- match ?o with _ => _ end => destruct o as [[r|] st'' | e st'']
           end.
           ++ destruct Hshape as (Hr & Hl & init & a & d & -> & Hi & Hs & Hd & Hp).
              repeat split; auto.
              exists (recorded :: init), a, d. repeat split; auto.
           ++ destruct Hshape as (Hf & Hl & Hl'). repeat split; auto; lia.
           ++ destruct Hshape as (Hf & Hl). repeat split; auto; lia.
    + exists [], [c]. unfold LoopFacts; cbn [finalState logCall tick calls attempts].
      rewrite app_nil_r. repeat split; auto; [simpl; lia |].
      intros [|j] c' H; [injection H as <-; exact Hc | now destruct j].
Qed.

End Loops.

(** ** The four loops are instances of the common loop *)

Section Instances.

Variable env : Env.

Lemma scenario1Messages_first (recorded : list AttemptResult.t) :
  scenario1Messages 1 recorded = scenario1Base.
Proof.
  unfold scenario1Messages. cbn [Nat.ltb Nat.leb andb]. apply app_nil_r.
Qed.

Lemma scenario1Messages_retry (attempt : nat) (recorded : list AttemptResult.t)
    (a : AttemptResult.t) :
  1 <= attempt ->
  scenario1Messages (S attempt) (recorded ++ [a])
  = (scenario1Base ++ retryContextOf a)%list.
Proof.
  intros H. unfold scenario1Messages.
  replace (1 <? S attempt)%nat with true by (symmetry; apply Nat.ltb_lt; lia).
  replace (0 <? length (recorded ++ [a]))%nat with true
    by (symmetry; apply Nat.ltb_lt; rewrite length_app; simpl; lia).
  now rewrite nth_error_snoc_last.
Qed.

Lemma scenario1Attempts_loop remaining :
  forall attempt st messages,
    1 <= attempt ->
    scenario1Messages attempt (attempts st) = messages ->
    scenario1Attempts env remaining attempt st
    = bind (retryLoop env (runNonStrictAttempt env) false nextOneShot
                      ResponseSchema remaining attempt messages)
           (fun r => ret (oneShotOutcome r)) st.
Proof.
  induction remaining as [|remaining IH]; intros attempt st messages Ha Hm.
  - reflexivity.
  - unfold bind at 1. rewrite retryLoop_step.
    cbn [scenario1Attempts]. unfold bind at 1. unfold now at 1.
    unfold bind at 1. unfold readAttempts at 1.
    cbn [attempts]. rewrite Hm. unfold bind at 1. fold (tick st).
    destruct (runNonStrictAttempt_facts env ResponseSchema messages (tick st))
      as (c & _ & Hst & _).
    destruct (runNonStrictAttempt env ResponseSchema messages (tick st))
      as [result st2 | e st2]; [| reflexivity].
    cbn [finalState] in Hst. subst st2.
    unfold recordedIn.
    cbn -[retryLoop scenario1Attempts promptTextOf scenario1Messages nextOneShot].
    change (dataOf ResponseSchema) with Response.t in *.
    destruct (success result); [reflexivity |].
    match goal with
    | |- scenario1Attempts _ _ _ ?st5 = match retryLoop _ _ _ _ _ _ _ ?m _ with _ => _ end =>
        rewrite (IH (S attempt) st5 m); [reflexivity | lia |]
    end.
    cbn [attempts]. now apply scenario1Messages_retry.
Qed.

Lemma scenario2Attempts_loop remaining :
  forall attempt st,
    scenario2Attempts env remaining attempt st
    = bind (retryLoop env (runStrictAttempt env) false nextSame
                      ResponseSchema remaining attempt scenario2Messages)
           (fun r => ret (oneShotOutcome r)) st.
Proof.
  induction remaining as [|remaining IH]; intros attempt st.
  - reflexivity.
  - unfold bind at 1. rewrite retryLoop_step.
    cbn [scenario2Attempts]. unfold bind at 1. unfold now at 1.
    unfold bind at 1. fold (tick st).
    destruct (runStrictAttempt env ResponseSchema scenario2Messages (tick st))
      as [result st2 | e st2]; [| reflexivity].
    unfold recordedIn.
    cbn -[retryLoop scenario2Attempts promptTextOf scenario2Messages nextSame].
    change (dataOf ResponseSchema) with Response.t in *.
    destruct (success result); [reflexivity |].
    apply IH.
Qed.

Lemma nonStrictStep_loop s remaining :
  forall attempt messages st,
    nonStrictStep env s remaining attempt messages st
    = bind (retryLoop env (runNonStrictAttempt env) true nextAccumulate
                      s remaining attempt messages)
           (fun r => ret (stepOutcome r)) st.
Proof.
  induction remaining as [|remaining IH]; intros attempt messages st.
  - reflexivity.
  - unfold bind at 1. rewrite retryLoop_step.
    cbn [nonStrictStep]. unfold bind at 1. unfold now at 1.
    unfold bind at 1. fold (tick st).
    destruct (runNonStrictAttempt env s messages (tick st))
      as [result st2 | e st2]; [| reflexivity].
    unfold recordedIn. cbn -[retryLoop nonStrictStep promptTextOf retryContext].
    destruct (success result); [reflexivity |].
    apply IH.
Qed.

Lemma strictStep_loop s remaining :
  forall attempt messages st,
    strictStep env s remaining attempt messages st
    = bind (retryLoop env (runStrictAttempt env) true nextSame
                      s remaining attempt messages)
           (fun r => ret (stepOutcome r)) st.
Proof.
  induction remaining as [|remaining IH]; intros attempt messages st.
  - reflexivity.
  - unfold bind at 1. rewrite retryLoop_step.
    cbn [strictStep]. unfold bind at 1. unfold now at 1.
    unfold bind at 1. fold (tick st).
    destruct (runStrictAttempt env s messages (tick st))
      as [result st2 | e st2]; [| reflexivity].
    unfold recordedIn. cbn -[retryLoop strictStep promptTextOf nextSame].
    destruct (success result); [reflexivity |].
    apply IH.
Qed.

End Instances.

(** ** Steps and runs *)

Section Steps.

Variable env : Env.
Variable exec : Executor.
Hypothesis exec_ok : ExecFacts exec.
Variable next : list Message -> AttemptResult.t -> list Message.

Lemma step_facts s remaining attempt messages st :
  exists res atts cs,
    StepFacts next s remaining messages res atts cs
    /\ attempts (finalState (stepVia env exec next s remaining attempt messages st))
       = (attempts st ++ atts)%list
    /\ calls (finalState (stepVia env exec next s remaining attempt messages st))
       = (calls st ++ cs)%list
    /\ match stepVia env exec next s remaining attempt messages st with
       | Returns v _ => v = res
       | Throws _ _ => res = None
       end.
Proof.
  destruct (retryLoop_facts env exec exec_ok true next s remaining
              attempt messages st)
    as (atts & cs & Ha & Hc & Hlen & Hmsg & Hshape).
  unfold stepVia, bind.
  destruct (retryLoop env exec true next s remaining attempt messages st)
    as [[r|] st1 | e st1]; cbn [finalState ret stepOutcome] in *.
  - destruct Hshape as (Hr & Hl & init & a & d & Hatts & Hi & Hs & Hd & Hp).
    exists (Some d), atts, cs. unfold StepFacts.
    assert (0 < length atts)
      by (rewrite Hatts, length_app; simpl; lia).
    repeat split; auto; try lia.
    exists init, a. auto.
  - destruct Hshape as (Hf & Hl & Hl').
    exists None, atts, cs. unfold StepFacts.
    repeat split; auto; lia.
  - destruct Hshape as (Hf & Hl).
    exists None, atts, cs. unfold StepFacts.
    repeat split; auto; lia.
Qed.

End Steps.

(** ** Runs *)

Section Runs.

Variable env : Env.
Variable config : TestConfig.

Lemma oneShotRun_trace (exec : Executor) (exec_ok : ExecFacts exec)
    (next : list Message -> AttemptResult.t -> list Message)
    (budget : nat) (messages : list Message)
    (loop : M (bool * option Parsed)) :
  (forall st,
      loop st
      = bind (retryLoop env exec false next ResponseSchema budget 1 messages)
             (fun r => ret (oneShotOutcome r)) st) ->
  forall runNum st,
  exists cs,
    calls (finalState (oneShotRun env loop runNum st)) = (calls st ++ cs)%list
    /\ OneShotTrace budget next messages (oneShotRun env loop runNum st) cs.
Proof.
  intros Hloop runNum st.
  unfold oneShotRun.
  cbv beta iota zeta delta [bind newAttempts now readAttempts ret].
  rewrite Hloop. unfold bind.
  destruct (retryLoop_facts env exec exec_ok false next ResponseSchema budget
              1 messages
              {| calls := calls st; ticks := S (ticks st); attempts := [] |})
    as (atts & cs & Ha & Hc & Hlen & Hmsg & Hshape).
  destruct (retryLoop env exec false next ResponseSchema budget 1 messages _)
    as [[r|] st1 | e st1];
    cbn [finalState attempts calls app ret oneShotOutcome fst snd] in *;
    exists cs; (split; [exact Hc |]); unfold OneShotTrace;
    cbn [finalState attempts calls RunResult.attempts RunResult.success
         RunResult.finalResponse fst snd];
    rewrite Ha.
  - destruct Hshape as (Hr & Hl & init & a & d & Hatts & Hi & Hs & Hd & Hp).
    cbn [dataOf toParsed] in *.
    repeat split; auto. left. split; [reflexivity |].
    exists init, a, d. rewrite Hd. repeat split; auto.
  - destruct Hshape as (Hf & Hl & Hl').
    repeat split; auto.
  - destruct Hshape as (Hf & Hl). repeat split; auto.
Qed.

Lemma scenario1Run_trace runNum st :
  exists cs,
    calls (finalState (scenario1Run env config runNum st)) = (calls st ++ cs)%list
    /\ OneShotTrace (maxRetries config + 1) nextOneShot scenario1Base
                    (scenario1Run env config runNum st) cs.
Proof.
  apply (oneShotRun_trace (runNonStrictAttempt env)
           (runNonStrictAttempt_facts env)).
  intros st'. apply scenario1Attempts_loop; [lia |].
  apply scenario1Messages_first.
Qed.

Lemma scenario2Run_trace runNum st :
  exists cs,
    calls (finalState (scenario2Run env config runNum st)) = (calls st ++ cs)%list
    /\ OneShotTrace (maxRetries config + 1) nextSame scenario2Messages
                    (scenario2Run env config runNum st) cs.
Proof.
  apply (oneShotRun_trace (runStrictAttempt env)
           (runStrictAttempt_facts env)).
  intros st'. apply scenario2Attempts_loop.
Qed.

Lemma sequentialRun_trace (exec : Executor) (exec_ok : ExecFacts exec)
    (next : list Message -> AttemptResult.t -> list Message)
    (step : forall s : SchemaId,
        nat -> nat -> list Message -> M (option (dataOf s))) :
  (forall s remaining attempt messages st,
      step s remaining attempt messages st
      = stepVia env exec next s remaining attempt messages st) ->
  forall p1 p2 p3 runNum st,
  exists r st' cs,
    sequentialRun env config step p1 p2 p3 runNum st = Returns r st'
    /\ calls st' = (calls st ++ cs)%list
    /\ SequentialTrace env (maxRetries config + 1) next p1 p2 p3 r cs.
Proof.
  intros Hstep p1 p2 p3 runNum st.
  unfold sequentialRun.
  cbv beta iota zeta delta
      [bind tryCatch newAttempts now readAttempts ret orThrow throw parseMerged].
  rewrite Hstep.
  match goal with
  | |- context [stepVia env exec next ?s ?n ?a ?m ?st0] =>
      destruct (step_facts env exec exec_ok next s n a m st0)
        as (res1 & atts1 & cs1 & F1 & A1 & K1 & R1);
      destruct (stepVia env exec next s n a m st0) as [v1 st1 | e1 st1]
  end;
    cbn [finalState attempts calls app] in A1, K1.
  2: { subst res1.
       eexists _, _, cs1. split; [reflexivity |]. split; [exact K1 |].
       exists None, atts1, cs1. split; [exact F1 |].
       cbn [RunResult.attempts RunResult.success RunResult.finalResponse
            fst snd attempts].
       auto. }
  subst v1. destruct res1 as [d1|].
  2: { eexists _, _, cs1. split; [reflexivity |]. split; [exact K1 |].
       exists None, atts1, cs1. split; [exact F1 |].
       cbn [RunResult.attempts RunResult.success RunResult.finalResponse
            fst snd attempts].
       auto. }
  rewrite Hstep.
  match goal with
  | |- context [stepVia env exec next ?s ?n ?a ?m st1] =>
      destruct (step_facts env exec exec_ok next s n a m st1)
        as (res2 & atts2 & cs2 & F2 & A2 & K2 & R2);
      destruct (stepVia env exec next s n a m st1) as [v2 st2 | e2 st2]
  end;
    cbn [finalState] in A2, K2; rewrite A1 in A2; rewrite K1 in K2;
    rewrite <- app_assoc in K2.
  2: { subst res2.
       eexists _, _, (cs1 ++ cs2)%list. split; [reflexivity |].
       split; [exact K2 |].
       exists (Some d1), atts1, cs1. split; [exact F1 |].
       exists None, atts2, cs2. split; [exact F2 |].
       cbn [RunResult.attempts RunResult.success RunResult.finalResponse
            fst snd attempts].
       auto. }
  subst v2. destruct res2 as [d2|].
  2: { eexists _, _, (cs1 ++ cs2)%list. split; [reflexivity |].
       split; [exact K2 |].
       exists (Some d1), atts1, cs1. split; [exact F1 |].
       exists None, atts2, cs2. split; [exact F2 |].
       cbn [RunResult.attempts RunResult.success RunResult.finalResponse
            fst snd attempts].
       auto. }
  rewrite Hstep.
  match goal with
  | |- context [stepVia env exec next ?s ?n ?a ?m st2] =>
      destruct (step_facts env exec exec_ok next s n a m st2)
        as (res3 & atts3 & cs3 & F3 & A3 & K3 & R3);
      destruct (stepVia env exec next s n a m st2) as [v3 st3 | e3 st3]
  end;
    cbn [finalState] in A3, K3; rewrite A2 in A3; rewrite K2 in K3;
    rewrite <- !app_assoc in A3; rewrite <- !app_assoc in K3.
  2: { subst res3.
       eexists _, _, (cs1 ++ cs2 ++ cs3)%list. split; [reflexivity |].
       split; [exact K3 |].
       exists (Some d1), atts1, cs1. split; [exact F1 |].
       exists (Some d2), atts2, cs2. split; [exact F2 |].
       exists None, atts3, cs3. split; [exact F3 |].
       cbn [RunResult.attempts RunResult.success RunResult.finalResponse
            fst snd attempts].
       auto. }
  subst v3. destruct res3 as [d3|].
  2: { eexists _, _, (cs1 ++ cs2 ++ cs3)%list. split; [reflexivity |].
       split; [exact K3 |].
       exists (Some d1), atts1, cs1. split; [exact F1 |].
       exists (Some d2), atts2, cs2. split; [exact F2 |].
       exists None, atts3, cs3. split; [exact F3 |].
       cbn [RunResult.attempts RunResult.success RunResult.finalResponse
            fst snd attempts].
       auto. }
  destruct (schemaIssues ResponseSchema (mergeSequentialParts d1 d2 d3))
    as [|issue issues] eqn:Hissues.
  - eexists _, _, (cs1 ++ cs2 ++ cs3)%list. split; [reflexivity |].
    split; [exact K3 |].
    exists (Some d1), atts1, cs1. split; [exact F1 |].
    exists (Some d2), atts2, cs2. split; [exact F2 |].
    exists (Some d3), atts3, cs3. split; [exact F3 |].
    cbn [RunResult.attempts RunResult.success RunResult.finalResponse
         fst snd attempts].
    cbv zeta. rewrite Hissues. auto.
  - eexists _, _, (cs1 ++ cs2 ++ cs3)%list. split; [reflexivity |].
    split; [exact K3 |].
    exists (Some d1), atts1, cs1. split; [exact F1 |].
    exists (Some d2), atts2, cs2. split; [exact F2 |].
    exists (Some d3), atts3, cs3. split; [exact F3 |].
    cbn [RunResult.attempts RunResult.success RunResult.finalResponse
         fst snd attempts].
    cbv zeta. rewrite Hissues. auto.
Qed.

Lemma scenario3Run_trace runNum st :
  exists r st' cs,
    scenario3Run env config runNum st = Returns r st'
    /\ calls st' = (calls st ++ cs)%list
    /\ SequentialTrace env (maxRetries config + 1) nextAccumulate
         Prompts.step1_nonStrict Prompts.step2_nonStrict
         Prompts.step3_nonStrict r cs.
Proof.
  apply (sequentialRun_trace (runNonStrictAttempt env)
           (runNonStrictAttempt_facts env)).
  intros. apply nonStrictStep_loop.
Qed.

Lemma scenario4Run_trace runNum st :
  exists r st' cs,
    scenario4Run env config runNum st = Returns r st'
    /\ calls st' = (calls st ++ cs)%list
    /\ SequentialTrace env (maxRetries config + 1) nextSame
         Prompts.step1_strict Prompts.step2_strict Prompts.step3_strict r cs.
Proof.
  apply (sequentialRun_trace (runStrictAttempt env)
           (runStrictAttempt_facts env)).
  intros. apply strictStep_loop.
Qed.

(** A property of every run carries over to the runs a scenario
    produces. *)
Lemma runsLoop_produced (run : nat -> M RunResult.t) (P : RunResult.t -> Prop) :
  (forall runNum st r st', run runNum st = Returns r st' -> P r) ->
  forall remaining runNum acc st,
    Forall P acc ->
    Forall P (produced (runsLoop run remaining runNum acc st)).
Proof.
  intros Hrun. induction remaining as [|remaining IH]; intros runNum acc st Hacc.
  - exact Hacc.
  - cbn [runsLoop]. unfold bind at 1.
    destruct (run runNum st) as [r st' | e st'] eqn:E.
    + apply IH. apply Forall_snoc; [exact Hacc |]. eapply Hrun, E.
    + constructor.
Qed.

End Runs.

(** ** Calls and messages *)

Lemma callsSince_app (st st' : State) (cs : list Call) :
  calls st' = (calls st ++ cs)%list -> callsSince st st' = cs.
Proof.
  intros H. unfold callsSince. rewrite H.
  rewrite skipn_app, skipn_all, Nat.sub_diag. reflexivity.
Qed.

Lemma firstn_succ_snoc {A} (l : list A) (k : nat) (a : A) :
  nth_error l k = Some a -> firstn (S k) l = (firstn k l ++ [a])%list.
Proof.
  revert k; induction l as [|x l IH]; intros [|k] H; try discriminate.
  - injection H as ->. reflexivity.
  - cbn [firstn app]. f_equal. now apply IH.
Qed.

Lemma fold_nextOneShot (atts : list AttemptResult.t) (a : AttemptResult.t)
    (messages : list Message) :
  fold_left nextOneShot (atts ++ [a]) messages
  = (scenario1Base ++ retryContextOf a)%list.
Proof. now rewrite fold_left_app. Qed.

Lemma fold_nextAccumulate (atts : list AttemptResult.t) (messages : list Message) :
  fold_left nextAccumulate atts messages = (messages ++ retryContexts atts)%list.
Proof.
  revert messages; induction atts as [|a atts IH]; intros messages.
  - cbn. now rewrite app_nil_r.
  - cbn [fold_left]. rewrite IH. unfold nextAccumulate, retryContexts.
    cbn [flat_map]. now rewrite <- app_assoc.
Qed.

Lemma fold_nextSame (atts : list AttemptResult.t) (messages : list Message) :
  fold_left nextSame atts messages = messages.
Proof. induction atts as [|a atts IH]; [reflexivity | exact IH]. Qed.

(** The last message of a retry context mentions the attempt. *)
Lemma retryContext_mentions (pre : list Message) (a : AttemptResult.t) :
  exists m,
    lastOf (pre ++ retryContextOf a) = Some m
    /\ role m = user
    /\ Mentions m a.
Proof.
  exists (mkMessage user (Prompts.getRetryPrompt (AttemptResult.rawResponse a)
                            (AttemptResult.validationErrors a))).
  split; [| split; [reflexivity |]].
  - unfold lastOf, retryContextOf, retryContext.
    change (pre ++ [?x; ?y])%list with (pre ++ [x] ++ [y])%list.
    rewrite app_assoc. apply nth_error_snoc_last.
  - split; cbn [content].
    + apply StrFacts.includes_iff, StrFacts.getRetryPrompt_previous.
    + intros e He.
      destruct (StrFacts.getRetryPrompt_error (AttemptResult.rawResponse a)
                  _ e He) as (Hp & Hm).
      split; now apply StrFacts.includes_iff.
Qed.

(** In a run of scenario 1 every call after the first was sent the base
    messages followed by the context of the attempt just before it. *)
Lemma oneShot_retry_messages (budget : nat) (out : Outcome RunResult.t)
    (cs : list Call) (k : nat) (c : Call) :
  OneShotTrace budget nextOneShot scenario1Base out cs ->
  nth_error cs (S k) = Some c ->
  exists a,
    nth_error (attempts (finalState out)) k = Some a
    /\ call_messages c = (scenario1Base ++ retryContextOf a)%list.
Proof.
  intros (Hlen & Hmsg & Hshape) Hc.
  assert (Hk : k < length (attempts (finalState out))).
  { assert (S k < length cs) by (apply nth_error_Some; congruence).
    destruct out as [r st' | e st'].
    - destruct Hshape as (_ & Hl & _). lia.
    - destruct Hshape as (_ & Hl). lia. }
  destruct (nth_error (attempts (finalState out)) k) as [a|] eqn:Ha;
    [| apply nth_error_None in Ha; lia].
  exists a. split; [reflexivity |].
  rewrite (Hmsg _ _ Hc), (firstn_succ_snoc _ _ _ Ha).
  apply fold_nextOneShot.
Qed.

(** The attempts and the calls of a three-step run start with those of
    step 1. *)
Lemma sequential_starts_with_step1 env budget next p1 p2 p3 r cs :
  SequentialTrace env budget next p1 p2 p3 r cs ->
  exists res1 atts1 cs1 atts' cs',
    StepFacts next SequentialPart1Schema budget (step1Messages p1) res1 atts1 cs1
    /\ RunResult.attempts r = (atts1 ++ atts')%list
    /\ cs = (cs1 ++ cs')%list
    /\ (res1 = None -> atts' = [] /\ cs' = []).
Proof.
  intros (res1 & atts1 & cs1 & F1 & Hrest).
  destruct res1 as [d1|].
  - destruct Hrest as (res2 & atts2 & cs2 & F2 & Hrest).
    destruct res2 as [d2|].
    + destruct Hrest as (res3 & atts3 & cs3 & F3 & Ha & Hc & _).
      exists (Some d1), atts1, cs1, (atts2 ++ atts3)%list, (cs2 ++ cs3)%list.
      split; [exact F1 | split; [exact Ha | split; [exact Hc |]]].
      intros H; discriminate H.
    + destruct Hrest as (Ha & Hc & _).
      exists (Some d1), atts1, cs1, atts2, cs2.
      split; [exact F1 | split; [exact Ha | split; [exact Hc |]]].
      intros H; discriminate H.
  - destruct Hrest as (Ha & Hc & _).
    exists None, atts1, cs1, [], [].
    rewrite !app_nil_r.
    split; [exact F1 | split; [exact Ha | split; [exact Hc | auto]]].
Qed.

(** As long as every earlier attempt of a three-step run failed, the run
    is still in step 1, and the call was sent the messages step 1 has
    reached. *)
Lemma sequential_leading_failures env budget next p1 p2 p3 r cs j c :
  SequentialTrace env budget next p1 p2 p3 r cs ->
  j <= length (RunResult.attempts r) ->
  Forall (fun a => AttemptResult.success a = false)
         (firstn j (RunResult.attempts r)) ->
  nth_error cs j = Some c ->
  call_messages c
  = fold_left next (firstn j (RunResult.attempts r)) (step1Messages p1).
Proof.
  intros Htrace Hj Hfail Hc.
  destruct (sequential_starts_with_step1 _ _ _ _ _ _ _ _ Htrace)
    as (res1 & atts1 & cs1 & atts' & cs' & F1 & Ha & Hcs & Hnone).
  destruct F1 as (Hl1 & Hlc1 & Hpos1 & Hmsg1 & Hshape1).
  assert (Hin1 : j < length cs1 /\ j <= length atts1).
  { destruct res1 as [d1|].
    - destruct Hshape1 as (Hl & init & a & Hatts1 & _ & Hs & _).
      assert (j <= length init).
      { destruct (Nat.le_gt_cases j (length init)) as [|Hgt]; [assumption |].
        exfalso.
        assert (Hnth : nth_error (firstn j (RunResult.attempts r)) (length init)
                       = Some a).
        { rewrite nth_error_firstn.
          replace (length init <? j)%nat with true
            by (symmetry; now apply Nat.ltb_lt).
          rewrite Ha, Hatts1, <- app_assoc.
          rewrite nth_error_app2 by lia. now rewrite Nat.sub_diag. }
        apply nth_error_In in Hnth.
        rewrite Forall_forall in Hfail. specialize (Hfail a Hnth).
        congruence. }
      rewrite Hl, Hatts1, length_app; simpl. lia.
    - destruct (Hnone eq_refl) as (-> & ->).
      rewrite app_nil_r in Ha, Hcs. subst cs.
      split; [apply nth_error_Some; congruence |].
      rewrite <- Ha. exact Hj. }
  destruct Hin1 as (Hjc & Hja).
  rewrite Hcs, nth_error_app1 in Hc by exact Hjc.
  rewrite (Hmsg1 _ _ Hc). f_equal.
  rewrite Ha, firstn_app.
  replace (j - length atts1) with 0 by lia.
  cbn [firstn]. now rewrite app_nil_r.
Qed.

Lemma retryContexts_length (atts : list AttemptResult.t) :
  length (retryContexts atts) = 2 * length atts.
Proof.
  unfold retryContexts.
  rewrite (flat_map_constant_length (c := 2)); [lia | reflexivity].
Qed.

(** ** The shape of one-shot runs *)

Lemma oneShotTrace_shape budget next messages r st' cs :
  OneShotTrace budget next messages (Returns r st') cs ->
  OneShotShape budget r.
Proof.
  intros (Hlen & _ & Hatts & _ & Hshape). cbn [finalState] in *.
  unfold OneShotShape. rewrite Hatts. split; [exact Hlen |].
  destruct Hshape as [(Hs & init & a & d & Ha & Hi & Hsa & _)
                     | (Hs & Hf & Hl & _)].
  - left. split; [exact Hs |]. exists init, a. auto.
  - right. auto.
Qed.

Lemma scenario1_runs_shape env config st :
  Forall (OneShotShape (maxRetries config + 1))
         (produced (runScenario1 env config st)).
Proof.
  apply runsLoop_produced; [| constructor].
  intros runNum st0 r st' Hrun.
  destruct (scenario1Run_trace env config runNum st0) as (cs & _ & Htrace).
  rewrite Hrun in Htrace. eapply oneShotTrace_shape, Htrace.
Qed.

Lemma scenario2_runs_shape env config st :
  Forall (OneShotShape (maxRetries config + 1))
         (produced (runScenario2 env config st)).
Proof.
  apply runsLoop_produced; [| constructor].
  intros runNum st0 r st' Hrun.
  destruct (scenario2Run_trace env config runNum st0) as (cs & _ & Htrace).
  rewrite Hrun in Htrace. eapply oneShotTrace_shape, Htrace.
Qed.

Lemma Failed_last (atts : list AttemptResult.t) :
  Forall Failed atts -> 0 < length atts ->
  exists a, lastOf atts = Some a /\ AttemptResult.success a = false.
Proof.
  intros Hf Hlen. unfold lastOf.
  destruct (nth_error atts (length atts - 1)) as [a|] eqn:E.
  - exists a. split; [reflexivity |].
    rewrite Forall_forall in Hf. apply (Hf a). eapply nth_error_In, E.
  - apply nth_error_None in E. lia.
Qed.

Lemma shape_within_budget budget r :
  0 < budget -> OneShotShape budget r -> WithinBudget budget r.
Proof.
  intros Hb (Hlen & Hshape). split; [exact Hlen |]. intros _.
  destruct Hshape as [(Hs & init & a & Ha & _ & Hsa) | (Hs & Hf & Hl)].
  - exists a. rewrite Ha. split; [apply nth_error_snoc_last | congruence].
  - destruct (Failed_last _ Hf) as (a & Hlast & Hsa); [lia |].
    exists a. split; [exact Hlast | congruence].
Qed.

Lemma sequentialTrace_length env budget next p1 p2 p3 r cs :
  SequentialTrace env budget next p1 p2 p3 r cs ->
  length (RunResult.attempts r) <= 3 * budget.
Proof.
  intros (res1 & atts1 & cs1 & (Hl1 & _) & Hrest).
  destruct res1 as [d1|].
  - destruct Hrest as (res2 & atts2 & cs2 & (Hl2 & _) & Hrest).
    destruct res2 as [d2|].
    + destruct Hrest as (res3 & atts3 & cs3 & (Hl3 & _) & -> & _).
      rewrite !length_app. lia.
    + destruct Hrest as (-> & _). rewrite length_app. lia.
  - destruct Hrest as (-> & _). lia.
Qed.

(** ** Steps after a null action *)

Lemma step_parsed next s budget messages res atts cs a :
  StepFacts next s budget messages res atts cs ->
  In a atts ->
  AttemptResult.parsedResponse a = None
  \/ exists d, res = Some d
               /\ AttemptResult.parsedResponse a = Some (toParsed s d).
Proof.
  intros (_ & _ & _ & _ & Hshape) Hin.
  destruct res as [d|].
  - destruct Hshape as (_ & init & a' & -> & Hi & _ & Hp).
    apply in_app_or in Hin. destruct Hin as [Hin | [<- | []]].
    + left. rewrite Forall_forall in Hi. apply (Hi a Hin).
    + right. now exists d.
  - left. rewrite Forall_forall in Hshape. apply (Hshape a Hin).
Qed.

Lemma step_first_call next s budget messages res atts cs :
  StepFacts next s budget messages res atts cs ->
  0 < budget ->
  exists c, In c cs /\ call_messages c = messages.
Proof.
  intros (_ & _ & Hpos & Hmsg & _) Hb.
  specialize (Hpos Hb).
  destruct cs as [|c cs]; [simpl in Hpos; lia |].
  exists c. split; [now left |]. apply (Hmsg 0 c eq_refl).
Qed.

Lemma null_action_steps env budget next p1 p2 p3 r cs :
  0 < budget ->
  SequentialTrace env budget next p1 p2 p3 r cs ->
  NullActionFacts env p2 p3 cs r.
Proof.
  intros Hb (res1 & atts1 & cs1 & F1 & Hrest) a d1 Hin Hparsed Hnull.
  assert (Hother : forall s res atts cs0 budget0 messages,
             s <> SequentialPart1Schema ->
             StepFacts next s budget0 messages res atts cs0 ->
             ~ In a atts).
  { intros s res atts cs0 budget0 messages Hs F Ha.
    destruct (step_parsed _ _ _ _ _ _ _ _ F Ha) as [Hn | (d & _ & Hp)];
      [congruence |].
    rewrite Hparsed in Hp. destruct s; cbn in Hp; congruence. }
  assert (Hfirst : In a atts1 -> res1 = Some d1).
  { intros Ha.
    destruct (step_parsed _ _ _ _ _ _ _ _ F1 Ha) as [Hn | (d & -> & Hp)];
      [congruence |].
    rewrite Hparsed in Hp. cbn in Hp. injection Hp as Hp.
    cbn [dataOf] in *. now subst. }
  destruct res1 as [d1'|].
  - destruct Hrest as (res2 & atts2 & cs2 & F2 & Hrest).
    assert (Hd : d1' = d1).
    { destruct res2 as [d2|].
      - destruct Hrest as (res3 & atts3 & cs3 & F3 & Ha & _).
        rewrite Ha in Hin.
        apply in_app_or in Hin. destruct Hin as [Hin | Hin].
        + specialize (Hfirst Hin). congruence.
        + apply in_app_or in Hin. destruct Hin as [Hin | Hin].
          * exfalso; apply (Hother SequentialPart2Schema _ _ _ _ _ ltac:(discriminate) F2 Hin).
          * exfalso; apply (Hother SequentialPart3Schema _ _ _ _ _ ltac:(discriminate) F3 Hin).
      - destruct Hrest as (Ha & _). rewrite Ha in Hin.
        apply in_app_or in Hin. destruct Hin as [Hin | Hin].
        + specialize (Hfirst Hin). congruence.
        + exfalso; apply (Hother SequentialPart2Schema _ _ _ _ _ ltac:(discriminate) F2 Hin). }
    subst d1'.
    destruct (step_first_call _ _ _ _ _ _ _ F2 Hb) as (c2 & Hc2 & Hm2).
    destruct res2 as [d2|].
    + destruct Hrest as (res3 & atts3 & cs3 & F3 & Ha & Hcs & Hrest).
      split.
      * exists c2. split; [| exact Hm2].
        rewrite Hcs. apply in_or_app. right. apply in_or_app. now left.
      * intros Hok.
        destruct (step_first_call _ _ _ _ _ _ _ F3 Hb) as (c3 & Hc3 & Hm3).
        destruct res3 as [d3|]; [| destruct Hrest; congruence].
        cbv zeta in Hrest.
        destruct (schemaIssues ResponseSchema (mergeSequentialParts d1 d2 d3));
          [| destruct Hrest; congruence].
        destruct Hrest as (_ & Hfinal).
        exists d2, d3. split; [| split; [exact Hfinal |]].
        -- exists c3. split; [| exact Hm3].
           rewrite Hcs. apply in_or_app. right. apply in_or_app. now right.
        -- unfold mergeSequentialParts. cbn. now rewrite Hnull.
    + destruct Hrest as (Ha & Hcs & Hs & _). split.
      * exists c2. split; [| exact Hm2]. rewrite Hcs. apply in_or_app. now right.
      * congruence.
  - destruct Hrest as (Ha & _). rewrite Ha in Hin.
    specialize (Hfirst Hin). discriminate.
Qed.

(** ** Strict mode never throws *)

Lemma retryLoop_returns env (exec : Executor) stampFirst next s remaining :
  (forall s' messages st, exists r st', exec s' messages st = Returns r st') ->
  forall attempt messages st,
  exists v st',
    retryLoop env exec stampFirst next s remaining attempt messages st
    = Returns v st'.
Proof.
  intros Hexec. induction remaining as [|remaining IH]; intros attempt messages st.
  - now exists None, st.
  - rewrite retryLoop_step.
    destruct (Hexec s messages (tick st)) as (r & st2 & ->).
    cbv zeta. destruct (success r); [eauto | apply IH].
Qed.

Lemma strict_returns env s messages st :
  exists r st', runStrictAttempt env s messages st = Returns r st'.
Proof.
  destruct (runStrictAttempt_returns env s messages st) as (r & H). eauto.
Qed.

Lemma scenario2Run_returns env config runNum st :
  exists r st', scenario2Run env config runNum st = Returns r st'.
Proof.
  unfold scenario2Run, oneShotRun.
  cbv beta iota zeta delta [bind newAttempts now readAttempts ret].
  rewrite scenario2Attempts_loop. unfold bind.
  match goal with
  | |- context [retryLoop env ?e ?sf ?nx ?s ?n ?a ?m ?st0] =>
      destruct (retryLoop_returns env e sf nx s n (strict_returns env) a m st0)
        as (v & st1 & ->)
  end.
  cbn [ret]. eauto.
Qed.

Lemma runsLoop_returns (run : nat -> M RunResult.t) :
  (forall runNum st, exists r st', run runNum st = Returns r st') ->
  forall remaining runNum acc st,
  exists rs st',
    runsLoop run remaining runNum acc st = Returns rs st'
    /\ length rs = length acc + remaining.
Proof.
  intros Hrun. induction remaining as [|remaining IH]; intros runNum acc st.
  - exists acc, st. split; [reflexivity | lia].
  - cbn [runsLoop]. unfold bind at 1.
    destruct (Hrun runNum st) as (r & st' & ->).
    destruct (IH (S runNum) (acc ++ [r])%list st') as (rs & st'' & -> & Hlen).
    exists rs, st''. split; [reflexivity |].
    rewrite Hlen, length_app. simpl. lia.
Qed.

(** In a run of scenario 1 or 2 a failed attempt below the budget is
    followed by another attempt. *)
Lemma shape_retry_follows budget r j a :
  OneShotShape budget r ->
  nth_error (RunResult.attempts r) j = Some a ->
  AttemptResult.success a = false ->
  S j < budget ->
  exists a', nth_error (RunResult.attempts r) (S j) = Some a'.
Proof.
  intros (_ & Hshape) Ha Hfail Hj.
  assert (Hlt : S j < length (RunResult.attempts r)).
  { destruct Hshape as [(_ & init & a' & Hatts & _ & Hsa) | (_ & _ & Hl)];
      [| lia].
    rewrite Hatts in *. rewrite length_app. simpl.
    assert (j < length init \/ j = length init \/ length init < j) as [H | [H | H]]
      by lia; [lia | |].
    - subst j. rewrite nth_error_app2, Nat.sub_diag in Ha by lia.
      cbn in Ha. congruence.
    - assert (j < length (init ++ [a'])) by (apply nth_error_Some; congruence).
      rewrite length_app in *. simpl in *. lia. }
  destruct (nth_error (RunResult.attempts r) (S j)) as [a'|] eqn:E;
    [eauto | apply nth_error_None in E; lia].
Qed.

End EngineFacts.

Import Engine Traces.

(** C2, as amended.  Every run of scenarios 1 and 2 has at most
    maxRetries + 1 attempts, and when it has exactly that many its success
    flag is the success flag of its last attempt.  The runs of scenarios 3
    and 4 hold the attempts of their three steps one after the other, each
    step within the budget: at most 3 * (maxRetries + 1) attempts. *)
Theorem C2_retry_budget (env : Env) (config : TestConfig) (st : State) :
  Forall (WithinBudget (maxRetries config + 1))
         (produced (runScenario1 env config st))
  /\ Forall (WithinBudget (maxRetries config + 1))
            (produced (runScenario2 env config st))
  /\ Forall (fun r => length (RunResult.attempts r) <= 3 * (maxRetries config + 1))
            (produced (runScenario3 env config st))
  /\ Forall (fun r => length (RunResult.attempts r) <= 3 * (maxRetries config + 1))
            (produced (runScenario4 env config st)).
Proof.
  split; [| split; [| split]].
  - eapply Forall_impl; [| apply EngineFacts.scenario1_runs_shape].
    intros r. apply EngineFacts.shape_within_budget. lia.
  - eapply Forall_impl; [| apply EngineFacts.scenario2_runs_shape].
    intros r. apply EngineFacts.shape_within_budget. lia.
  - apply EngineFacts.runsLoop_produced; [| constructor].
    intros runNum st0 r st' Hrun.
    destruct (EngineFacts.scenario3Run_trace env config runNum st0)
      as (r' & st'' & cs & Hrun' & _ & Htrace).
    rewrite Hrun in Hrun'. injection Hrun' as <- <-.
    eapply EngineFacts.sequentialTrace_length, Htrace.
  - apply EngineFacts.runsLoop_produced; [| constructor].
    intros runNum st0 r st' Hrun.
    destruct (EngineFacts.scenario4Run_trace env config runNum st0)
      as (r' & st'' & cs & Hrun' & _ & Htrace).
    rewrite Hrun in Hrun'. injection Hrun' as <- <-.
    eapply EngineFacts.sequentialTrace_length, Htrace.
Qed.

(** The three runs of the end-to-end example hold 1, 2 and 4 attempts and
    are within the budget of four. *)
Lemma C2_retry_budget_witness :
  Forall (WithinBudget 4) Examples.endToEndRuns
  /\ map (fun r => length (RunResult.attempts r)) Examples.endToEndRuns = [1; 2; 4].
Proof.
  split.
  - exact (proj1 (C2_retry_budget Examples.endToEndEnv Examples.endToEndConfig
                                  initialState)).
  - vm_compute. reflexivity.
Defined.

(** C2, as stated, fails in scenario 3: with the default budget of
    maxRetries = 3, a run whose step 1 succeeds at once and whose step 2
    fails four times holds five attempts. *)
Lemma C2_counterexample_three_step_run_exceeds_budget :
  exists r,
    In r (produced (runScenario3 Examples.stepTwoFailsEnv Examples.oneRunConfig
                                 initialState))
    /\ map AttemptResult.success (RunResult.attempts r)
       = [true; false; false; false; false]
    /\ ~ length (RunResult.attempts r) <= maxRetries Examples.oneRunConfig + 1.
Proof.
  destruct (produced (runScenario3 Examples.stepTwoFailsEnv Examples.oneRunConfig
                                   initialState)) as [|r rest] eqn:E;
    [vm_compute in E; discriminate E |].
  exists r. split; [now left |].
  vm_compute in E. injection E as <- _.
  split; [reflexivity |]. cbn. lia.
Qed.

(** C3, as amended.  A three-step run has no short-circuit on a null action:
    when step 1 has returned a validated object whose action is null, step 2
    is still called, with that object in its context, and a run that
    succeeds has called step 3 as well; its final response is the merge of
    the three step outputs, whose action is null. *)
Theorem C3_null_action_steps_still_run
    (env : Env) (config : TestConfig) (runNum : nat) (st : State) :
  (exists r st',
      scenario3Run env config runNum st = Returns r st'
      /\ NullActionFacts env Prompts.step2_nonStrict Prompts.step3_nonStrict
                         (callsSince st st') r)
  /\ (exists r st',
        scenario4Run env config runNum st = Returns r st'
        /\ NullActionFacts env Prompts.step2_strict Prompts.step3_strict
                           (callsSince st st') r).
Proof.
  split.
  - destruct (EngineFacts.scenario3Run_trace env config runNum st)
      as (r & st' & cs & Hrun & Hcalls & Htrace).
    exists r, st'. split; [exact Hrun |].
    rewrite (EngineFacts.callsSince_app _ _ _ Hcalls).
    eapply EngineFacts.null_action_steps; [| exact Htrace]. lia.
  - destruct (EngineFacts.scenario4Run_trace env config runNum st)
      as (r & st' & cs & Hrun & Hcalls & Htrace).
    exists r, st'. split; [exact Hrun |].
    rewrite (EngineFacts.callsSince_app _ _ _ Hcalls).
    eapply EngineFacts.null_action_steps; [| exact Htrace]. lia.
Qed.

(** The run of scenario 3 whose step 1 answers with a null action: it
    succeeds, steps 2 and 3 were called, and the final action is null. *)
Lemma C3_null_action_steps_still_run_witness :
  exists r st' d2 d3,
    scenario3Run Examples.nullActionEnv Examples.oneRunConfig 1 initialState
    = Returns r st'
    /\ RunResult.success r = true
    /\ (exists c, In c (callsSince initialState st')
                  /\ call_messages c
                     = step2Messages Examples.nullActionEnv Prompts.step2_nonStrict
                                     Examples.part1Null)
    /\ RunResult.finalResponse r
       = Some (OfResponse (mergeSequentialParts Examples.part1Null d2 d3))
    /\ Response.action (mergeSequentialParts Examples.part1Null d2 d3) = None.
Proof.
  destruct (proj1 (C3_null_action_steps_still_run Examples.nullActionEnv
                     Examples.oneRunConfig 1 initialState))
    as (r & st' & Hrun & Hfacts).
  assert (Hr : exists a,
             In a (RunResult.attempts r)
             /\ AttemptResult.parsedResponse a = Some (OfPart1 Examples.part1Null)
             /\ RunResult.success r = true).
  { vm_compute in Hrun. injection Hrun as <- _.
    eexists. split; [left; reflexivity |]. split; reflexivity. }
  destruct Hr as (a & Hin & Hparsed & Hok).
  destruct (Hfacts a Examples.part1Null Hin Hparsed eq_refl) as (Hstep2 & Hfinal).
  destruct (Hfinal Hok) as (d2 & d3 & _ & Hmerged & Hnull).
  exists r, st', d2, d3. auto.
Defined.

(** C3, as stated, fails: in the run of scenario 3 whose step 1 answers with
    a null action, three generator calls are made, with the messages of
    steps 1, 2 and 3, and the attempts of steps 2 and 3 are appended. *)
Lemma C3_counterexample_null_action_does_not_short_circuit :
  exists r st',
    scenario3Run Examples.nullActionEnv Examples.oneRunConfig 1 initialState
    = Returns r st'
    /\ SequentialPart1.action Examples.part1Null = None
    /\ map AttemptResult.parsedResponse (RunResult.attempts r)
       = [ Some (OfPart1 Examples.part1Null);
           Some (OfPart2 Examples.part2);
           Some (OfPart3 Examples.part3) ]
    /\ map call_messages (callsSince initialState st')
       = [ step1Messages Prompts.step1_nonStrict;
           step2Messages Examples.nullActionEnv Prompts.step2_nonStrict
                         Examples.part1Null;
           step3Messages Examples.nullActionEnv Prompts.step3_nonStrict
                         Examples.part1Null Examples.part2 ]
    /\ ~ length (callsSince initialState st') <= 1.
Proof.
  destruct (scenario3Run Examples.nullActionEnv Examples.oneRunConfig 1 initialState)
    as [r st' | e st'] eqn:E; [| vm_compute in E; discriminate E].
  exists r, st'. split; [reflexivity |]. split; [reflexivity |].
  vm_compute in E. injection E as <- <-.
  split; [vm_compute; reflexivity |].
  split; [vm_compute; reflexivity |].
  cbn [callsSince initialState calls length skipn]. lia.
Qed.

(** C4, as amended.  In strict mode a transport failure (the generate call
    throws anything but a validation error) makes the executor return, not
    throw: the attempt recorded for it has failed, has an empty raw response,
    has errorMessage null, and has exactly one validation error, with empty
    path, the message of the failure and the code api_error.  Runs of
    scenarios 2 and 4, and the scenarios as wholes, never end in an
    exception, and in scenario 2 every failed attempt below the budget is
    followed by another attempt. *)
Theorem C4_strict_transport_failure_is_recorded (env : Env) :
  (forall s messages st e,
      generateObject env s (length (calls st)) messages = inl e ->
      (forall issues, e <> ZodError issues) ->
      exists r,
        runStrictAttempt env s messages st
        = Returns r (logCall (mkCall (Some s) messages) st)
        /\ raw r = EmptyString
        /\ forall attempt ts d p,
             let a := attemptResult s attempt ts d p r in
             AttemptResult.success a = false
             /\ AttemptResult.errorMessage a = None
             /\ AttemptResult.validationErrors a = [apiError e])
  /\ (forall config runNum st,
        exists r st',
          scenario2Run env config runNum st = Returns r st'
          /\ forall j a,
               nth_error (RunResult.attempts r) j = Some a ->
               AttemptResult.success a = false ->
               j < maxRetries config ->
               exists a', nth_error (RunResult.attempts r) (S j) = Some a')
  /\ (forall config runNum st,
        exists r st', scenario4Run env config runNum st = Returns r st')
  /\ (forall config st,
        (exists rs st', runScenario2 env config st = Returns rs st'
                        /\ length rs = runsPerScenario config)
        /\ (exists rs st', runScenario4 env config st = Returns rs st'
                           /\ length rs = runsPerScenario config)).
Proof.
  assert (H4 : forall config runNum st,
             exists r st', scenario4Run env config runNum st = Returns r st').
  { intros config runNum st.
    destruct (EngineFacts.scenario4Run_trace env config runNum st)
      as (r & st' & _ & Hrun & _). eauto. }
  split; [| split; [| split]].
  - intros s messages st e He Hnz.
    unfold runStrictAttempt, tryCatch, bind, callGenerateObject.
    rewrite He.
    destruct e as [issues | m | m | v];
      [now contradiction (Hnz issues) | | |];
      (eexists; split; [reflexivity |]; split; [reflexivity |];
       intros attempt ts d p; cbv zeta; repeat split).
  - intros config runNum st.
    destruct (EngineFacts.scenario2Run_returns env config runNum st)
      as (r & st' & Hrun).
    exists r, st'. split; [exact Hrun |].
    intros j a Ha Hfail Hj.
    destruct (EngineFacts.scenario2Run_trace env config runNum st)
      as (cs & _ & Htrace).
    rewrite Hrun in Htrace.
    apply EngineFacts.oneShotTrace_shape in Htrace.
    eapply EngineFacts.shape_retry_follows; eauto. lia.
  - exact H4.
  - intros config st. split.
    + destruct (EngineFacts.runsLoop_returns (scenario2Run env config)
                  (EngineFacts.scenario2Run_returns env config)
                  (runsPerScenario config) 1 [] st)
        as (rs & st' & Hrun & Hlen).
      exists rs, st'. split; [exact Hrun | exact Hlen].
    + destruct (EngineFacts.runsLoop_returns (scenario4Run env config)
                  (H4 config) (runsPerScenario config) 1 [] st)
        as (rs & st' & Hrun & Hlen).
      exists rs, st'. split; [exact Hrun | exact Hlen].
Qed.

(** A strict attempt against an unreachable provider: the recorded attempt
    carries the failure as its only validation error. *)
Lemma C4_strict_transport_failure_is_recorded_witness :
  exists r,
    runStrictAttempt Examples.unreachableEnv ResponseSchema scenario2Messages
                     initialState
    = Returns r (logCall (mkCall (Some ResponseSchema) scenario2Messages)
                         initialState)
    /\ AttemptResult.validationErrors
         (attemptResult ResponseSchema 1 0 0 EmptyString r)
       = [ {| ValidationError.path := [];
              ValidationError.message := "Rate limit exceeded";
              ValidationError.code := "api_error" |} ].
Proof.
  destruct (proj1 (C4_strict_transport_failure_is_recorded Examples.unreachableEnv)
              ResponseSchema scenario2Messages initialState
              Examples.networkError eq_refl)
    as (r & Hrun & _ & Hrec).
  - intros issues. discriminate.
  - exists r. split; [exact Hrun |].
    exact (proj2 (proj2 (Hrec 1 0%Z 0%Z EmptyString))).
Defined.

(** C4, as stated, fails: in scenario 2 against an unreachable provider the
    first attempt is recorded as failed with errorMessage null and a
    non-empty list of validation errors. *)
Lemma C4_counterexample_error_message_is_never_set :
  exists a,
    Examples.firstAttempt
      (produced (runScenario2 Examples.unreachableEnv Examples.oneRunConfig
                              initialState))
    = Some a
    /\ AttemptResult.success a = false
    /\ AttemptResult.errorMessage a = None
    /\ AttemptResult.validationErrors a = [apiError Examples.networkError]
    /\ ~ (AttemptResult.errorMessage a <> None
          /\ AttemptResult.validationErrors a = []).
Proof.
  destruct (Examples.firstAttempt
              (produced (runScenario2 Examples.unreachableEnv
                                      Examples.oneRunConfig initialState)))
    as [a|] eqn:E; [| vm_compute in E; discriminate E].
  exists a. split; [reflexivity |].
  vm_compute in E. injection E as <-.
  repeat split. intros (H & _). now apply H.
Qed.

(** In scenario 1 a transport failure is not absorbed: when the first
    generator call of the scenario throws, the exception leaves the run and
    the scenario, and no run is produced. *)
Lemma nonStrict_transport_failure_leaves_scenario1
    (env : Env) (config : TestConfig) (st : State) (e : Exn) :
  0 < runsPerScenario config ->
  generateText env (length (calls st)) scenario1Base = inl e ->
  exists st', runScenario1 env config st = Throws e st'.
Proof.
  intros Hruns He. unfold runScenario1.
  destruct (runsPerScenario config) as [|n]; [lia |].
  cbn [runsLoop]. unfold bind at 1. unfold scenario1Run, oneShotRun.
  replace (maxRetries config + 1) with (S (maxRetries config)) by lia.
  cbn [scenario1Attempts].
  cbv beta iota zeta delta
      [bind newAttempts now readAttempts ret runNonStrictAttempt callGenerateText].
  cbn [calls attempts]. rewrite EngineFacts.scenario1Messages_first, He.
  eauto.
Qed.

(** * The rate chain on one-shot runs *)

Module SummaryFacts.

Import Storage.

Lemma percent_le (c1 c2 n : Z) :
  (0 < n)%Z -> (c1 <= c2)%Z -> (percent c1 n <= percent c2 n)%Q.
Proof.
  intros Hn Hc. unfold percent.
  apply Qmult_le_compat_r; [| discriminate].
  apply Qmult_le_compat_r; [now rewrite <- Zle_Qle |].
  apply Qinv_le_0_compat. change 0%Q with (inject_Z 0).
  rewrite <- Zle_Qle. lia.
Qed.

Lemma percent_nonneg (c n : Z) :
  (0 < n)%Z -> (0 <= c)%Z -> (0 <= percent c n)%Q.
Proof.
  intros Hn Hc. unfold percent.
  apply Qmult_le_0_compat; [| discriminate].
  apply Qmult_le_0_compat.
  - change 0%Q with (inject_Z 0). now rewrite <- Zle_Qle.
  - apply Qinv_le_0_compat. change 0%Q with (inject_Z 0).
    rewrite <- Zle_Qle. lia.
Qed.

Lemma countIf_disjoint {A} (p q : A -> bool) (l : list A) :
  (forall x, p x = true -> q x = false) ->
  (countIf p l + countIf q l)%Z = countIf (fun x => p x || q x) l.
Proof.
  intros Hd. induction l as [|x l IH].
  - reflexivity.
  - rewrite !StorageFacts.countIf_cons, <- IH.
    specialize (Hd x).
    destruct (p x), (q x); cbn [orb];
      first [lia | discriminate (Hd eq_refl)].
Qed.

Lemma afterTier_as_count (k : nat) (runs : list RunResult.t) :
  TierSpec.afterTier k runs
  = countIf (fun r => attemptSucceeds r 0 || TierSpec.addsTo k r) runs.
Proof.
  unfold TierSpec.afterTier, TierSpec.firstAttemptSuccesses.
  apply countIf_disjoint.
  intros r H. unfold TierSpec.addsTo. now rewrite H.
Qed.

Lemma addsTo_mono (k k' : nat) (r : RunResult.t) :
  k <= k' -> TierSpec.addsTo k r = true -> TierSpec.addsTo k' r = true.
Proof.
  unfold TierSpec.addsTo. intros Hk H.
  apply andb_true_iff in H. destruct H as (H0 & H).
  rewrite H0. cbn [andb].
  destruct (TierSpec.firstRetrySuccess r) as [i|]; [| discriminate].
  apply Nat.leb_le in H. apply Nat.leb_le. lia.
Qed.

(** The counts of the tiers grow with the tier, for every list of runs. *)
Lemma tiers_grow (runs : list RunResult.t) :
  (0 <= TierSpec.firstAttemptSuccesses runs
   /\ TierSpec.firstAttemptSuccesses runs <= TierSpec.afterTier 1 runs
   /\ TierSpec.afterTier 1 runs <= TierSpec.afterTier 2 runs
   /\ TierSpec.afterTier 2 runs <= TierSpec.afterTier 3 runs)%Z.
Proof.
  unfold TierSpec.afterTier.
  pose proof (StorageFacts.countIf_nonneg (TierSpec.addsTo 1) runs).
  assert (countIf (TierSpec.addsTo 1) runs <= countIf (TierSpec.addsTo 2) runs)%Z
    by (apply StorageFacts.countIf_mono; intros r _; apply addsTo_mono; lia).
  assert (countIf (TierSpec.addsTo 2) runs <= countIf (TierSpec.addsTo 3) runs)%Z
    by (apply StorageFacts.countIf_mono; intros r _; apply addsTo_mono; lia).
  unfold TierSpec.firstAttemptSuccesses.
  pose proof (StorageFacts.countIf_nonneg (fun r => attemptSucceeds r 0) runs).
  lia.
Qed.

(** In a one-shot run an attempt succeeds only when the run does. *)
Lemma shape_attempt_implies_run budget r i :
  OneShotShape budget r ->
  attemptSucceeds r i = true -> RunResult.success r = true.
Proof.
  intros (_ & [(Hs & _) | (_ & Hf & _)]) H; [exact Hs |].
  unfold attemptSucceeds in H.
  destruct (nth_error (RunResult.attempts r) i) as [a|] eqn:E; [| discriminate].
  rewrite Forall_forall in Hf.
  destruct (Hf a (nth_error_In _ _ E)) as (Hfail & _). congruence.
Qed.

(** With at most four attempts, a successful one-shot run is counted by
    the last tier. *)
Lemma shape_run_implies_tier budget r :
  budget <= 4 ->
  OneShotShape budget r ->
  RunResult.success r = true ->
  attemptSucceeds r 0 || TierSpec.addsTo 3 r = true.
Proof.
  intros Hb (Hlen & [(_ & init & a & Hatts & _ & Hsa) | (Hs & _)]) Hok;
    [| congruence].
  assert (Hi : attemptSucceeds r (length init) = true).
  { unfold attemptSucceeds. rewrite Hatts, nth_error_app2, Nat.sub_diag by lia.
    exact Hsa. }
  assert (Hl : length init <= 3).
  { rewrite Hatts, length_app in Hlen. simpl in Hlen. lia. }
  unfold TierSpec.addsTo, TierSpec.firstRetrySuccess. cbn [find].
  destruct (length init) as [|[|[|[|n]]]]; [| | | | lia];
    destruct (attemptSucceeds r 0), (attemptSucceeds r 1),
             (attemptSucceeds r 2), (attemptSucceeds r 3);
    try reflexivity; discriminate.
Qed.

(** The chain of rates holds for runs of the one-shot shape, and the last
    tier is the success rate when the budget is at most four attempts. *)
Lemma one_shot_rate_chain (budget : nat) (runs : list RunResult.t) :
  Forall (OneShotShape budget) runs ->
  RateChain (calculateScenarioSummary runs)
  /\ (budget <= 4 ->
      Summary.afterRetry3SuccessRate (calculateScenarioSummary runs)
      = Summary.successRate (calculateScenarioSummary runs)).
Proof.
  intros Hshape.
  destruct runs as [|r0 runs0] eqn:Eruns.
  { split; [| reflexivity]. unfold RateChain. cbn. repeat split; discriminate. }
  rewrite <- Eruns in *.
  assert (Hne : runs <> []) by (rewrite Eruns; discriminate).
  assert (Hn : (0 < Z.of_nat (length runs))%Z)
    by (rewrite Eruns; simpl length; lia).
  destruct (StorageFacts.summary_rates runs Hne) as (Hsucc & H0 & H1 & H2 & H3).
  cbv zeta in Hsucc, H0, H1, H2, H3.
  destruct (tiers_grow runs) as (G0 & G1 & G2 & G3).
  rewrite Forall_forall in Hshape.
  split.
  - unfold RateChain. rewrite H0, H1, H2, H3, Hsucc.
    repeat split; try (apply percent_le; assumption).
    + now apply percent_nonneg.
    + apply percent_le; [assumption |].
      rewrite afterTier_as_count. apply StorageFacts.countIf_mono.
      intros r Hr H. apply orb_true_iff in H. destruct H as [H | H].
      * eapply shape_attempt_implies_run; [apply Hshape, Hr | exact H].
      * unfold TierSpec.addsTo in H. apply andb_true_iff in H.
        destruct H as (_ & H). unfold TierSpec.firstRetrySuccess in H.
        destruct (find (attemptSucceeds r) [1; 2; 3]) as [i|] eqn:E;
          [| discriminate].
        apply find_some in E.
        eapply shape_attempt_implies_run; [apply Hshape, Hr | apply E].
  - intros Hb. rewrite H3, Hsucc. f_equal.
    apply Z.le_antisymm.
    + rewrite afterTier_as_count. apply StorageFacts.countIf_mono.
      intros r Hr H. apply orb_true_iff in H. destruct H as [H | H].
      * eapply shape_attempt_implies_run; [apply Hshape, Hr | exact H].
      * unfold TierSpec.addsTo in H. apply andb_true_iff in H.
        destruct H as (_ & H). unfold TierSpec.firstRetrySuccess in H.
        destruct (find (attemptSucceeds r) [1; 2; 3]) as [i|] eqn:E;
          [| discriminate].
        apply find_some in E.
        eapply shape_attempt_implies_run; [apply Hshape, Hr | apply E].
    + rewrite afterTier_as_count. apply StorageFacts.countIf_mono.
      intros r Hr H. eapply shape_run_implies_tier; eauto.
Qed.

End SummaryFacts.

(** On the runs of scenarios 1 and 2 the chain of rates holds, and with a
    retry budget of at most three retries the last tier is the success
    rate. *)
Lemma one_shot_scenarios_rate_chain (env : Env) (config : TestConfig) (st : State) :
  (RateChain (Storage.calculateScenarioSummary (produced (runScenario1 env config st)))
   /\ RateChain (Storage.calculateScenarioSummary
                   (produced (runScenario2 env config st))))
  /\ (maxRetries config <= 3 ->
      (let s := Storage.calculateScenarioSummary
                  (produced (runScenario1 env config st)) in
       Summary.afterRetry3SuccessRate s = Summary.successRate s)
      /\ (let s := Storage.calculateScenarioSummary
                     (produced (runScenario2 env config st)) in
          Summary.afterRetry3SuccessRate s = Summary.successRate s)).
Proof.
  destruct (SummaryFacts.one_shot_rate_chain _ _
              (EngineFacts.scenario1_runs_shape env config st)) as (Hchain1 & Hlast1).
  destruct (SummaryFacts.one_shot_rate_chain _ _
              (EngineFacts.scenario2_runs_shape env config st)) as (Hchain2 & Hlast2).
  split; [split; assumption |].
  intros Hb. split; cbv zeta; [apply Hlast1 | apply Hlast2]; lia.
Qed.

(** With the default configuration, whose retry budget is three retries, the
    last tier of scenarios 1 and 2 is their success rate. *)
Lemma default_budget_last_tier_is_success_rate (env : Env) (st : State) :
  (let s := Storage.calculateScenarioSummary
              (produced (runScenario1 env DEFAULT_CONFIG st)) in
   Summary.afterRetry3SuccessRate s = Summary.successRate s)
  /\ (let s := Storage.calculateScenarioSummary
                 (produced (runScenario2 env DEFAULT_CONFIG st)) in
      Summary.afterRetry3SuccessRate s = Summary.successRate s).
Proof.
  apply (proj2 (one_shot_scenarios_rate_chain env DEFAULT_CONFIG st)).
  cbn. lia.
Qed.

(** C1 at its failing input.  In the run of scenario 3 whose step 1 succeeds
    at its first attempt and whose step 2 fails four times, the run fails
    but its first recorded attempt succeeded: the summary reports a
    first-attempt rate and three tier rates of 100 against a success rate of
    0, so the chain of rates breaks at its last link and the last tier
    differs from the success rate. *)
Theorem C1_three_step_summary_breaks_rate_chain :
  let runs := produced (runScenario3 Examples.stepTwoFailsEnv Examples.oneRunConfig
                                     initialState) in
  let s := Storage.calculateScenarioSummary runs in
  map (fun r => (RunResult.success r,
                 map AttemptResult.success (RunResult.attempts r))) runs
  = [ (false, [true; false; false; false; false]) ]
  /\ Summary.firstAttemptSuccessRate s = 100%Q
  /\ Summary.afterRetry1SuccessRate s = 100%Q
  /\ Summary.afterRetry2SuccessRate s = 100%Q
  /\ Summary.afterRetry3SuccessRate s = 100%Q
  /\ Summary.successRate s = 0%Q
  /\ ~ (Summary.afterRetry3SuccessRate s <= Summary.successRate s)%Q
  /\ ~ RateChain s.
Proof.
  cbv zeta.
  split; [vm_compute; reflexivity |].
  split; [vm_compute; reflexivity |].
  split; [vm_compute; reflexivity |].
  split; [vm_compute; reflexivity |].
  split; [vm_compute; reflexivity |].
  split; [vm_compute; reflexivity |].
  split.
  - intros H. vm_compute in H. now apply H.
  - intros (_ & _ & _ & _ & H). vm_compute in H. now apply H.
Qed.

(** * Further properties of the aggregator *)

Module AggregateFacts.

Import Storage.

Lemma percent_full (n : Z) : (0 < n)%Z -> (percent n n == 100)%Q.
Proof.
  intros Hn. unfold percent. field.
  unfold Qeq. simpl. lia.
Qed.

Lemma percent_le_100 (c n : Z) :
  (0 < n)%Z -> (c <= n)%Z -> (percent c n <= 100)%Q.
Proof.
  intros Hn Hc. rewrite <- (percent_full n Hn).
  now apply SummaryFacts.percent_le.
Qed.

Lemma percent_lt (c1 c2 n : Z) :
  (0 < n)%Z -> (c1 < c2)%Z -> (percent c1 n < percent c2 n)%Q.
Proof.
  intros Hn Hc. unfold percent.
  apply Qmult_lt_compat_r; [reflexivity |].
  apply Qmult_lt_compat_r; [| now rewrite <- Zlt_Qlt].
  apply Qinv_lt_0_compat. change 0%Q with (inject_Z 0).
  rewrite <- Zlt_Qlt. lia.
Qed.

Lemma countIf_all {A} (p : A -> bool) (l : list A) :
  countIf p l = Z.of_nat (length l) <-> Forall (fun x => p x = true) l.
Proof.
  induction l as [|x l IH].
  - split; [constructor | reflexivity].
  - rewrite StorageFacts.countIf_cons. simpl length.
    pose proof (StorageFacts.countIf_le_length p l).
    split.
    + intros H'. destruct (p x) eqn:E; [| lia].
      constructor; [exact E | apply IH; lia].
    + intros H'. inversion H' as [|? ? Hx Hl]; subst.
      rewrite Hx. apply IH in Hl. lia.
Qed.

Lemma countIf_none {A} (p : A -> bool) (l : list A) :
  countIf p l = 0%Z <-> Forall (fun x => p x = false) l.
Proof.
  induction l as [|x l IH].
  - split; [constructor | reflexivity].
  - rewrite StorageFacts.countIf_cons.
    pose proof (StorageFacts.countIf_nonneg p l).
    split.
    + intros H'. destruct (p x) eqn:E; [lia |].
      constructor; [exact E | apply IH; lia].
    + intros H'. inversion H' as [|? ? Hx Hl]; subst.
      rewrite Hx. apply IH in Hl. lia.
Qed.

Lemma fold_left_permutation {A B} (f : A -> B -> A) (l l' : list B) :
  (forall a x y, f (f a x) y = f (f a y) x) ->
  Permutation l l' ->
  forall a, fold_left f l a = fold_left f l' a.
Proof.
  intros Hf Hp. induction Hp; intros a; cbn [fold_left].
  - reflexivity.
  - apply IHHp.
  - now rewrite Hf.
  - now rewrite IHHp1.
Qed.

Lemma countIf_permutation {A} (p : A -> bool) (l l' : list A) :
  Permutation l l' -> countIf p l = countIf p l'.
Proof.
  intros Hp. induction Hp.
  - reflexivity.
  - rewrite !StorageFacts.countIf_cons. lia.
  - rewrite !StorageFacts.countIf_cons. lia.
  - congruence.
Qed.

Lemma tierStep_comm (acc : Tiers) (r1 r2 : RunResult.t) :
  tierStep (tierStep acc r1) r2 = tierStep (tierStep acc r2) r1.
Proof.
  unfold tierStep.
  destruct (attemptSucceeds r1 0), (attemptSucceeds r1 1),
           (attemptSucceeds r1 2), (attemptSucceeds r1 3),
           (attemptSucceeds r2 0), (attemptSucceeds r2 1),
           (attemptSucceeds r2 2), (attemptSucceeds r2 3);
    cbn [afterRetry1 afterRetry2 afterRetry3]; reflexivity.
Qed.

End AggregateFacts.


(** X1.  Whatever the runs are, also those of the three-step scenarios, the
    first-attempt rate and the three tier rates of a summary are
    percentages in increasing order, and the success rate is a percentage:
    0 <= first <= tier 1 <= tier 2 <= tier 3 <= 100 and
    0 <= success rate <= 100. *)
Theorem X1_summary_rates_are_ordered_percentages (runs : list RunResult.t) :
  let s := Storage.calculateScenarioSummary runs in
  (0 <= Summary.firstAttemptSuccessRate s
   /\ Summary.firstAttemptSuccessRate s <= Summary.afterRetry1SuccessRate s
   /\ Summary.afterRetry1SuccessRate s <= Summary.afterRetry2SuccessRate s
   /\ Summary.afterRetry2SuccessRate s <= Summary.afterRetry3SuccessRate s
   /\ Summary.afterRetry3SuccessRate s <= 100
   /\ 0 <= Summary.successRate s
   /\ Summary.successRate s <= 100)%Q.
Proof.
  destruct runs as [|r0 runs0] eqn:Eruns.
  { cbn. repeat split; discriminate. }
  rewrite <- Eruns.
  assert (Hne : runs <> []) by (rewrite Eruns; discriminate).
  assert (Hn : (0 < Z.of_nat (length runs))%Z)
    by (rewrite Eruns; simpl length; lia).
  destruct (StorageFacts.summary_rates runs Hne) as (Hsucc & H0 & H1 & H2 & H3).
  cbv zeta in *. rewrite Hsucc, H0, H1, H2, H3.
  destruct (SummaryFacts.tiers_grow runs) as (G0 & G1 & G2 & G3).
  repeat split; try (apply SummaryFacts.percent_le; assumption).
  - now apply SummaryFacts.percent_nonneg.
  - apply AggregateFacts.percent_le_100; [assumption |].
    rewrite SummaryFacts.afterTier_as_count.
    apply StorageFacts.countIf_le_length.
  - apply SummaryFacts.percent_nonneg; [assumption |].
    apply StorageFacts.countIf_nonneg.
  - apply AggregateFacts.percent_le_100; [assumption |].
    apply StorageFacts.countIf_le_length.
Qed.

(** X2.  For a non-empty list of runs the success rate is 100 exactly when
    every run succeeded, and 0 exactly when no run did. *)
Theorem X2_success_rate_extremes (runs : list RunResult.t) :
  runs <> [] ->
  let s := Storage.calculateScenarioSummary runs in
  ((Summary.successRate s == 100)%Q
   <-> Forall (fun r => RunResult.success r = true) runs)
  /\ ((Summary.successRate s == 0)%Q
      <-> Forall (fun r => RunResult.success r = false) runs).
Proof.
  intros Hne.
  assert (Hn : (0 < Z.of_nat (length runs))%Z)
    by (destruct runs; [contradiction | simpl length; lia]).
  destruct (StorageFacts.summary_rates runs Hne) as (Hsucc & _).
  cbv zeta in *. rewrite Hsucc.
  pose proof (StorageFacts.countIf_le_length RunResult.success runs) as Hle.
  pose proof (StorageFacts.countIf_nonneg RunResult.success runs) as Hge.
  split; split.
  - intros H. apply AggregateFacts.countIf_all.
    destruct (Z.eq_dec (Storage.countIf RunResult.success runs)
                       (Z.of_nat (length runs))) as [E | E]; [exact E |].
    exfalso.
    assert (Hlt : (Storage.percent (Storage.countIf RunResult.success runs)
                                   (Z.of_nat (length runs))
                   < Storage.percent (Z.of_nat (length runs))
                                     (Z.of_nat (length runs)))%Q)
      by (apply AggregateFacts.percent_lt; lia).
    rewrite (AggregateFacts.percent_full _ Hn), H in Hlt.
    now apply Qlt_irrefl in Hlt.
  - intros H. apply AggregateFacts.countIf_all in H. rewrite H.
    now apply AggregateFacts.percent_full.
  - intros H. apply AggregateFacts.countIf_none.
    destruct (Z.eq_dec (Storage.countIf RunResult.success runs) 0) as [E | E];
      [exact E |].
    exfalso.
    assert (Hlt : (Storage.percent 0 (Z.of_nat (length runs))
                   < Storage.percent (Storage.countIf RunResult.success runs)
                                     (Z.of_nat (length runs)))%Q)
      by (apply AggregateFacts.percent_lt; lia).
    rewrite H in Hlt. unfold Storage.percent in Hlt.
    apply Qlt_not_le in Hlt. apply Hlt.
    unfold Qle. simpl. lia.
  - intros H. apply AggregateFacts.countIf_none in H. rewrite H.
    unfold Storage.percent, Qeq. simpl. lia.
Qed.

Lemma X2_success_rate_extremes_witness :
  let s := Storage.calculateScenarioSummary Examples.tokenTestRuns in
  ((Summary.successRate s == 100)%Q
   <-> Forall (fun r => RunResult.success r = true) Examples.tokenTestRuns)
  /\ ((Summary.successRate s == 0)%Q
      <-> Forall (fun r => RunResult.success r = false) Examples.tokenTestRuns).
Proof.
  apply (X2_success_rate_extremes Examples.tokenTestRuns). discriminate.
Defined.

(** X3.  The summary does not depend on the order of the runs: two lists
    holding the same runs in a different order have the same summary. *)
Theorem X3_summary_ignores_run_order (runs runs' : list RunResult.t) :
  Permutation runs runs' ->
  Storage.calculateScenarioSummary runs = Storage.calculateScenarioSummary runs'.
Proof.
  intros Hp. unfold Storage.calculateScenarioSummary.
  rewrite (Permutation_length Hp).
  rewrite !(AggregateFacts.countIf_permutation _ _ _ Hp).
  unfold Storage.tiers.
  rewrite (AggregateFacts.fold_left_permutation Storage.tierStep runs runs'
             AggregateFacts.tierStep_comm Hp).
  rewrite (AggregateFacts.fold_left_permutation
             (fun sum r => (sum + RunResult.totalDurationMs r)%Z) runs runs');
    [| intros; lia | exact Hp].
  rewrite (AggregateFacts.fold_left_permutation
             (fun sum r => (sum + Z.of_nat (length (RunResult.attempts r)))%Z)
             runs runs');
    [| intros; lia | exact Hp].
  rewrite (AggregateFacts.fold_left_permutation Storage.runTokens runs runs');
    [reflexivity | | exact Hp].
  intros a x y. unfold Storage.runTokens. lia.
Qed.

Lemma X3_summary_ignores_run_order_witness :
  Storage.calculateScenarioSummary Examples.tokenTestRuns
  = Storage.calculateScenarioSummary (rev Examples.tokenTestRuns).
Proof.
  apply (X3_summary_ignores_run_order Examples.tokenTestRuns
           (rev Examples.tokenTestRuns)).
  apply Permutation_rev.
Defined.

(** * The storage module *)

Module DiskFacts.

Import Disk.

Lemma get_set_same {V} (key : string) (value : V) (obj : Obj.t V) :
  Obj.get key (Obj.set key value obj) = Some value.
Proof.
  induction obj as [|[k v] obj IH]; cbn [Obj.set Obj.get].
  - now rewrite String.eqb_refl.
  - destruct (String.eqb k key) eqn:E; cbn [Obj.get]; rewrite E;
      [reflexivity | exact IH].
Qed.

Lemma get_set_other {V} (key key' : string) (value : V) (obj : Obj.t V) :
  key' <> key ->
  Obj.get key' (Obj.set key value obj) = Obj.get key' obj.
Proof.
  intros Hne. induction obj as [|[k v] obj IH]; cbn [Obj.set Obj.get].
  - destruct (String.eqb key key') eqn:E; [| reflexivity].
    apply String.eqb_eq in E. congruence.
  - destruct (String.eqb k key) eqn:E; cbn [Obj.get].
    + apply String.eqb_eq in E. subst k.
      destruct (String.eqb key key') eqn:E'; [| reflexivity].
      apply String.eqb_eq in E'. congruence.
    + destruct (String.eqb k key'); [reflexivity | exact IH].
Qed.

Lemma get_filter_same {V} (key : string) (obj : Obj.t V) :
  Obj.get key (filter (fun kv => negb (String.eqb (fst kv) key)) obj) = None.
Proof.
  induction obj as [|[k v] obj IH]; cbn [filter fst]; [reflexivity |].
  destruct (String.eqb k key) eqn:E; cbn [negb Obj.get]; [exact IH |].
  now rewrite E.
Qed.

(** What [findIndex] finds: the first element satisfying the test. *)
Lemma findIndex_none {A} (p : A -> bool) (l : list A) :
  findIndex p l = None -> find p l = None /\ Forall (fun x => p x = false) l.
Proof.
  induction l as [|x l IH]; cbn [findIndex find]; [now split |].
  destruct (p x) eqn:E; [discriminate |].
  destruct (findIndex p l); [discriminate |].
  intros _. destruct (IH eq_refl). split; [assumption | now constructor].
Qed.

Lemma findIndex_some {A} (p : A -> bool) (l : list A) (i : nat) :
  findIndex p l = Some i ->
  exists pre x post,
    l = (pre ++ x :: post)%list
    /\ length pre = i
    /\ p x = true
    /\ Forall (fun y => p y = false) pre
    /\ removeAt i l = (pre ++ post)%list
    /\ nth_error l i = Some x
    /\ find p l = Some x.
Proof.
  revert i. induction l as [|y l IH]; intros i; cbn [findIndex find];
    [discriminate |].
  destruct (p y) eqn:E.
  - intros H. injection H as <-.
    exists [], y, l. repeat split; auto.
  - destruct (findIndex p l) as [k|]; [| discriminate].
    cbn [option_map]. intros H. injection H as <-.
    destruct (IH k eq_refl) as (pre & x & post & -> & Hlen & Hx & Hpre & Hrm & Hnth & Hfind).
    exists (y :: pre), x, post. cbn [length app].
    repeat split; auto.
    unfold removeAt in *. rewrite <- Hlen in *.
    change (firstn (S (length pre)) (y :: pre ++ x :: post))
      with (y :: firstn (length pre) (pre ++ x :: post)).
    change (skipn (S (S (length pre))) (y :: pre ++ x :: post))
      with (skipn (S (length pre)) (pre ++ x :: post)).
    cbn [app]. now rewrite Hrm.
Qed.

Lemma find_app_none {A} (p : A -> bool) (pre post : list A) :
  Forall (fun y => p y = false) pre ->
  find p (pre ++ post) = find p post.
Proof.
  induction 1 as [|y pre Hy _ IH]; cbn [app find]; [reflexivity |].
  now rewrite Hy.
Qed.

Lemma filter_app_none {A} (p : A -> bool) (pre : list A) :
  Forall (fun y => p y = false) pre ->
  filter (fun y => negb (p y)) pre = pre.
Proof.
  induction 1 as [|y pre Hy _ IH]; cbn [filter]; [reflexivity |].
  now rewrite Hy, IH.
Qed.

(** The index written by [saveTestRun]. *)
Lemma saveTestRun_index (run : TestRunFile.t) (disk : t) :
  exists rest,
    loadIndex (saveTestRun run disk) = entryOf run :: rest
    /\ filter (fun e => negb (hasId (TestRunFile.id run) e)) rest
       = filter (fun e => negb (hasId (TestRunFile.id run) e)) (loadIndex disk)
    /\ (forall e, In e rest -> In e (loadIndex disk))
    /\ (NoDup (map IndexEntry.id (loadIndex disk)) ->
        NoDup (map IndexEntry.id rest)
        /\ ~ In (TestRunFile.id run) (map IndexEntry.id rest)).
Proof.
  unfold saveTestRun.
  change (loadIndex (writeFile (filenameOf run) (Json run) disk))
    with (loadIndex disk).
  destruct (findIndex (hasId (TestRunFile.id run)) (loadIndex disk)) as [i|] eqn:E.
  - destruct (findIndex_some _ _ _ E)
      as (pre & x & post & Hl & _ & Hx & Hpre & Hrm & _ & _).
    exists (removeAt i (loadIndex disk)). split; [reflexivity |].
    rewrite Hrm, Hl. split; [| split].
    + rewrite !filter_app. cbn [filter]. now rewrite Hx.
    + intros e He. apply in_app_or in He. apply in_or_app.
      destruct He; [now left | right; now right].
    + intros Hnd. rewrite map_app in *. cbn [map] in Hnd.
      split; [eapply NoDup_remove_1, Hnd |].
      apply NoDup_remove_2 in Hnd.
      unfold hasId in Hx. apply String.eqb_eq in Hx. now rewrite <- Hx.
  - destruct (findIndex_none _ _ E) as (_ & Hall).
    exists (loadIndex disk). split; [reflexivity |].
    split; [reflexivity |]. split; [auto |].
    intros Hnd. split; [exact Hnd |].
    intros Hin. apply in_map_iff in Hin. destruct Hin as (e & He & Hin).
    rewrite Forall_forall in Hall. specialize (Hall e Hin).
    unfold hasId in Hall. rewrite He, String.eqb_refl in Hall. discriminate.
Qed.

Lemma saveTestRun_files (run : TestRunFile.t) (disk : t) :
  resultFiles (saveTestRun run disk)
  = Obj.set (filenameOf run) (Json run) (resultFiles disk).
Proof.
  unfold saveTestRun.
  destruct (findIndex _ _); reflexivity.
Qed.

Lemma hasId_refl (run : TestRunFile.t) :
  hasId (TestRunFile.id run) (entryOf run) = true.
Proof. unfold hasId. cbn. apply String.eqb_refl. Qed.

Lemma find_filter_other (id id' : string) (l : list IndexEntry.t) :
  id' <> id ->
  find (hasId id') (filter (fun e => negb (hasId id e)) l) = find (hasId id') l.
Proof.
  intros Hne. induction l as [|e l IH]; cbn [filter find]; [reflexivity |].
  destruct (hasId id e) eqn:E; cbn [negb find].
  - destruct (hasId id' e) eqn:E'; [| exact IH].
    unfold hasId in *. apply String.eqb_eq in E, E'. congruence.
  - now rewrite IH.
Qed.

Lemma find_skips_filtered (id id' : string) (l : list IndexEntry.t) :
  id' <> id ->
  find (hasId id') l = find (hasId id') (filter (fun e => negb (hasId id e)) l).
Proof. intros. symmetry. now apply find_filter_other. Qed.

(** Looking up an identifier other than the saved one gives the same
    entry before and after the save. *)
Lemma saveTestRun_find_other (run : TestRunFile.t) (disk : t) (id' : string) :
  id' <> TestRunFile.id run ->
  find (hasId id') (loadIndex (saveTestRun run disk))
  = find (hasId id') (loadIndex disk).
Proof.
  intros Hne.
  destruct (saveTestRun_index run disk) as (rest & -> & Hfilter & _).
  cbn [find].
  replace (hasId id' (entryOf run)) with false.
  - rewrite (find_skips_filtered (TestRunFile.id run) id' rest Hne), Hfilter.
    now apply find_filter_other.
  - symmetry. unfold hasId. cbn. apply String.eqb_neq. congruence.
Qed.

Lemma countIf_app {A} (p : A -> bool) (l1 l2 : list A) :
  Storage.countIf p (l1 ++ l2)
  = (Storage.countIf p l1 + Storage.countIf p l2)%Z.
Proof.
  unfold Storage.countIf. rewrite filter_app, length_app. lia.
Qed.

Lemma countScenario_fold (srs : list ScenarioResult) (acc : Z * Z) :
  fold_left countScenario srs acc
  = ((fst acc + Z.of_nat (length (flat_map Engine.runs srs)))%Z,
     (snd acc + Storage.countIf RunResult.success (flat_map Engine.runs srs))%Z).
Proof.
  revert acc. induction srs as [|sr srs IH]; intros [total passed].
  - cbn. f_equal; lia.
  - cbn [fold_left flat_map]. rewrite IH. unfold countScenario. cbn [fst snd].
    rewrite length_app, countIf_app. f_equal; lia.
Qed.

Lemma counts_fold (models : list (Obj.t ScenarioResult)) (acc : Z * Z) :
  fold_left (fun acc modelResults =>
               fold_left countScenario (Obj.values modelResults) acc)
            models acc
  = ((fst acc
      + Z.of_nat (length (flat_map (fun m => flat_map Engine.runs (Obj.values m))
                                   models)))%Z,
     (snd acc
      + Storage.countIf RunResult.success
          (flat_map (fun m => flat_map Engine.runs (Obj.values m)) models))%Z).
Proof.
  revert acc. induction models as [|m models IH]; intros [total passed].
  - cbn. f_equal; lia.
  - cbn [fold_left flat_map]. rewrite IH, countScenario_fold. cbn [fst snd].
    rewrite length_app, countIf_app. f_equal; lia.
Qed.

End DiskFacts.


(** X4.  After [updateRunSummary] the summary of a stored test run counts
    every run of every scenario of every model: the total is the number of
    stored runs, [passed] the number of successful ones, [failed] the rest,
    and the success rate is a percentage, 0 when nothing is stored. *)
Theorem X4_run_summary_counts_all_runs (run : TestRunFile.t) :
  let s := TestRunFile.summary (Disk.updateRunSummary run) in
  TestRunSummary.totalTests s = Z.of_nat (length (Disk.allRuns run))
  /\ TestRunSummary.passed s
     = Storage.countIf RunResult.success (Disk.allRuns run)
  /\ (TestRunSummary.passed s + TestRunSummary.failed s
      = TestRunSummary.totalTests s)%Z
  /\ (0 <= TestRunSummary.passed s)%Z
  /\ (0 <= TestRunSummary.failed s)%Z
  /\ (0 <= TestRunSummary.successRate s)%Q
  /\ (TestRunSummary.successRate s <= 100)%Q
  /\ (Disk.allRuns run = [] -> TestRunSummary.successRate s = 0%Q).
Proof.
  unfold Disk.updateRunSummary. cbv zeta.
  cbn [TestRunFile.summary TestRunSummary.totalTests TestRunSummary.passed
       TestRunSummary.failed TestRunSummary.successRate].
  rewrite DiskFacts.counts_fold. cbn [fst snd]. fold (Disk.allRuns run).
  rewrite !Z.add_0_l.
  pose proof (StorageFacts.countIf_le_length RunResult.success (Disk.allRuns run)).
  pose proof (StorageFacts.countIf_nonneg RunResult.success (Disk.allRuns run)).
  repeat split; try lia.
  - destruct (0 <? Z.of_nat (length (Disk.allRuns run)))%Z eqn:E; [| discriminate].
    apply Z.ltb_lt in E. now apply SummaryFacts.percent_nonneg.
  - destruct (0 <? Z.of_nat (length (Disk.allRuns run)))%Z eqn:E; [| discriminate].
    apply Z.ltb_lt in E. now apply AggregateFacts.percent_le_100.
  - intros ->. reflexivity.
Qed.

(** X5.  A run that was saved is loaded back unchanged under its
    identifier, whatever result files and index entries the data directory
    held before, provided the index file was missing, could not be parsed,
    or held a [runs] array of index entries, which are the states of the
    index that [Disk.t] covers. *)
Theorem X5_saved_run_is_loaded_back (run : TestRunFile.t) (disk : Disk.t) :
  Disk.loadTestRun (TestRunFile.id run) (Disk.saveTestRun run disk) = Some run.
Proof.
  unfold Disk.loadTestRun.
  destruct (DiskFacts.saveTestRun_index run disk) as (rest & -> & _).
  cbn [find]. rewrite DiskFacts.hasId_refl.
  unfold Disk.readFile. rewrite DiskFacts.saveTestRun_files.
  change (IndexEntry.filename (Disk.entryOf run)) with (Disk.filenameOf run).
  now rewrite DiskFacts.get_set_same.
Qed.

(** X6.  Saving a run puts its entry at the head of the index, so that it
    is the first of the recent runs for every positive limit; the entries
    of the other identifiers are kept, in their order, and no entry is
    invented.  [listRecentRuns] returns at most [limit] entries. *)
Theorem X6_saved_run_heads_the_index (run : TestRunFile.t) (disk : Disk.t)
    (limit : nat) :
  let others := fun e => negb (Disk.hasId (TestRunFile.id run) e) in
  hd_error (Disk.listRecentRuns (S limit) (Disk.saveTestRun run disk))
  = Some (Disk.entryOf run)
  /\ filter others (tl (Disk.loadIndex (Disk.saveTestRun run disk)))
     = filter others (Disk.loadIndex disk)
  /\ incl (tl (Disk.loadIndex (Disk.saveTestRun run disk))) (Disk.loadIndex disk)
  /\ length (Disk.listRecentRuns limit disk) <= limit.
Proof.
  cbv zeta. unfold Disk.listRecentRuns.
  destruct (DiskFacts.saveTestRun_index run disk) as (rest & -> & Hf & Hin & _).
  cbn [firstn hd_error tl]. repeat split; auto.
  apply firstn_le_length.
Qed.

(** X7.  When the identifiers of the index are pairwise distinct they are
    still so after a save, also when the run saved was already in the
    index: its old entry is replaced, not duplicated. *)
Theorem X7_save_keeps_identifiers_distinct (run : TestRunFile.t) (disk : Disk.t) :
  NoDup (map IndexEntry.id (Disk.loadIndex disk)) ->
  NoDup (map IndexEntry.id (Disk.loadIndex (Disk.saveTestRun run disk)))
  /\ Storage.countIf (Disk.hasId (TestRunFile.id run))
                     (Disk.loadIndex (Disk.saveTestRun run disk)) = 1%Z.
Proof.
  intros Hnd.
  destruct (DiskFacts.saveTestRun_index run disk) as (rest & -> & _ & _ & Hrest).
  destruct (Hrest Hnd) as (Hnd' & Hnot).
  split.
  - cbn [map]. constructor; assumption.
  - rewrite StorageFacts.countIf_cons, DiskFacts.hasId_refl.
    assert (H0 : Storage.countIf (Disk.hasId (TestRunFile.id run)) rest = 0%Z).
    { apply AggregateFacts.countIf_none. apply Forall_forall. intros e He.
      unfold Disk.hasId. apply String.eqb_neq. intros Heq.
      apply Hnot. apply in_map_iff. now exists e. }
    lia.
Qed.

Lemma X7_save_keeps_identifiers_distinct_witness :
  NoDup (map IndexEntry.id
           (Disk.loadIndex (Disk.saveTestRun Fixtures.firstRun Fixtures.twoRunsDisk)))
  /\ Storage.countIf (Disk.hasId (TestRunFile.id Fixtures.firstRun))
       (Disk.loadIndex (Disk.saveTestRun Fixtures.firstRun Fixtures.twoRunsDisk))
     = 1%Z.
Proof.
  apply (X7_save_keeps_identifiers_distinct Fixtures.firstRun Fixtures.twoRunsDisk).
  vm_compute. repeat constructor; cbn; intuition discriminate.
Defined.


(** X9.  When the identifiers of the index are pairwise distinct, a run
    that was deleted can no longer be loaded, and the identifiers stay
    distinct. *)
Theorem X9_deleted_run_is_gone (id : string) (disk : Disk.t) :
  NoDup (map IndexEntry.id (Disk.loadIndex disk)) ->
  Disk.loadTestRun id (snd (Disk.deleteTestRun id disk)) = None
  /\ NoDup (map IndexEntry.id (Disk.loadIndex (snd (Disk.deleteTestRun id disk)))).
Proof.
  intros Hnd. unfold Disk.deleteTestRun.
  destruct (Disk.findIndex (Disk.hasId id) (Disk.loadIndex disk)) as [i|] eqn:E.
  - destruct (DiskFacts.findIndex_some _ _ _ E)
      as (pre & x & post & Hl & _ & Hx & Hpre & Hrm & Hnth & _).
    rewrite Hnth. cbn [snd]. unfold Disk.loadTestRun.
    change (Disk.loadIndex (Disk.saveIndex ?runs ?d)) with runs.
    rewrite Hrm. rewrite Hl, map_app in Hnd. cbn [map] in Hnd.
    split; [| rewrite map_app; eapply NoDup_remove_1, Hnd].
    rewrite (DiskFacts.find_app_none _ _ _ Hpre).
    destruct (find (Disk.hasId id) post) as [e|] eqn:F; [| reflexivity].
    exfalso. apply find_some in F. destruct F as (Hin & He).
    apply NoDup_remove_2 in Hnd. apply Hnd.
    apply in_or_app. right. apply in_map_iff. exists e.
    unfold Disk.hasId in *. apply String.eqb_eq in Hx, He.
    split; [congruence | exact Hin].
  - destruct (DiskFacts.findIndex_none _ _ E) as (Hf & _).
    cbn [snd]. split; [| exact Hnd].
    unfold Disk.loadTestRun. now rewrite Hf.
Qed.

Lemma X9_deleted_run_is_gone_witness :
  Disk.loadTestRun "run-1" (snd (Disk.deleteTestRun "run-1" Fixtures.twoRunsDisk))
  = None
  /\ NoDup (map IndexEntry.id
              (Disk.loadIndex (snd (Disk.deleteTestRun "run-1" Fixtures.twoRunsDisk)))).
Proof.
  apply (X9_deleted_run_is_gone "run-1" Fixtures.twoRunsDisk).
  vm_compute. repeat constructor; cbn; intuition discriminate.
Defined.

(** X10.  The file of a run is named after its time stamp alone.  When two
    runs with different identifiers have the same file name, saving the
    second overwrites the file of the first: loading the first identifier
    then returns the second run. *)
Theorem X10_equal_time_stamps_share_a_file (r1 r2 : TestRunFile.t) (disk : Disk.t) :
  Disk.filenameOf r1 = Disk.filenameOf r2 ->
  TestRunFile.id r1 <> TestRunFile.id r2 ->
  Disk.loadTestRun (TestRunFile.id r1)
                   (Disk.saveTestRun r2 (Disk.saveTestRun r1 disk))
  = Some r2.
Proof.
  intros Hname Hid. unfold Disk.loadTestRun.
  rewrite DiskFacts.saveTestRun_find_other by exact Hid.
  destruct (DiskFacts.saveTestRun_index r1 disk) as (rest & -> & _).
  cbn [find]. rewrite DiskFacts.hasId_refl.
  unfold Disk.readFile. rewrite DiskFacts.saveTestRun_files.
  change (IndexEntry.filename (Disk.entryOf r1)) with (Disk.filenameOf r1).
  rewrite Hname. now rewrite DiskFacts.get_set_same.
Qed.

Lemma X10_equal_time_stamps_share_a_file_witness :
  Disk.loadTestRun (TestRunFile.id Fixtures.firstRun)
    (Disk.saveTestRun Fixtures.clashingRun
       (Disk.saveTestRun Fixtures.firstRun Disk.empty))
  = Some Fixtures.clashingRun.
Proof.
  apply (X10_equal_time_stamps_share_a_file Fixtures.firstRun Fixtures.clashingRun
           Disk.empty).
  - reflexivity.
  - discriminate.
Defined.

(** X11.  Saving a run leaves every other stored run as it was, provided
    the other run has another identifier and its file another name. *)
Theorem X11_save_leaves_other_runs (run : TestRunFile.t) (disk : Disk.t)
    (id' : string) (entry : IndexEntry.t) :
  id' <> TestRunFile.id run ->
  find (Disk.hasId id') (Disk.loadIndex disk) = Some entry ->
  IndexEntry.filename entry <> Disk.filenameOf run ->
  Disk.loadTestRun id' (Disk.saveTestRun run disk) = Disk.loadTestRun id' disk.
Proof.
  intros Hid Hfind Hname. unfold Disk.loadTestRun.
  rewrite DiskFacts.saveTestRun_find_other by exact Hid.
  rewrite Hfind. unfold Disk.readFile.
  rewrite DiskFacts.saveTestRun_files.
  now rewrite DiskFacts.get_set_other.
Qed.

Lemma X11_save_leaves_other_runs_witness :
  Disk.loadTestRun "run-1" (Disk.saveTestRun Fixtures.secondRun
                              (Disk.saveTestRun Fixtures.firstRun Disk.empty))
  = Disk.loadTestRun "run-1" (Disk.saveTestRun Fixtures.firstRun Disk.empty).
Proof.
  apply (X11_save_leaves_other_runs Fixtures.secondRun
           (Disk.saveTestRun Fixtures.firstRun Disk.empty)
           "run-1" (Disk.entryOf Fixtures.firstRun)).
  - discriminate.
  - reflexivity.
  - discriminate.
Defined.

(** * [extractJson] and the schemas *)

Module ExtractFacts.

Import Prompts.

Lemma list_ascii_append (a b : string) :
  list_ascii_of_string (a ++ b)
  = (list_ascii_of_string a ++ list_ascii_of_string b)%list.
Proof.
  induction a as [|c a IH]; cbn; [reflexivity | now rewrite IH].
Qed.

Lemma string_of_list_app (l1 l2 : list ascii) :
  string_of_list_ascii (l1 ++ l2)
  = string_of_list_ascii l1 ++ string_of_list_ascii l2.
Proof.
  induction l1 as [|c l1 IH]; cbn; [reflexivity | now rewrite IH].
Qed.

Lemma reverse_involutive (s : string) : reverse (reverse s) = s.
Proof.
  unfold reverse.
  now rewrite list_ascii_of_string_of_list_ascii, rev_involutive,
    string_of_list_ascii_of_string.
Qed.

Lemma reverse_append (a b : string) :
  reverse (a ++ b) = reverse b ++ reverse a.
Proof.
  unfold reverse. now rewrite list_ascii_append, rev_app_distr, string_of_list_app.
Qed.

Lemma trimStart_length (s : string) :
  String.length (trimStart s) <= String.length s.
Proof.
  induction s as [|c s IH]; cbn [trimStart]; [lia |].
  destruct (isWhiteSpace c); cbn [String.length]; lia.
Qed.

(** A string without leading white space. *)
Lemma trimStart_fixed_head (c : ascii) (s : string) :
  trimStart (String c s) = String c s <-> isWhiteSpace c = false.
Proof.
  cbn [trimStart]. destruct (isWhiteSpace c); split; intros H;
    try reflexivity; try discriminate.
  pose proof (trimStart_length s) as Hl. rewrite H in Hl. cbn in Hl. lia.
Qed.

Lemma trimStart_idempotent (s : string) :
  trimStart (trimStart s) = trimStart s.
Proof.
  induction s as [|c s IH]; [reflexivity |].
  cbn [trimStart]. destruct (isWhiteSpace c) eqn:E; [exact IH |].
  cbn [trimStart]. now rewrite E.
Qed.

(** [trimStart] removes a prefix. *)
Lemma trimStart_suffix (s : string) :
  exists w, s = w ++ trimStart s.
Proof.
  induction s as [|c s (w & IH)].
  - now exists EmptyString.
  - cbn [trimStart]. destruct (isWhiteSpace c).
    + exists (String c w). cbn. now rewrite <- IH.
    + now exists EmptyString.
Qed.

Lemma trimStart_prefix_fixed (a b : string) :
  trimStart (a ++ b) = a ++ b -> trimStart a = a.
Proof.
  destruct a as [|c a]; [reflexivity |].
  cbn [append]. intros H. apply trimStart_fixed_head in H.
  now apply trimStart_fixed_head.
Qed.

(** The result of [trim] has no white space at either end. *)
Lemma trim_clean (s : string) :
  trimStart (trim s) = trim s /\ trimStart (reverse (trim s)) = reverse (trim s).
Proof.
  unfold trim.
  set (u := trimStart s).
  assert (Hu : trimStart u = u) by apply trimStart_idempotent.
  set (v := trimStart (reverse u)).
  assert (Hv : trimStart v = v) by apply trimStart_idempotent.
  rewrite reverse_involutive. split; [| exact Hv].
  destruct (trimStart_suffix (reverse u)) as (w & Hw). fold v in Hw.
  assert (Hu' : u = reverse v ++ reverse w)
    by (rewrite <- reverse_append, <- Hw; symmetry; apply reverse_involutive).
  rewrite Hu' in Hu. eapply trimStart_prefix_fixed, Hu.
Qed.

Lemma trim_fixed (s : string) :
  trimStart s = s -> trimStart (reverse s) = reverse s -> trim s = s.
Proof.
  intros H1 H2. unfold trim. rewrite H1, H2. apply reverse_involutive.
Qed.

Lemma trim_idempotent (s : string) : trim (trim s) = trim s.
Proof.
  destruct (trim_clean s). now apply trim_fixed.
Qed.

Lemma trimStart_append (a b : string) :
  trimStart a <> EmptyString -> trimStart (a ++ b) = trimStart a ++ b.
Proof.
  induction a as [|c a IH]; cbn [trimStart append]; [congruence |].
  destruct (isWhiteSpace c); [exact IH | reflexivity].
Qed.

Lemma trimStart_blank (a b : string) :
  trimStart a = EmptyString -> trimStart (a ++ b) = trimStart b.
Proof.
  induction a as [|c a IH]; cbn [trimStart append]; [reflexivity |].
  destruct (isWhiteSpace c); [exact IH | discriminate].
Qed.

Lemma reverse_empty (s : string) : reverse s = EmptyString -> s = EmptyString.
Proof.
  intros H. rewrite <- (reverse_involutive s), H. reflexivity.
Qed.

Lemma trimStart_blank_iff (s : string) :
  trimStart s = EmptyString
  <-> Forall (fun c => isWhiteSpace c = true) (list_ascii_of_string s).
Proof.
  induction s as [|c s IH]; cbn [trimStart list_ascii_of_string].
  - split; [constructor | reflexivity].
  - destruct (isWhiteSpace c) eqn:E.
    + rewrite IH. split; [now constructor | now inversion 1].
    + split; [discriminate |]. inversion 1; congruence.
Qed.

Lemma blank_reverse (s : string) :
  trimStart (reverse s) = EmptyString -> trimStart s = EmptyString.
Proof.
  rewrite !trimStart_blank_iff. unfold reverse.
  rewrite list_ascii_of_string_of_list_ascii. intros H.
  apply Forall_rev in H. now rewrite rev_involutive in H.
Qed.

(** White space around a text does not change what [trim] gives. *)
Lemma trim_padded (w1 w2 body : string) :
  trimStart w1 = EmptyString -> trimStart (reverse w2) = EmptyString ->
  trim (w1 ++ body ++ w2) = trim body.
Proof.
  intros H1 H2. unfold trim. rewrite (trimStart_blank _ _ H1).
  destruct (trimStart body) as [|c tb] eqn:E.
  - rewrite (trimStart_blank _ _ E), (blank_reverse _ H2). reflexivity.
  - rewrite trimStart_append by congruence. rewrite E.
    rewrite reverse_append. now rewrite (trimStart_blank _ _ H2).
Qed.

Lemma startsWith_self_append (a b : string) : Str.startsWith (a ++ b) a = true.
Proof.
  induction a as [|c a IH]; cbn [append Str.startsWith]; [now destruct b |].
  now rewrite Ascii.eqb_refl.
Qed.

Lemma drop_append (a b : string) : drop (String.length a) (a ++ b) = b.
Proof.
  induction a as [|c a IH]; cbn [append String.length drop];
    [now destruct b | exact IH].
Qed.

Lemma endsWith_append (a b : string) : endsWith (a ++ b) b = true.
Proof.
  unfold endsWith. rewrite reverse_append. apply startsWith_self_append.
Qed.

Lemma reverse_length (s : string) : String.length (reverse s) = String.length s.
Proof.
  unfold reverse.
  rewrite <- (string_of_list_ascii_of_string s) at 2.
  generalize (list_ascii_of_string s). intros l.
  assert (H : forall l', String.length (string_of_list_ascii l') = length l')
    by (induction l'; cbn; congruence).
  now rewrite !H, length_rev.
Qed.

Lemma dropEnd_append (a b : string) : dropEnd (String.length b) (a ++ b) = a.
Proof.
  unfold dropEnd. rewrite reverse_append, <- (reverse_length b), drop_append.
  apply reverse_involutive.
Qed.

End ExtractFacts.


(** X12.  What [extractJson] returns has no white space at either end:
    trimming it again changes nothing. *)
Theorem X12_extracted_json_is_trimmed (text : string) :
  Prompts.trim (Prompts.extractJson text) = Prompts.extractJson text.
Proof.
  unfold Prompts.extractJson. cbv zeta. apply ExtractFacts.trim_idempotent.
Qed.

(** X13.  A body wrapped in a Markdown code fence, with or without the
    [json] tag and each fence on a line of its own, is recovered: the
    result is the body without the white space around it. *)
Theorem X13_fenced_json_is_unwrapped (body : string) :
  Prompts.extractJson ("```json" ++ Str.nl ++ body ++ Str.nl ++ "```")
  = Prompts.trim body
  /\ Prompts.extractJson ("```" ++ Str.nl ++ body ++ Str.nl ++ "```")
     = Prompts.trim body.
Proof.
  assert (Hfence : forall tag,
             Prompts.trimStart (tag ++ Str.nl ++ body ++ Str.nl ++ "```")
             = tag ++ Str.nl ++ body ++ Str.nl ++ "```" ->
             Prompts.trim (tag ++ Str.nl ++ body ++ Str.nl ++ "```")
             = tag ++ Str.nl ++ body ++ Str.nl ++ "```").
  { intros tag Hhead. apply ExtractFacts.trim_fixed; [exact Hhead |].
    rewrite <- !StrFacts.append_assoc.
    rewrite (ExtractFacts.reverse_append _ "```"). reflexivity. }
  assert (Hrest : forall cleaned,
             cleaned = Str.nl ++ body ++ Str.nl ++ "```" ->
             Prompts.trim (if Prompts.endsWith cleaned "```"
                           then Prompts.dropEnd 3 cleaned else cleaned)
             = Prompts.trim body).
  { intros cleaned ->.
    replace (Str.nl ++ body ++ Str.nl ++ "```")
      with ((Str.nl ++ body ++ Str.nl) ++ "```")
      by now rewrite !StrFacts.append_assoc.
    rewrite ExtractFacts.endsWith_append.
    rewrite (ExtractFacts.dropEnd_append _ "```").
    apply ExtractFacts.trim_padded; reflexivity. }
  split; unfold Prompts.extractJson; cbv zeta.
  - rewrite (Hfence "```json" eq_refl).
    change ("```json" ++ Str.nl ++ body ++ Str.nl ++ "```")
      with ("```json" ++ (Str.nl ++ body ++ Str.nl ++ "```")).
    rewrite ExtractFacts.startsWith_self_append.
    rewrite (ExtractFacts.drop_append "```json").
    now apply Hrest.
  - rewrite (Hfence "```" eq_refl).
    replace (Str.startsWith ("```" ++ Str.nl ++ body ++ Str.nl ++ "```") "```json")
      with false by reflexivity.
    change ("```" ++ Str.nl ++ body ++ Str.nl ++ "```")
      with ("```" ++ (Str.nl ++ body ++ Str.nl ++ "```")).
    rewrite ExtractFacts.startsWith_self_append.
    rewrite (ExtractFacts.drop_append "```").
    now apply Hrest.
Qed.

(** X14.  The three step schemas split the response schema exactly: the
    merge of three step outputs is accepted by the response schema if and
    only if the output of step 1 is accepted by its schema and either its
    action is null or the outputs of steps 2 and 3 are accepted by theirs. *)
Theorem X14_merge_validates_iff_parts_do
    (p1 : SequentialPart1.t) (p2 : SequentialPart2.t) (p3 : SequentialPart3.t) :
  schemaIssues ResponseSchema (mergeSequentialParts p1 p2 p3) = []
  <-> schemaIssues SequentialPart1Schema p1 = []
      /\ (SequentialPart1.action p1 = None
          \/ (schemaIssues SequentialPart2Schema p2 = []
              /\ schemaIssues SequentialPart3Schema p3 = [])).
Proof.
  unfold mergeSequentialParts.
  cbn [schemaIssues Response.recommendation Response.action].
  destruct (SequentialPart1.action p1) as [[]|].
  - unfold actorIssues, tooSmall.
    cbn [Action.actor Actor.title Actor.reason Actor.prompt].
    destruct (20 <=? String.length (SequentialPart1.recommendation p1))%nat,
             (2 <=? String.length (SequentialPart2.title p2))%nat,
             (20 <=? String.length (SequentialPart2.reason p2))%nat,
             (30 <=? String.length (SequentialPart3.prompt p3))%nat;
      cbn [app]; split;
      first [ intros H; discriminate H
            | intros (H1 & [H2 | (H2 & H3)]); discriminate
            | intros _; split; [reflexivity | right; split; reflexivity]
            | intros _; reflexivity ].
  - rewrite app_nil_r. split; [intros H; split; [exact H | now left] | tauto].
Qed.

(** * The attempt records *)

Module RecordFacts.

Import Records.
Local Open Scope engine_scope.

Section Loops.

Variable env : Env.
Variable exec : Executor.
Hypothesis exec_ok : ExecFacts exec.
Variable stampFirst : bool.
Variable next : list Message -> AttemptResult.t -> list Message.

(** Every record pushed by the common loop comes from the executor call of
    its iteration. *)
Lemma retryLoop_records s remaining :
  forall attempt messages st,
  exists atts,
    attempts (finalState
                (retryLoop env exec stampFirst next s remaining attempt messages st))
    = (attempts st ++ atts)%list
    /\ LoopRecords env exec next s attempt messages atts.
Proof.
  induction remaining as [|remaining IH]; intros attempt messages st.
  - exists []. cbn. rewrite app_nil_r. split; [reflexivity |].
    intros j a H. now destruct j.
  - rewrite EngineFacts.retryLoop_step.
    destruct (exec_ok s messages (tick st)) as (c & _ & Hst & _).
    destruct (exec s messages (tick st)) as [result st2 | e st2] eqn:Hexec;
      cbn [finalState] in Hst.
    + cbv zeta.
      set (recorded := recordedIn env stampFirst s attempt messages st st2 result).
      assert (Hrec : RecordOf env exec s attempt messages recorded)
        by (exists stampFirst, st, st2, result; split; [exact Hexec | reflexivity]).
      assert (Hatts : attempts st2 = attempts st) by (rewrite Hst; reflexivity).
      destruct (success result).
      * exists [recorded]. cbn [finalState attempts]. rewrite Hatts.
        split; [reflexivity |].
        intros [|j] a H; [| now destruct j].
        injection H as <-. cbn [firstn fold_left].
        now rewrite Nat.add_0_r.
      * match goal with
        | |- context [retryLoop _ _ _ _ _ _ ?a ?m ?st'] =>
            destruct (IH a m st') as (atts & Ha & Hrecs)
        end.
        cbn [attempts] in Ha.
        exists (recorded :: atts). rewrite Ha, Hatts, <- app_assoc.
        split; [reflexivity |].
        intros [|j] a H.
        -- injection H as <-. cbn [firstn fold_left].
           now rewrite Nat.add_0_r.
        -- cbn [nth_error] in H. cbn [firstn fold_left].
           rewrite Nat.add_succ_r. now apply Hrecs.
    + exists []. cbn [finalState]. rewrite Hst, app_nil_r.
      split; [reflexivity |]. intros j a H. now destruct j.
Qed.

End Loops.

Section Steps.

Variable env : Env.
Variable exec : Executor.
Hypothesis exec_ok : ExecFacts exec.
Variable next : list Message -> AttemptResult.t -> list Message.

(** The step loop with its trace and its records together. *)
Lemma step_records s remaining messages st :
  exists res atts cs,
    StepRecords env exec next remaining s messages res atts cs
    /\ attempts (finalState (stepVia env exec next s remaining 1 messages st))
       = (attempts st ++ atts)%list
    /\ calls (finalState (stepVia env exec next s remaining 1 messages st))
       = (calls st ++ cs)%list
    /\ match stepVia env exec next s remaining 1 messages st with
       | Returns v _ => v = res
       | Throws _ _ => res = None
       end.
Proof.
  destruct (EngineFacts.retryLoop_facts env exec exec_ok true next s remaining
              1 messages st)
    as (atts & cs & Ha & Hc & Hlen & Hmsg & Hshape).
  assert (Hrecs : LoopRecords env exec next s 1 messages atts).
  { destruct (retryLoop_records env exec exec_ok true next s remaining 1 messages st)
      as (atts' & Ha' & Hr).
    rewrite Ha in Ha'. apply app_inv_head in Ha'. now subst atts'. }
  assert (Hnever : NeverThrows exec -> length cs = length atts).
  { intros Hn.
    destruct (EngineFacts.retryLoop_returns env exec true next s remaining Hn
                1 messages st) as (v & st' & Hret).
    rewrite Hret in Hshape. destruct v as [r|].
    - now destruct Hshape as (_ & Hl & _).
    - now destruct Hshape as (_ & _ & Hl). }
  unfold stepVia, bind.
  destruct (retryLoop env exec true next s remaining 1 messages st)
    as [[r|] st1 | e st1]; cbn [finalState ret stepOutcome] in *.
  - destruct Hshape as (Hr & Hl & init & a & d & Hatts & Hi & Hs & Hd & Hp).
    exists (Some d), atts, cs.
    assert (0 < length atts)
      by (rewrite Hatts, length_app; simpl; lia).
    split; [| auto].
    split; [| split; assumption].
    unfold StepFacts. repeat split; auto; try lia.
    exists init, a. auto.
  - destruct Hshape as (Hf & Hl & Hl').
    exists None, atts, cs. split; [| auto].
    split; [| split; assumption].
    unfold StepFacts. repeat split; auto; lia.
  - destruct Hshape as (Hf & Hl).
    exists None, atts, cs. split; [| auto].
    split; [| split; assumption].
    unfold StepFacts. repeat split; auto; lia.
Qed.

End Steps.

Section Runs.

Variable env : Env.
Variable config : TestConfig.

(** The walk through a three-step run, for any description [F] of its
    step loops. *)
Lemma sequentialRun_via
    (F : forall s : SchemaId,
        list Message -> option (dataOf s) -> list AttemptResult.t -> list Call -> Prop)
    (step : forall s : SchemaId,
        nat -> nat -> list Message -> M (option (dataOf s))) :
  (forall s messages st,
      exists res atts cs,
        F s messages res atts cs
        /\ attempts (finalState (step s (maxRetries config + 1) 1 messages st))
           = (attempts st ++ atts)%list
        /\ calls (finalState (step s (maxRetries config + 1) 1 messages st))
           = (calls st ++ cs)%list
        /\ match step s (maxRetries config + 1) 1 messages st with
           | Returns v _ => v = res
           | Throws _ _ => res = None
           end) ->
  forall p1 p2 p3 runNum st,
  exists r st' cs,
    sequentialRun env config step p1 p2 p3 runNum st = Returns r st'
    /\ calls st' = (calls st ++ cs)%list
    /\ RunResult.runNumber r = runNum
    /\ SequentialVia F env p1 p2 p3 r cs.
Proof.
  intros Hstep p1 p2 p3 runNum st.
  unfold sequentialRun.
  cbv beta iota zeta delta
      [bind tryCatch newAttempts now readAttempts ret orThrow throw parseMerged].
  match goal with
  | |- context [step ?s ?n ?a ?m ?st0] =>
      destruct (Hstep s m st0)
        as (res1 & atts1 & cs1 & F1 & A1 & K1 & R1);
      destruct (step s n a m st0) as [v1 st1 | e1 st1]
  end;
    cbn [finalState attempts calls app] in A1, K1.
  2: { subst res1.
       eexists _, _, cs1. split; [reflexivity |]. split; [exact K1 |]. split; [reflexivity |].
       exists None, atts1, cs1. split; [exact F1 |].
       cbn [RunResult.attempts RunResult.success RunResult.finalResponse
            fst snd attempts].
       auto. }
  subst v1. destruct res1 as [d1|].
  2: { eexists _, _, cs1. split; [reflexivity |]. split; [exact K1 |]. split; [reflexivity |].
       exists None, atts1, cs1. split; [exact F1 |].
       cbn [RunResult.attempts RunResult.success RunResult.finalResponse
            fst snd attempts].
       auto. }
  match goal with
  | |- context [step ?s ?n ?a ?m st1] =>
      destruct (Hstep s m st1)
        as (res2 & atts2 & cs2 & F2 & A2 & K2 & R2);
      destruct (step s n a m st1) as [v2 st2 | e2 st2]
  end;
    cbn [finalState] in A2, K2; rewrite A1 in A2; rewrite K1 in K2;
    rewrite <- app_assoc in K2.
  2: { subst res2.
       eexists _, _, (cs1 ++ cs2)%list. split; [reflexivity |].
       split; [exact K2 |]. split; [reflexivity |].
       exists (Some d1), atts1, cs1. split; [exact F1 |].
       exists None, atts2, cs2. split; [exact F2 |].
       cbn [RunResult.attempts RunResult.success RunResult.finalResponse
            fst snd attempts].
       auto. }
  subst v2. destruct res2 as [d2|].
  2: { eexists _, _, (cs1 ++ cs2)%list. split; [reflexivity |].
       split; [exact K2 |]. split; [reflexivity |].
       exists (Some d1), atts1, cs1. split; [exact F1 |].
       exists None, atts2, cs2. split; [exact F2 |].
       cbn [RunResult.attempts RunResult.success RunResult.finalResponse
            fst snd attempts].
       auto. }
  match goal with
  | |- context [step ?s ?n ?a ?m st2] =>
      destruct (Hstep s m st2)
        as (res3 & atts3 & cs3 & F3 & A3 & K3 & R3);
      destruct (step s n a m st2) as [v3 st3 | e3 st3]
  end;
    cbn [finalState] in A3, K3; rewrite A2 in A3; rewrite K2 in K3;
    rewrite <- !app_assoc in A3; rewrite <- !app_assoc in K3.
  2: { subst res3.
       eexists _, _, (cs1 ++ cs2 ++ cs3)%list. split; [reflexivity |].
       split; [exact K3 |]. split; [reflexivity |].
       exists (Some d1), atts1, cs1. split; [exact F1 |].
       exists (Some d2), atts2, cs2. split; [exact F2 |].
       exists None, atts3, cs3. split; [exact F3 |].
       cbn [RunResult.attempts RunResult.success RunResult.finalResponse
            fst snd attempts].
       auto. }
  subst v3. destruct res3 as [d3|].
  2: { eexists _, _, (cs1 ++ cs2 ++ cs3)%list. split; [reflexivity |].
       split; [exact K3 |]. split; [reflexivity |].
       exists (Some d1), atts1, cs1. split; [exact F1 |].
       exists (Some d2), atts2, cs2. split; [exact F2 |].
       exists None, atts3, cs3. split; [exact F3 |].
       cbn [RunResult.attempts RunResult.success RunResult.finalResponse
            fst snd attempts].
       auto. }
  destruct (schemaIssues ResponseSchema (mergeSequentialParts d1 d2 d3))
    as [|issue issues] eqn:Hissues.
  - eexists _, _, (cs1 ++ cs2 ++ cs3)%list. split; [reflexivity |].
    split; [exact K3 |]. split; [reflexivity |].
    exists (Some d1), atts1, cs1. split; [exact F1 |].
    exists (Some d2), atts2, cs2. split; [exact F2 |].
    exists (Some d3), atts3, cs3. split; [exact F3 |].
    cbn [RunResult.attempts RunResult.success RunResult.finalResponse
         fst snd attempts].
    cbv zeta. rewrite Hissues. auto.
  - eexists _, _, (cs1 ++ cs2 ++ cs3)%list. split; [reflexivity |].
    split; [exact K3 |]. split; [reflexivity |].
    exists (Some d1), atts1, cs1. split; [exact F1 |].
    exists (Some d2), atts2, cs2. split; [exact F2 |].
    exists (Some d3), atts3, cs3. split; [exact F3 |].
    cbn [RunResult.attempts RunResult.success RunResult.finalResponse
         fst snd attempts].
    cbv zeta. rewrite Hissues. auto.
Qed.


Lemma sequentialRun_records (exec : Executor) (exec_ok : ExecFacts exec)
    (next : list Message -> AttemptResult.t -> list Message)
    (step : forall s : SchemaId,
        nat -> nat -> list Message -> M (option (dataOf s))) :
  (forall s remaining attempt messages st,
      step s remaining attempt messages st
      = stepVia env exec next s remaining attempt messages st) ->
  forall p1 p2 p3 runNum st,
  exists r st' cs,
    sequentialRun env config step p1 p2 p3 runNum st = Returns r st'
    /\ calls st' = (calls st ++ cs)%list
    /\ RunResult.runNumber r = runNum
    /\ SequentialVia (StepRecords env exec next (maxRetries config + 1))
                     env p1 p2 p3 r cs.
Proof.
  intros Hstep. apply sequentialRun_via.
  intros s messages st. rewrite !Hstep.
  now apply step_records.
Qed.

Lemma scenario3Run_records runNum st :
  exists r st' cs,
    scenario3Run env config runNum st = Returns r st'
    /\ calls st' = (calls st ++ cs)%list
    /\ RunResult.runNumber r = runNum
    /\ SequentialVia
         (StepRecords env (runNonStrictAttempt env) nextAccumulate
                      (maxRetries config + 1))
         env Prompts.step1_nonStrict Prompts.step2_nonStrict
         Prompts.step3_nonStrict r cs.
Proof.
  apply (sequentialRun_records (runNonStrictAttempt env)
           (EngineFacts.runNonStrictAttempt_facts env)).
  intros. apply EngineFacts.nonStrictStep_loop.
Qed.

Lemma scenario4Run_records runNum st :
  exists r st' cs,
    scenario4Run env config runNum st = Returns r st'
    /\ calls st' = (calls st ++ cs)%list
    /\ RunResult.runNumber r = runNum
    /\ SequentialVia
         (StepRecords env (runStrictAttempt env) nextSame (maxRetries config + 1))
         env Prompts.step1_strict Prompts.step2_strict Prompts.step3_strict r cs.
Proof.
  apply (sequentialRun_records (runStrictAttempt env)
           (EngineFacts.runStrictAttempt_facts env)).
  intros. apply EngineFacts.strictStep_loop.
Qed.

Lemma oneShotRun_records (exec : Executor) (exec_ok : ExecFacts exec)
    (next : list Message -> AttemptResult.t -> list Message)
    (budget : nat) (messages : list Message)
    (loop : M (bool * option Parsed)) :
  (forall st,
      loop st
      = bind (retryLoop env exec false next ResponseSchema budget 1 messages)
             (fun r => ret (oneShotOutcome r)) st) ->
  forall runNum st r st',
    oneShotRun env loop runNum st = Returns r st' ->
    RunResult.runNumber r = runNum
    /\ LoopRecords env exec next ResponseSchema 1 messages (RunResult.attempts r).
Proof.
  intros Hloop runNum st r st'.
  unfold oneShotRun.
  cbv beta iota zeta delta [bind newAttempts now readAttempts ret].
  rewrite Hloop. unfold bind.
  destruct (retryLoop_records env exec exec_ok false next ResponseSchema budget
              1 messages
              {| calls := calls st; ticks := S (ticks st); attempts := [] |})
    as (atts & Ha & Hrecs).
  destruct (retryLoop env exec false next ResponseSchema budget 1 messages _)
    as [v st1 | e st1]; [| discriminate].
  cbn [finalState attempts app ret] in *.
  intros H. injection H as <- _.
  cbn [RunResult.runNumber RunResult.attempts]. rewrite Ha.
  split; [reflexivity | exact Hrecs].
Qed.

Lemma scenario1Run_records runNum st r st' :
  scenario1Run env config runNum st = Returns r st' ->
  RunResult.runNumber r = runNum
  /\ LoopRecords env (runNonStrictAttempt env) nextOneShot ResponseSchema 1
       scenario1Base (RunResult.attempts r).
Proof.
  apply (oneShotRun_records (runNonStrictAttempt env)
           (EngineFacts.runNonStrictAttempt_facts env) nextOneShot
           (maxRetries config + 1)).
  intros st0. apply EngineFacts.scenario1Attempts_loop; [lia |].
  apply EngineFacts.scenario1Messages_first.
Qed.

Lemma scenario2Run_records runNum st r st' :
  scenario2Run env config runNum st = Returns r st' ->
  RunResult.runNumber r = runNum
  /\ LoopRecords env (runStrictAttempt env) nextSame ResponseSchema 1
       scenario2Messages (RunResult.attempts r).
Proof.
  apply (oneShotRun_records (runStrictAttempt env)
           (EngineFacts.runStrictAttempt_facts env) nextSame
           (maxRetries config + 1)).
  intros st0. apply EngineFacts.scenario2Attempts_loop.
Qed.

End Runs.

(** A description of the steps can be weakened. *)
Lemma sequentialVia_weaken
    (F G : forall s : SchemaId,
        list Message -> option (dataOf s) -> list AttemptResult.t -> list Call -> Prop)
    env p1 p2 p3 r cs :
  (forall s messages res atts cs0, F s messages res atts cs0 -> G s messages res atts cs0) ->
  SequentialVia F env p1 p2 p3 r cs -> SequentialVia G env p1 p2 p3 r cs.
Proof.
  intros HFG (res1 & atts1 & cs1 & F1 & Hrest).
  exists res1, atts1, cs1. split; [now apply HFG |].
  destruct res1 as [d1|]; [| exact Hrest].
  destruct Hrest as (res2 & atts2 & cs2 & F2 & Hrest).
  exists res2, atts2, cs2. split; [now apply HFG |].
  destruct res2 as [d2|]; [| exact Hrest].
  destruct Hrest as (res3 & atts3 & cs3 & F3 & Hrest).
  exists res3, atts3, cs3. split; [now apply HFG | exact Hrest].
Qed.

Lemma sequentialVia_trace env exec budget next p1 p2 p3 r cs :
  SequentialVia (StepRecords env exec next budget) env p1 p2 p3 r cs ->
  SequentialTrace env budget next p1 p2 p3 r cs.
Proof.
  intros H.
  apply (sequentialVia_weaken _ (fun s m => StepFacts next s budget m)) in H;
    [exact H |].
  intros s messages res atts cs0 (Hfacts & _). exact Hfacts.
Qed.

End RecordFacts.

(** * What the records say *)

Module RecordProps.

Import Records.
Local Open Scope engine_scope.

Lemma recordedIn_number env sf s n m st st2 (r : Attempt (dataOf s)) :
  AttemptResult.attemptNumber (recordedIn env sf s n m st st2 r) = n.
Proof. unfold recordedIn. now destruct sf. Qed.

Lemma recordedIn_prompt env sf s n m st st2 (r : Attempt (dataOf s)) :
  AttemptResult.prompt (recordedIn env sf s n m st st2 r) = promptTextOf m.
Proof. unfold recordedIn. now destruct sf. Qed.

Lemma toParsed_inj s (v v' : dataOf s) : toParsed s v = toParsed s v' -> v = v'.
Proof. destruct s; cbn; intros H; now injection H. Qed.

Lemma numbered_from {A} (f : A -> nat) (l : list A) :
  forall first,
    (forall j a, nth_error l j = Some a -> f a = first + j) ->
    map f l = seq first (length l).
Proof.
  induction l as [|x l IH]; intros first H; [reflexivity |].
  cbn [map length seq]. f_equal.
  - rewrite (H 0 x eq_refl). lia.
  - apply IH. intros j a Hj. rewrite (H (S j) a Hj). lia.
Qed.

Lemma loopRecords_numbered env exec next s messages atts :
  LoopRecords env exec next s 1 messages atts -> Numbered atts.
Proof.
  intros H. apply numbered_from. intros j a Hj.
  destruct (H j a Hj) as (sf & st & st2 & result & _ & ->).
  apply recordedIn_number.
Qed.

Lemma stepRecords_aligned env exec next budget s messages res atts cs :
  StepRecords env exec next budget s messages res atts cs -> Aligned atts cs.
Proof.
  intros ((_ & _ & _ & Hmsg & _) & Hrecs & _) j a c Ha Hc.
  rewrite (Hmsg j c Hc).
  destruct (Hrecs j a Ha) as (sf & st & st2 & result & _ & ->).
  apply recordedIn_prompt.
Qed.

Lemma aligned_app atts1 cs1 atts2 cs2 :
  Aligned atts1 cs1 -> length cs1 = length atts1 -> Aligned atts2 cs2 ->
  Aligned (atts1 ++ atts2) (cs1 ++ cs2).
Proof.
  intros H1 Hlen H2 j a c Ha Hc.
  destruct (Nat.lt_ge_cases j (length atts1)) as [Hj | Hj].
  - rewrite nth_error_app1 in Ha by lia.
    rewrite nth_error_app1 in Hc by lia. eapply H1; eassumption.
  - rewrite nth_error_app2 in Ha by lia.
    rewrite nth_error_app2 in Hc by lia. rewrite Hlen in Hc.
    eapply H2; eassumption.
Qed.

Lemma loopRecords_forall env exec next s first messages atts
    (P : SchemaId -> AttemptResult.t -> Prop) :
  ResultFacts exec P ->
  LoopRecords env exec next s first messages atts ->
  Forall (P s) atts.
Proof.
  intros HP Hrecs. apply Forall_forall. intros a Hin.
  apply In_nth_error in Hin. destruct Hin as (j & Hj).
  destruct (Hrecs j a Hj) as (sf & st & st2 & result & Hexec & ->).
  unfold recordedIn. destruct sf; eapply HP, Hexec.
Qed.

Lemma sequentialVia_forall
    (F : forall s : SchemaId,
        list Message -> option (dataOf s) -> list AttemptResult.t -> list Call -> Prop)
    env p1 p2 p3 r cs (P : AttemptResult.t -> Prop) :
  (forall s messages res atts cs0, F s messages res atts cs0 -> Forall P atts) ->
  SequentialVia F env p1 p2 p3 r cs ->
  Forall P (RunResult.attempts r).
Proof.
  intros HF (res1 & atts1 & cs1 & F1 & Hrest).
  apply HF in F1.
  destruct res1 as [d1|]; [| destruct Hrest as (-> & _); exact F1].
  destruct Hrest as (res2 & atts2 & cs2 & F2 & Hrest). apply HF in F2.
  destruct res2 as [d2|];
    [| destruct Hrest as (-> & _); apply Forall_app; now split].
  destruct Hrest as (res3 & atts3 & cs3 & F3 & -> & _). apply HF in F3.
  rewrite !Forall_app. auto.
Qed.

(** ** What the two executors return *)

Lemma nonStrict_wellFormed env :
  ResultFacts (runNonStrictAttempt env) (fun _ => WellFormed).
Proof.
  intros s messages st result st2 n ts d p.
  unfold runNonStrictAttempt, bind, callGenerateText.
  destruct (generateText env (length (calls st)) messages) as [e | answer];
    [discriminate |].
  destruct (parse env s (Prompts.extractJson (text answer)))
    as [[issues | m | m | r] | validated]; cbn;
    intros H; try discriminate H; injection H as <- _;
    unfold WellFormed; cbn; repeat split; eauto; discriminate.
Qed.

Lemma strict_wellFormed env :
  ResultFacts (runStrictAttempt env) (fun _ => WellFormed).
Proof.
  intros s messages st result st2 n ts d p.
  unfold runStrictAttempt, tryCatch, bind, callGenerateObject.
  destruct (generateObject env s (length (calls st)) messages)
    as [[issues | m | m | r] | answer]; cbn;
    intros H; try discriminate H; injection H as <- _;
    unfold WellFormed; cbn; repeat split; eauto; discriminate.
Qed.

Lemma nonStrict_counted env :
  ResultFacts (runNonStrictAttempt env) (fun _ => Counted).
Proof.
  intros s messages st result st2 n ts d p.
  unfold runNonStrictAttempt, bind, callGenerateText.
  destruct (generateText env (length (calls st)) messages) as [e | answer];
    [discriminate |].
  destruct (parse env s (Prompts.extractJson (text answer)))
    as [[issues | m | m | r] | validated]; cbn;
    intros H; try discriminate H; injection H as <- _;
    unfold Counted; cbn; eauto.
Qed.

Lemma strict_strictRecord env :
  ResultFacts (runStrictAttempt env) (fun _ => StrictRecord).
Proof.
  intros s messages st result st2 n ts d p.
  unfold runStrictAttempt, tryCatch, bind, callGenerateObject.
  destruct (generateObject env s (length (calls st)) messages)
    as [[issues | m | m | r] | answer]; cbn;
    intros H; try discriminate H; injection H as <- _;
    unfold StrictRecord, Counted; cbn; split; intros H;
    first [discriminate H | eauto].
Qed.

Lemma nonStrict_validated env :
  SoundValidator env -> ResultFacts (runNonStrictAttempt env) Validated.
Proof.
  intros Hsound s messages st result st2 n ts d p.
  unfold runNonStrictAttempt, bind, callGenerateText.
  destruct (generateText env (length (calls st)) messages) as [e | answer];
    [discriminate |].
  destruct (parse env s (Prompts.extractJson (text answer)))
    as [[issues | m | m | r] | validated] eqn:Hparse; cbn;
    intros H; try discriminate H; injection H as <- _;
    intros v; cbn; intros Hv; try discriminate Hv.
  injection Hv as Hv. apply toParsed_inj in Hv. subst v.
  eapply Hsound, Hparse.
Qed.

Lemma strict_validated env :
  SoundGenerator env -> ResultFacts (runStrictAttempt env) Validated.
Proof.
  intros Hsound s messages st result st2 n ts d p.
  unfold runStrictAttempt, tryCatch, bind, callGenerateObject.
  destruct (generateObject env s (length (calls st)) messages)
    as [[issues | m | m | r] | answer] eqn:Hgen; cbn;
    intros H; try discriminate H; injection H as <- _;
    intros v; cbn; intros Hv; try discriminate Hv.
  injection Hv as Hv. apply toParsed_inj in Hv. subst v.
  eapply Hsound, Hgen.
Qed.

End RecordProps.

(** * Runs and scenarios *)

Module RunFacts.

Import Records.
Local Open Scope engine_scope.

(** The loop over the runs: the runs are numbered in order, and what it
    throws was thrown by a run. *)
Lemma runsLoop_outcome (run : nat -> M RunResult.t) (Q : Exn -> Prop) :
  (forall runNum st,
      match run runNum st with
      | Returns r _ => RunResult.runNumber r = runNum
      | Throws e _ => Q e
      end) ->
  forall remaining runNum acc st,
    match runsLoop run remaining runNum acc st with
    | Returns rs _ =>
        map RunResult.runNumber rs
        = (map RunResult.runNumber acc ++ seq runNum remaining)%list
    | Throws e _ => Q e
    end.
Proof.
  intros Hrun. induction remaining as [|remaining IH]; intros runNum acc st.
  - cbn. now rewrite app_nil_r.
  - cbn [runsLoop]. unfold bind at 1.
    specialize (Hrun runNum st).
    destruct (run runNum st) as [r st' | e st']; [| exact Hrun].
    specialize (IH (S runNum) (acc ++ [r])%list st').
    destruct (runsLoop run remaining (S runNum) (acc ++ [r]) st')
      as [rs st'' | e st'']; [| exact IH].
    rewrite IH, map_app, <- app_assoc. cbn [map app seq]. now rewrite Hrun.
Qed.

Lemma runsLoop_numbered (run : nat -> M RunResult.t) :
  (forall runNum st,
      exists r st', run runNum st = Returns r st' /\ RunResult.runNumber r = runNum) ->
  forall remaining st,
  exists rs st',
    runsLoop run remaining 1 [] st = Returns rs st'
    /\ map RunResult.runNumber rs = seq 1 remaining.
Proof.
  intros Hrun remaining st.
  assert (Hmatch : forall runNum st0,
             match run runNum st0 with
             | Returns r _ => RunResult.runNumber r = runNum
             | Throws _ _ => False
             end).
  { intros runNum st0. destruct (Hrun runNum st0) as (r & st' & -> & Hn).
    exact Hn. }
  pose proof (runsLoop_outcome run (fun _ => False) Hmatch remaining 1 [] st) as H.
  cbv beta in H.
  destruct (runsLoop run remaining 1 [] st) as [rs st' | e st']; [| contradiction].
  exists rs, st'. split; [reflexivity | exact H].
Qed.

Lemma retryLoop_throws env (exec : Executor) stampFirst next s (Q : Exn -> Prop) :
  (forall s' messages st e st2, exec s' messages st = Throws e st2 -> Q e) ->
  forall remaining attempt messages st e st',
    retryLoop env exec stampFirst next s remaining attempt messages st = Throws e st' ->
    Q e.
Proof.
  intros Hexec. induction remaining as [|remaining IH];
    intros attempt messages st e st'.
  - discriminate.
  - rewrite EngineFacts.retryLoop_step.
    destruct (exec s messages (tick st)) as [result st2 | e2 st2] eqn:E.
    + cbv zeta. destruct (success result); [discriminate | apply IH].
    + intros H. injection H as <- _. eapply Hexec, E.
Qed.

Lemma nonStrict_throws env s messages st e st2 :
  runNonStrictAttempt env s messages st = Throws e st2 -> ThrownByWorld env e.
Proof.
  unfold runNonStrictAttempt, bind, callGenerateText.
  destruct (generateText env (length (calls st)) messages) as [e0 | answer] eqn:G.
  - intros H. injection H as <- _. left. eauto.
  - destruct (parse env s (Prompts.extractJson (text answer)))
      as [[issues | m | m | r] | validated] eqn:P; cbn;
      intros H; try discriminate H; injection H as <- _;
      right; eauto.
Qed.

Lemma scenario1Run_outcome env config runNum st :
  match scenario1Run env config runNum st with
  | Returns r _ => RunResult.runNumber r = runNum
  | Throws e _ => ThrownByWorld env e
  end.
Proof.
  destruct (scenario1Run env config runNum st) as [r st' | e st'] eqn:E.
  - now destruct (RecordFacts.scenario1Run_records env config runNum st r st' E).
  - revert E. unfold scenario1Run, oneShotRun.
    cbv beta iota zeta delta [bind newAttempts now readAttempts ret].
    rewrite (EngineFacts.scenario1Attempts_loop env (maxRetries config + 1) 1 _
               scenario1Base);
      [| lia | apply EngineFacts.scenario1Messages_first].
    unfold bind.
    destruct (retryLoop env (runNonStrictAttempt env) false nextOneShot
                ResponseSchema (maxRetries config + 1) 1 scenario1Base _)
      as [v st1 | e1 st1] eqn:L; [discriminate |].
    intros H. injection H as <- _.
    eapply (retryLoop_throws env (runNonStrictAttempt env)); [| exact L].
    intros s' messages st0 e0 st2. apply nonStrict_throws.
Qed.

Lemma scenario2Run_numbered env config runNum st :
  exists r st',
    scenario2Run env config runNum st = Returns r st'
    /\ RunResult.runNumber r = runNum.
Proof.
  destruct (EngineFacts.scenario2Run_returns env config runNum st) as (r & st' & H).
  exists r, st'. split; [exact H |].
  now destruct (RecordFacts.scenario2Run_records env config runNum st r st' H).
Qed.

Lemma scenario3Run_numbered env config runNum st :
  exists r st',
    scenario3Run env config runNum st = Returns r st'
    /\ RunResult.runNumber r = runNum.
Proof.
  destruct (RecordFacts.scenario3Run_records env config runNum st)
    as (r & st' & cs & H & _ & Hn & _). eauto.
Qed.

Lemma scenario4Run_numbered env config runNum st :
  exists r st',
    scenario4Run env config runNum st = Returns r st'
    /\ RunResult.runNumber r = runNum.
Proof.
  destruct (RecordFacts.scenario4Run_records env config runNum st)
    as (r & st' & cs & H & _ & Hn & _). eauto.
Qed.

(** Scenarios 2, 3 and 4 return. *)
Lemma strict_and_sequential_return env config st :
  (exists rs st',
      runScenario2 env config st = Returns rs st'
      /\ map RunResult.runNumber rs = seq 1 (runsPerScenario config))
  /\ (exists rs st',
        runScenario3 env config st = Returns rs st'
        /\ map RunResult.runNumber rs = seq 1 (runsPerScenario config))
  /\ (exists rs st',
        runScenario4 env config st = Returns rs st'
        /\ map RunResult.runNumber rs = seq 1 (runsPerScenario config)).
Proof.
  split; [| split].
  - apply runsLoop_numbered. apply scenario2Run_numbered.
  - apply runsLoop_numbered. apply scenario3Run_numbered.
  - apply runsLoop_numbered. apply scenario4Run_numbered.
Qed.

(** Scenario 1 returns all its runs or throws what the world threw. *)
Lemma scenario1_outcome env config st :
  match runScenario1 env config st with
  | Returns rs _ => map RunResult.runNumber rs = seq 1 (runsPerScenario config)
  | Throws e _ => ThrownByWorld env e
  end.
Proof.
  exact (runsLoop_outcome (scenario1Run env config) (ThrownByWorld env)
           (scenario1Run_outcome env config) (runsPerScenario config) 1 [] st).
Qed.

End RunFacts.

(** X15.  Scenarios 2, 3 and 4 cannot throw: whatever the generator and the
    validator do, each returns exactly [runsPerScenario] runs, numbered 1,
    2, ... in order.  In scenario 3 this holds although its generator calls
    are those of guided mode: an exception of a call ends the run, which is
    recorded as failed, and the scenario goes on. *)
Theorem X15_scenarios_2_3_4_always_return
    (env : Env) (config : TestConfig) (st : State) :
  (exists rs st',
      runScenario2 env config st = Returns rs st'
      /\ map RunResult.runNumber rs = seq 1 (runsPerScenario config))
  /\ (exists rs st',
        runScenario3 env config st = Returns rs st'
        /\ map RunResult.runNumber rs = seq 1 (runsPerScenario config))
  /\ (exists rs st',
        runScenario4 env config st = Returns rs st'
        /\ map RunResult.runNumber rs = seq 1 (runsPerScenario config)).
Proof.
  split; [| split]; apply RunFacts.runsLoop_numbered.
  - apply RunFacts.scenario2Run_numbered.
  - apply RunFacts.scenario3Run_numbered.
  - apply RunFacts.scenario4Run_numbered.
Qed.

(** X16.  Scenario 1 gives all its runs or none: either it returns exactly
    [runsPerScenario] runs, numbered 1, 2, ... in order, or it throws, and
    then the runs already completed are lost and the exception is one that
    [generateText] threw, or one that the validator threw and that is
    neither a schema error nor a JSON syntax error. *)
Theorem X16_scenario1_returns_all_runs_or_throws
    (env : Env) (config : TestConfig) (st : State) :
  match runScenario1 env config st with
  | Returns rs _ => map RunResult.runNumber rs = seq 1 (runsPerScenario config)
  | Throws e _ => Records.ThrownByWorld env e
  end
  /\ (produced (runScenario1 env config st) = []
      \/ length (produced (runScenario1 env config st)) = runsPerScenario config).
Proof.
  pose proof (RunFacts.scenario1_outcome env config st) as H.
  destruct (runScenario1 env config st) as [rs st' | e st'].
  - cbn [map app] in H. split; [exact H |]. right. cbn [produced].
    rewrite <- (length_map RunResult.runNumber), H. apply length_seq.
  - split; [exact H | now left].
Qed.

(** * Every run of every scenario *)

Module ScenarioFacts.

Import Records.

Section Scenarios.

Variable env : Env.
Variable config : TestConfig.

(** What holds of every run of a scenario holds of the runs it produces. *)
Lemma scenario1_runs (P : RunResult.t -> Prop) :
  (forall r st' cs,
      OneShotTrace (maxRetries config + 1) nextOneShot scenario1Base
                   (Returns r st') cs ->
      LoopRecords env (runNonStrictAttempt env) nextOneShot ResponseSchema 1
                  scenario1Base (RunResult.attempts r) ->
      P r) ->
  forall st, Forall P (produced (runScenario1 env config st)).
Proof.
  intros HP st. apply EngineFacts.runsLoop_produced; [| constructor].
  intros runNum st0 r st' Hrun.
  destruct (EngineFacts.scenario1Run_trace env config runNum st0) as (cs & _ & Htrace).
  rewrite Hrun in Htrace.
  destruct (RecordFacts.scenario1Run_records env config runNum st0 r st' Hrun)
    as (_ & Hrecs).
  eapply HP; eassumption.
Qed.

Lemma scenario2_runs (P : RunResult.t -> Prop) :
  (forall r st' cs,
      OneShotTrace (maxRetries config + 1) nextSame scenario2Messages
                   (Returns r st') cs ->
      LoopRecords env (runStrictAttempt env) nextSame ResponseSchema 1
                  scenario2Messages (RunResult.attempts r) ->
      P r) ->
  forall st, Forall P (produced (runScenario2 env config st)).
Proof.
  intros HP st. apply EngineFacts.runsLoop_produced; [| constructor].
  intros runNum st0 r st' Hrun.
  destruct (EngineFacts.scenario2Run_trace env config runNum st0) as (cs & _ & Htrace).
  rewrite Hrun in Htrace.
  destruct (RecordFacts.scenario2Run_records env config runNum st0 r st' Hrun)
    as (_ & Hrecs).
  eapply HP; eassumption.
Qed.

Lemma scenario3_runs (P : RunResult.t -> Prop) :
  (forall r cs,
      SequentialVia
        (StepRecords env (runNonStrictAttempt env) nextAccumulate
                     (maxRetries config + 1))
        env Prompts.step1_nonStrict Prompts.step2_nonStrict
        Prompts.step3_nonStrict r cs ->
      P r) ->
  forall st, Forall P (produced (runScenario3 env config st)).
Proof.
  intros HP st. apply EngineFacts.runsLoop_produced; [| constructor].
  intros runNum st0 r st' Hrun.
  destruct (RecordFacts.scenario3Run_records env config runNum st0)
    as (r' & st'' & cs & Hrun' & _ & _ & Hvia).
  rewrite Hrun in Hrun'. injection Hrun' as <- <-.
  eapply HP, Hvia.
Qed.

Lemma scenario4_runs (P : RunResult.t -> Prop) :
  (forall r cs,
      SequentialVia
        (StepRecords env (runStrictAttempt env) nextSame (maxRetries config + 1))
        env Prompts.step1_strict Prompts.step2_strict Prompts.step3_strict r cs ->
      P r) ->
  forall st, Forall P (produced (runScenario4 env config st)).
Proof.
  intros HP st. apply EngineFacts.runsLoop_produced; [| constructor].
  intros runNum st0 r st' Hrun.
  destruct (RecordFacts.scenario4Run_records env config runNum st0)
    as (r' & st'' & cs & Hrun' & _ & _ & Hvia).
  rewrite Hrun in Hrun'. injection Hrun' as <- <-.
  eapply HP, Hvia.
Qed.

(** What holds of the runs of the four scenarios holds of the runs of
    [runScenario], which produces none for another scenario number. *)
Lemma runScenario_runs (P : RunResult.t -> Prop) (st : State) :
  Forall P (produced (runScenario1 env config st)) ->
  Forall P (produced (runScenario2 env config st)) ->
  Forall P (produced (runScenario3 env config st)) ->
  Forall P (produced (runScenario4 env config st)) ->
  forall scenario, Forall P (produced (runScenario env config scenario st)).
Proof.
  intros H1 H2 H3 H4 scenario.
  destruct scenario as [|[|[|[|[|k]]]]]; try assumption; constructor.
Qed.

End Scenarios.

Lemma oneShot_settled budget next messages r st' cs :
  OneShotTrace budget next messages (Returns r st') cs -> Settled r.
Proof.
  intros (_ & _ & _ & _ & [(Hs & init & a & d & _ & _ & _ & _ & Hf) | (Hs & _ & _ & Hf)]).
  - left. eauto.
  - right. auto.
Qed.

Lemma sequential_settled env budget next p1 p2 p3 r cs :
  SequentialTrace env budget next p1 p2 p3 r cs -> Settled r.
Proof.
  intros (res1 & atts1 & cs1 & _ & Hrest).
  destruct res1 as [d1|]; [| right; tauto].
  destruct Hrest as (res2 & atts2 & cs2 & _ & Hrest).
  destruct res2 as [d2|]; [| right; tauto].
  destruct Hrest as (res3 & atts3 & cs3 & _ & _ & _ & Hrest).
  destruct res3 as [d3|]; [| right; tauto].
  cbv zeta in Hrest.
  destruct (schemaIssues ResponseSchema (mergeSequentialParts d1 d2 d3));
    [left | right; tauto].
  destruct Hrest. eauto.
Qed.

Lemma oneShot_decided budget next messages r st' cs :
  0 < budget ->
  OneShotTrace budget next messages (Returns r st') cs -> DecidedByLast r.
Proof.
  intros Hb (_ & _ & Hatts & _ & Hshape). cbn [finalState] in *.
  unfold DecidedByLast. rewrite Hatts.
  destruct Hshape as [(Hs & init & a & d & Ha & _ & Hsa & Hp & Hf)
                     | (Hs & Hfail & Hl & Hf)].
  - exists a. rewrite Ha. unfold lastOf.
    split; [apply EngineFacts.nth_error_snoc_last | split; congruence].
  - destruct (EngineFacts.Failed_last _ Hfail) as (a & Hlast & Hsa); [lia |].
    exists a. split; [exact Hlast |]. split; [congruence |].
    rewrite Hf. symmetry.
    rewrite Forall_forall in Hfail. apply (Hfail a).
    unfold lastOf in Hlast. eapply nth_error_In, Hlast.
Qed.

Lemma filter_failed (atts : list AttemptResult.t) :
  Forall Failed atts -> filter AttemptResult.success atts = [].
Proof.
  induction 1 as [|a atts (Ha & _) _ IH]; cbn [filter]; [reflexivity |].
  now rewrite Ha.
Qed.

(** The successful attempts of a step loop: its last attempt when the step
    gave a result, none otherwise. *)
Lemma step_successes next s budget messages res atts cs :
  StepFacts next s budget messages res atts cs ->
  match res with
  | Some d =>
      exists a,
        filter AttemptResult.success atts = [a]
        /\ AttemptResult.parsedResponse a = Some (toParsed s d)
        /\ In a atts
  | None => filter AttemptResult.success atts = []
  end.
Proof.
  intros (_ & _ & _ & _ & Hshape).
  destruct res as [d|]; [| now apply filter_failed].
  destruct Hshape as (_ & init & a & -> & Hinit & Hsa & Hp).
  exists a. rewrite filter_app, (filter_failed _ Hinit).
  cbn [filter app]. rewrite Hsa.
  repeat split; [exact Hp |]. apply in_or_app. right. now left.
Qed.

Lemma sequential_merged env budget next p1 p2 p3 r cs :
  SequentialTrace env budget next p1 p2 p3 r cs -> MergedFromSteps r.
Proof.
  intros (res1 & atts1 & cs1 & F1 & Hrest). unfold MergedFromSteps, Storage.countIf.
  apply step_successes in F1.
  destruct res1 as [d1|].
  2: { destruct Hrest as (-> & _ & Hs & _). rewrite F1, Hs.
       split; [cbn; lia | discriminate]. }
  destruct F1 as (a1 & E1 & P1 & _).
  destruct Hrest as (res2 & atts2 & cs2 & F2 & Hrest).
  apply step_successes in F2.
  destruct res2 as [d2|].
  2: { destruct Hrest as (-> & _ & Hs & _). rewrite filter_app, E1, F2, Hs.
       split; [cbn; lia | discriminate]. }
  destruct F2 as (a2 & E2 & P2 & _).
  destruct Hrest as (res3 & atts3 & cs3 & F3 & -> & _ & Hrest).
  apply step_successes in F3. rewrite !filter_app, E1, E2.
  destruct res3 as [d3|].
  2: { destruct Hrest as (Hs & _). rewrite F3, Hs.
       split; [cbn; lia | discriminate]. }
  destruct F3 as (a3 & E3 & P3 & _). rewrite E3.
  split; [cbn; lia |]. intros Hok.
  cbv zeta in Hrest.
  destruct (schemaIssues ResponseSchema (mergeSequentialParts d1 d2 d3));
    [| destruct Hrest; congruence].
  destruct Hrest as (_ & Hf).
  exists d1, d2, d3. cbn [app map]. rewrite P1, P2, P3. auto.
Qed.

End ScenarioFacts.

(** X17.  For every run that [runScenario] produces, whatever the scenario,
    the final response is set exactly when the run succeeded, and it is
    then a full response object, never the output of a single step. *)
Theorem X17_final_response_set_iff_success
    (env : Env) (config : TestConfig) (st : State) (scenario : nat) :
  Forall Records.Settled (produced (runScenario env config scenario st)).
Proof.
  apply ScenarioFacts.runScenario_runs.
  - apply ScenarioFacts.scenario1_runs. intros r st' cs Htrace _.
    eapply ScenarioFacts.oneShot_settled, Htrace.
  - apply ScenarioFacts.scenario2_runs. intros r st' cs Htrace _.
    eapply ScenarioFacts.oneShot_settled, Htrace.
  - apply ScenarioFacts.scenario3_runs. intros r cs Hvia.
    eapply ScenarioFacts.sequential_settled, RecordFacts.sequentialVia_trace, Hvia.
  - apply ScenarioFacts.scenario4_runs. intros r cs Hvia.
    eapply ScenarioFacts.sequential_settled, RecordFacts.sequentialVia_trace, Hvia.
Qed.

(** X18.  In scenarios 1 and 2 the last attempt of a run decides the run,
    whatever the number of attempts: every run has a last attempt, the run
    succeeded exactly when that attempt did, and the final response of the
    run is the parsed response of that attempt. *)
Theorem X18_one_shot_run_decided_by_last_attempt
    (env : Env) (config : TestConfig) (st : State) :
  Forall Records.DecidedByLast (produced (runScenario1 env config st))
  /\ Forall Records.DecidedByLast (produced (runScenario2 env config st)).
Proof.
  split.
  - apply ScenarioFacts.scenario1_runs. intros r st' cs Htrace _.
    eapply ScenarioFacts.oneShot_decided; [| exact Htrace]. lia.
  - apply ScenarioFacts.scenario2_runs. intros r st' cs Htrace _.
    eapply ScenarioFacts.oneShot_decided; [| exact Htrace]. lia.
Qed.

(** X19.  A run of scenario 3 or 4 has at most three successful attempts.
    When the run succeeded it has exactly three, the last attempts of the
    three steps, whose parsed responses are the outputs of step 1, step 2
    and step 3 in this order, and the final response of the run is the
    merge of these three outputs. *)
Theorem X19_three_step_success_merges_last_attempts
    (env : Env) (config : TestConfig) (st : State) :
  Forall Records.MergedFromSteps (produced (runScenario3 env config st))
  /\ Forall Records.MergedFromSteps (produced (runScenario4 env config st)).
Proof.
  split.
  - apply ScenarioFacts.scenario3_runs. intros r cs Hvia.
    eapply ScenarioFacts.sequential_merged, RecordFacts.sequentialVia_trace, Hvia.
  - apply ScenarioFacts.scenario4_runs. intros r cs Hvia.
    eapply ScenarioFacts.sequential_merged, RecordFacts.sequentialVia_trace, Hvia.
Qed.

(** * Records, prompts and calls of the runs *)

Module RunRecordFacts.

Import Records.

Lemma merge_validates (d1 : SequentialPart1.t) (d2 : SequentialPart2.t)
    (d3 : SequentialPart3.t) :
  schemaIssues SequentialPart1Schema d1 = [] ->
  schemaIssues SequentialPart2Schema d2 = [] ->
  schemaIssues SequentialPart3Schema d3 = [] ->
  schemaIssues ResponseSchema (mergeSequentialParts d1 d2 d3) = [].
Proof.
  unfold mergeSequentialParts.
  cbn [schemaIssues Response.recommendation Response.action].
  intros -> H2 H3. cbn [app].
  destruct (SequentialPart1.action d1) as [[]|]; [| reflexivity].
  unfold actorIssues. cbn [Action.actor Actor.title Actor.reason Actor.prompt].
  apply app_eq_nil in H2. destruct H2 as (Ht & Hr).
  unfold tooSmall in *.
  destruct (2 <=? String.length (SequentialPart2.title d2))%nat; [| discriminate].
  destruct (20 <=? String.length (SequentialPart2.reason d2))%nat; [| discriminate].
  destruct (30 <=? String.length (SequentialPart3.prompt d3))%nat; [| discriminate].
  reflexivity.
Qed.

(** The result of a step loop has passed the validator. *)
Lemma step_validated env exec next budget s messages d atts cs :
  ResultFacts exec Validated ->
  StepRecords env exec next budget s messages (Some d) atts cs ->
  schemaIssues s d = [].
Proof.
  intros HP (Hfacts & Hrecs & _).
  destruct (ScenarioFacts.step_successes _ _ _ _ _ _ _ Hfacts) as (a & _ & Hp & Hin).
  pose proof (RecordProps.loopRecords_forall _ _ _ _ _ _ _ _ HP Hrecs) as Hall.
  rewrite Forall_forall in Hall. now apply (Hall a Hin).
Qed.

(** With a validator that only lets valid values through, a three-step run
    succeeds exactly when it has three successful attempts. *)
Lemma sequential_success_iff env exec next budget p1 p2 p3 r cs :
  ResultFacts exec Validated ->
  SequentialVia (StepRecords env exec next budget) env p1 p2 p3 r cs ->
  RunResult.success r = true
  <-> Storage.countIf AttemptResult.success (RunResult.attempts r) = 3%Z.
Proof.
  intros HP (res1 & atts1 & cs1 & F1 & Hrest). unfold Storage.countIf.
  pose proof (ScenarioFacts.step_successes _ _ _ _ _ _ _ (proj1 F1)) as S1.
  destruct res1 as [d1|].
  2: { destruct Hrest as (-> & _ & Hs & _). rewrite S1, Hs.
       split; [discriminate | cbn; lia]. }
  destruct S1 as (a1 & E1 & _).
  destruct Hrest as (res2 & atts2 & cs2 & F2 & Hrest).
  pose proof (ScenarioFacts.step_successes _ _ _ _ _ _ _ (proj1 F2)) as S2.
  destruct res2 as [d2|].
  2: { destruct Hrest as (-> & _ & Hs & _). rewrite filter_app, E1, S2, Hs.
       split; [discriminate | cbn; lia]. }
  destruct S2 as (a2 & E2 & _).
  destruct Hrest as (res3 & atts3 & cs3 & F3 & -> & _ & Hrest).
  pose proof (ScenarioFacts.step_successes _ _ _ _ _ _ _ (proj1 F3)) as S3.
  rewrite !filter_app, E1, E2.
  destruct res3 as [d3|].
  2: { destruct Hrest as (Hs & _). rewrite S3, Hs.
       split; [discriminate | cbn; lia]. }
  destruct S3 as (a3 & E3 & _). rewrite E3.
  cbv zeta in Hrest.
  rewrite (merge_validates d1 d2 d3) in Hrest;
    [| eapply step_validated; eassumption ..].
  destruct Hrest as (Hs & _). rewrite Hs. split; reflexivity.
Qed.

Lemma aligned_nil (cs : list Call) : Aligned [] cs.
Proof. intros j a c H. now destruct j. Qed.

Lemma oneShot_aligned env exec next budget messages r st' cs :
  OneShotTrace budget next messages (Returns r st') cs ->
  LoopRecords env exec next ResponseSchema 1 messages (RunResult.attempts r) ->
  Aligned (RunResult.attempts r) cs.
Proof.
  intros (_ & Hmsg & Hatts & _) Hrecs j a c Ha Hc. cbn [finalState] in *.
  rewrite (Hmsg j c Hc), <- Hatts.
  destruct (Hrecs j a Ha) as (sf & st & st2 & result & _ & ->).
  apply RecordProps.recordedIn_prompt.
Qed.

Lemma step_balanced next s budget messages (d : dataOf s) atts cs :
  StepFacts next s budget messages (Some d) atts cs -> length cs = length atts.
Proof. intros (_ & _ & _ & _ & Hl & _). exact Hl. Qed.

Lemma sequential_aligned env exec next budget p1 p2 p3 r cs :
  SequentialVia (StepRecords env exec next budget) env p1 p2 p3 r cs ->
  Aligned (RunResult.attempts r) cs.
Proof.
  intros (res1 & atts1 & cs1 & F1 & Hrest).
  pose proof (RecordProps.stepRecords_aligned _ _ _ _ _ _ _ _ _ F1) as A1.
  destruct res1 as [d1|]; [| destruct Hrest as (-> & -> & _); exact A1].
  pose proof (step_balanced _ _ _ _ _ _ _ (proj1 F1)) as L1.
  destruct Hrest as (res2 & atts2 & cs2 & F2 & Hrest).
  pose proof (RecordProps.stepRecords_aligned _ _ _ _ _ _ _ _ _ F2) as A2.
  destruct res2 as [d2|];
    [| destruct Hrest as (-> & -> & _); now apply RecordProps.aligned_app].
  pose proof (step_balanced _ _ _ _ _ _ _ (proj1 F2)) as L2.
  destruct Hrest as (res3 & atts3 & cs3 & F3 & -> & -> & _).
  pose proof (RecordProps.stepRecords_aligned _ _ _ _ _ _ _ _ _ F3) as A3.
  apply RecordProps.aligned_app; [exact A1 | exact L1 |].
  now apply RecordProps.aligned_app.
Qed.

Lemma sequential_numbered env exec next budget p1 p2 p3 r cs :
  SequentialVia (StepRecords env exec next budget) env p1 p2 p3 r cs ->
  NumberedBySteps budget r.
Proof.
  assert (Hstep : forall s messages res atts cs0,
             StepRecords env exec next budget s messages res atts cs0 ->
             Numbered atts /\ length atts <= budget).
  { intros s messages res atts cs0 ((Hl & _) & Hrecs & _).
    split; [eapply RecordProps.loopRecords_numbered, Hrecs | exact Hl]. }
  assert (Hnil : Numbered [] /\ length (@nil AttemptResult.t) <= budget)
    by (split; [reflexivity | cbn; lia]).
  intros (res1 & atts1 & cs1 & F1 & Hrest). apply Hstep in F1.
  unfold NumberedBySteps.
  destruct res1 as [d1|].
  2: { destruct Hrest as (-> & _). exists atts1, [], [].
       rewrite !app_nil_r. auto. }
  destruct Hrest as (res2 & atts2 & cs2 & F2 & Hrest). apply Hstep in F2.
  destruct res2 as [d2|].
  2: { destruct Hrest as (-> & _). exists atts1, atts2, [].
       rewrite !app_nil_r. auto. }
  destruct Hrest as (res3 & atts3 & cs3 & F3 & -> & _). apply Hstep in F3.
  exists atts1, atts2, atts3. auto.
Qed.

(** Calls and records of a three-step run: at most one call has no record,
    none when the run succeeded or when the executor cannot throw. *)
Lemma sequential_calls env exec next budget p1 p2 p3 r cs :
  SequentialVia (StepRecords env exec next budget) env p1 p2 p3 r cs ->
  length (RunResult.attempts r) <= length cs <= S (length (RunResult.attempts r))
  /\ (RunResult.success r = true -> length cs = length (RunResult.attempts r))
  /\ (NeverThrows exec -> length cs = length (RunResult.attempts r)).
Proof.
  assert (Hstep : forall s messages res atts cs0,
             StepRecords env exec next budget s messages res atts cs0 ->
             length atts <= length cs0 <= S (length atts)
             /\ (NeverThrows exec -> length cs0 = length atts)).
  { intros s messages res atts cs0 ((_ & Hl & _) & _ & Hn). auto. }
  intros (res1 & atts1 & cs1 & F1 & Hrest).
  pose proof (Hstep _ _ _ _ _ F1) as (B1 & N1).
  destruct res1 as [d1|].
  2: { destruct Hrest as (-> & -> & Hs & _).
       repeat split; try lia; [congruence | exact N1]. }
  pose proof (step_balanced _ _ _ _ _ _ _ (proj1 F1)) as L1.
  destruct Hrest as (res2 & atts2 & cs2 & F2 & Hrest).
  pose proof (Hstep _ _ _ _ _ F2) as (B2 & N2).
  destruct res2 as [d2|].
  2: { destruct Hrest as (-> & -> & Hs & _). rewrite !length_app.
       repeat split; try lia; [congruence |].
       intros Hn. specialize (N2 Hn). lia. }
  pose proof (step_balanced _ _ _ _ _ _ _ (proj1 F2)) as L2.
  destruct Hrest as (res3 & atts3 & cs3 & F3 & -> & -> & Hrest).
  pose proof (Hstep _ _ _ _ _ F3) as (B3 & N3).
  rewrite !length_app.
  repeat split; try lia.
  - intros Hok. destruct res3 as [d3|]; [| destruct Hrest; congruence].
    pose proof (step_balanced _ _ _ _ _ _ _ (proj1 F3)). lia.
  - intros Hn. specialize (N3 Hn). lia.
Qed.

End RunRecordFacts.

(** X20.  When the validator of guided mode and the generator of strict
    mode only let through values that their schema accepts, a run of
    scenario 3 or 4 succeeded exactly when it has three successful
    attempts: once the three steps have given their results, the final
    validation of the merged response cannot fail. *)
Theorem X20_three_step_run_succeeds_iff_three_successes
    (env : Env) (config : TestConfig) (st : State) :
  Records.SoundValidator env ->
  Records.SoundGenerator env ->
  Forall (fun r =>
            RunResult.success r = true
            <-> Storage.countIf AttemptResult.success (RunResult.attempts r) = 3%Z)
         (produced (runScenario3 env config st))
  /\ Forall (fun r =>
               RunResult.success r = true
               <-> Storage.countIf AttemptResult.success (RunResult.attempts r) = 3%Z)
            (produced (runScenario4 env config st)).
Proof.
  intros Hv Hg. split.
  - apply ScenarioFacts.scenario3_runs. intros r cs Hvia.
    eapply RunRecordFacts.sequential_success_iff; [| exact Hvia].
    now apply RecordProps.nonStrict_validated.
  - apply ScenarioFacts.scenario4_runs. intros r cs Hvia.
    eapply RunRecordFacts.sequential_success_iff; [| exact Hvia].
    now apply RecordProps.strict_validated.
Qed.

(** X21.  The [prompt] stored in an attempt record is the rendering of the
    messages that were sent to the generator for that attempt: in a run of
    any of the four scenarios, the j-th record carries the rendering of
    the messages of the j-th generator call of the run. *)
Theorem X21_recorded_prompt_is_the_prompt_sent
    (env : Env) (config : TestConfig) (runNum : nat) (st : State) :
  (forall r st',
      scenario1Run env config runNum st = Returns r st' ->
      Records.Aligned (RunResult.attempts r) (callsSince st st'))
  /\ (forall r st',
        scenario2Run env config runNum st = Returns r st' ->
        Records.Aligned (RunResult.attempts r) (callsSince st st'))
  /\ (forall r st',
        scenario3Run env config runNum st = Returns r st' ->
        Records.Aligned (RunResult.attempts r) (callsSince st st'))
  /\ (forall r st',
        scenario4Run env config runNum st = Returns r st' ->
        Records.Aligned (RunResult.attempts r) (callsSince st st')).
Proof.
  split; [| split; [| split]]; intros r st' Hrun.
  - destruct (EngineFacts.scenario1Run_trace env config runNum st) as (cs & Hcs & Htrace).
    rewrite Hrun in Hcs, Htrace. cbn [finalState] in Hcs.
    rewrite (EngineFacts.callsSince_app _ _ _ Hcs).
    eapply RunRecordFacts.oneShot_aligned; [exact Htrace |].
    eapply RecordFacts.scenario1Run_records, Hrun.
  - destruct (EngineFacts.scenario2Run_trace env config runNum st) as (cs & Hcs & Htrace).
    rewrite Hrun in Hcs, Htrace. cbn [finalState] in Hcs.
    rewrite (EngineFacts.callsSince_app _ _ _ Hcs).
    eapply RunRecordFacts.oneShot_aligned; [exact Htrace |].
    eapply RecordFacts.scenario2Run_records, Hrun.
  - destruct (RecordFacts.scenario3Run_records env config runNum st)
      as (r' & st'' & cs & Hrun' & Hcs & _ & Hvia).
    rewrite Hrun in Hrun'. injection Hrun' as <- <-.
    rewrite (EngineFacts.callsSince_app _ _ _ Hcs).
    eapply RunRecordFacts.sequential_aligned, Hvia.
  - destruct (RecordFacts.scenario4Run_records env config runNum st)
      as (r' & st'' & cs & Hrun' & Hcs & _ & Hvia).
    rewrite Hrun in Hrun'. injection Hrun' as <- <-.
    rewrite (EngineFacts.callsSince_app _ _ _ Hcs).
    eapply RunRecordFacts.sequential_aligned, Hvia.
Qed.

(** X22.  Attempt numbers.  In a run of scenario 1 or 2 the attempts are
    numbered 1, 2, 3, ... in order.  In a run of scenario 3 or 4 the
    numbering starts again at 1 in every step: the attempts are the
    attempts of step 1, then those of step 2, then those of step 3, each
    series numbered from 1 and no longer than [maxRetries + 1]. *)
Theorem X22_attempt_numbers
    (env : Env) (config : TestConfig) (st : State) :
  Forall (fun r => Records.Numbered (RunResult.attempts r))
         (produced (runScenario1 env config st))
  /\ Forall (fun r => Records.Numbered (RunResult.attempts r))
            (produced (runScenario2 env config st))
  /\ Forall (Records.NumberedBySteps (maxRetries config + 1))
            (produced (runScenario3 env config st))
  /\ Forall (Records.NumberedBySteps (maxRetries config + 1))
            (produced (runScenario4 env config st)).
Proof.
  split; [| split; [| split]].
  - apply ScenarioFacts.scenario1_runs. intros r st' cs _ Hrecs.
    eapply RecordProps.loopRecords_numbered, Hrecs.
  - apply ScenarioFacts.scenario2_runs. intros r st' cs _ Hrecs.
    eapply RecordProps.loopRecords_numbered, Hrecs.
  - apply ScenarioFacts.scenario3_runs. intros r cs Hvia.
    eapply RunRecordFacts.sequential_numbered, Hvia.
  - apply ScenarioFacts.scenario4_runs. intros r cs Hvia.
    eapply RunRecordFacts.sequential_numbered, Hvia.
Qed.

(** X23.  Every attempt record of every run that [runScenario] produces is
    well formed: its [errorMessage] is null; when it succeeded it has a
    parsed response and no validation error; when it failed it has no
    parsed response; and it has an input token count exactly when it has
    an output token count. *)
Theorem X23_attempt_records_are_well_formed
    (env : Env) (config : TestConfig) (st : State) (scenario : nat) :
  Forall (fun r => Forall Records.WellFormed (RunResult.attempts r))
         (produced (runScenario env config scenario st)).
Proof.
  apply ScenarioFacts.runScenario_runs.
  - apply ScenarioFacts.scenario1_runs. intros r st' cs _ Hrecs.
    exact (RecordProps.loopRecords_forall _ _ _ _ _ _ _ _
             (RecordProps.nonStrict_wellFormed env) Hrecs).
  - apply ScenarioFacts.scenario2_runs. intros r st' cs _ Hrecs.
    exact (RecordProps.loopRecords_forall _ _ _ _ _ _ _ _
             (RecordProps.strict_wellFormed env) Hrecs).
  - apply ScenarioFacts.scenario3_runs. intros r cs Hvia.
    eapply RecordProps.sequentialVia_forall; [| exact Hvia].
    intros s messages res atts cs0 (_ & Hrecs & _).
    exact (RecordProps.loopRecords_forall _ _ _ _ _ _ _ _
             (RecordProps.nonStrict_wellFormed env) Hrecs).
  - apply ScenarioFacts.scenario4_runs. intros r cs Hvia.
    eapply RecordProps.sequentialVia_forall; [| exact Hvia].
    intros s messages res atts cs0 (_ & Hrecs & _).
    exact (RecordProps.loopRecords_forall _ _ _ _ _ _ _ _
             (RecordProps.strict_wellFormed env) Hrecs).
Qed.

(** X24.  Token counts.  In the guided scenarios 1 and 3 every attempt
    record carries both token counts, failed attempts included.  In the
    strict scenarios 2 and 4 a record carries them exactly when the attempt
    succeeded: a failed attempt has no token count and an empty raw
    response, so that it adds nothing to the token total of a summary. *)
Theorem X24_token_counts_of_attempt_records
    (env : Env) (config : TestConfig) (st : State) :
  Forall (fun r => Forall Records.Counted (RunResult.attempts r))
         (produced (runScenario1 env config st))
  /\ Forall (fun r => Forall Records.StrictRecord (RunResult.attempts r))
            (produced (runScenario2 env config st))
  /\ Forall (fun r => Forall Records.Counted (RunResult.attempts r))
            (produced (runScenario3 env config st))
  /\ Forall (fun r => Forall Records.StrictRecord (RunResult.attempts r))
            (produced (runScenario4 env config st)).
Proof.
  split; [| split; [| split]].
  - apply ScenarioFacts.scenario1_runs. intros r st' cs _ Hrecs.
    exact (RecordProps.loopRecords_forall _ _ _ _ _ _ _ _
             (RecordProps.nonStrict_counted env) Hrecs).
  - apply ScenarioFacts.scenario2_runs. intros r st' cs _ Hrecs.
    exact (RecordProps.loopRecords_forall _ _ _ _ _ _ _ _
             (RecordProps.strict_strictRecord env) Hrecs).
  - apply ScenarioFacts.scenario3_runs. intros r cs Hvia.
    eapply RecordProps.sequentialVia_forall; [| exact Hvia].
    intros s messages res atts cs0 (_ & Hrecs & _).
    exact (RecordProps.loopRecords_forall _ _ _ _ _ _ _ _
             (RecordProps.nonStrict_counted env) Hrecs).
  - apply ScenarioFacts.scenario4_runs. intros r cs Hvia.
    eapply RecordProps.sequentialVia_forall; [| exact Hvia].
    intros s messages res atts cs0 (_ & Hrecs & _).
    exact (RecordProps.loopRecords_forall _ _ _ _ _ _ _ _
             (RecordProps.strict_strictRecord env) Hrecs).
Qed.

(** X25.  Generator calls and attempt records.  A run of scenario 1 or 2
    that returns, and every run of scenario 4, made exactly one generator
    call per attempt record.  A run of scenario 3 made at most one call
    more than it has records, the call whose exception ended the run, and
    none more when the run succeeded. *)
Theorem X25_one_generator_call_per_attempt
    (env : Env) (config : TestConfig) (runNum : nat) (st : State) :
  (forall r st',
      scenario1Run env config runNum st = Returns r st' ->
      length (callsSince st st') = length (RunResult.attempts r))
  /\ (forall r st',
        scenario2Run env config runNum st = Returns r st' ->
        length (callsSince st st') = length (RunResult.attempts r))
  /\ (forall r st',
        scenario3Run env config runNum st = Returns r st' ->
        length (RunResult.attempts r) <= length (callsSince st st')
                                      <= S (length (RunResult.attempts r))
        /\ (RunResult.success r = true ->
            length (callsSince st st') = length (RunResult.attempts r)))
  /\ (forall r st',
        scenario4Run env config runNum st = Returns r st' ->
        length (callsSince st st') = length (RunResult.attempts r)).
Proof.
  split; [| split; [| split]]; intros r st' Hrun.
  - destruct (EngineFacts.scenario1Run_trace env config runNum st) as (cs & Hcs & Htrace).
    rewrite Hrun in Hcs, Htrace. cbn [finalState] in Hcs.
    rewrite (EngineFacts.callsSince_app _ _ _ Hcs).
    destruct Htrace as (_ & _ & Hatts & Hl & _). cbn [finalState] in *. congruence.
  - destruct (EngineFacts.scenario2Run_trace env config runNum st) as (cs & Hcs & Htrace).
    rewrite Hrun in Hcs, Htrace. cbn [finalState] in Hcs.
    rewrite (EngineFacts.callsSince_app _ _ _ Hcs).
    destruct Htrace as (_ & _ & Hatts & Hl & _). cbn [finalState] in *. congruence.
  - destruct (RecordFacts.scenario3Run_records env config runNum st)
      as (r' & st'' & cs & Hrun' & Hcs & _ & Hvia).
    rewrite Hrun in Hrun'. injection Hrun' as <- <-.
    rewrite (EngineFacts.callsSince_app _ _ _ Hcs).
    destruct (RunRecordFacts.sequential_calls _ _ _ _ _ _ _ _ _ Hvia) as (Hb & Hs & _).
    auto.
  - destruct (RecordFacts.scenario4Run_records env config runNum st)
      as (r' & st'' & cs & Hrun' & Hcs & _ & Hvia).
    rewrite Hrun in Hrun'. injection Hrun' as <- <-.
    rewrite (EngineFacts.callsSince_app _ _ _ Hcs).
    destruct (RunRecordFacts.sequential_calls _ _ _ _ _ _ _ _ _ Hvia) as (_ & _ & Hn).
    apply Hn. intros s messages st0. apply EngineFacts.strict_returns.
Qed.


(** The scripted environments of the examples validate with the schemas. *)
Module FixtureFacts.

Lemma scripted_sound_validator texts objects :
  Records.SoundValidator (Examples.scripted texts objects).
Proof.
  intros s text v. cbn [parse Examples.scripted]. unfold Examples.parseKnown.
  destruct (find _ (Examples.known s)) as [known|]; [| discriminate].
  destruct (schemaIssues s known) eqn:E; [| discriminate].
  intros H. injection H as <-. exact E.
Qed.

Lemma noObjects_sound_generator texts :
  Records.SoundGenerator (Examples.scripted texts Examples.noObjects).
Proof. intros s n messages r. discriminate. Qed.

End FixtureFacts.

Lemma X20_three_step_run_succeeds_iff_three_successes_witness :
  Forall (fun r =>
            RunResult.success r = true
            <-> Storage.countIf AttemptResult.success (RunResult.attempts r) = 3%Z)
         (produced (runScenario3 Examples.nullActionEnv Examples.oneRunConfig
                                 initialState))
  /\ map RunResult.success
         (produced (runScenario3 Examples.nullActionEnv Examples.oneRunConfig
                                 initialState))
     = [true].
Proof.
  split.
  - apply (proj1 (X20_three_step_run_succeeds_iff_three_successes
                    Examples.nullActionEnv Examples.oneRunConfig initialState
                    (FixtureFacts.scripted_sound_validator _ _)
                    (FixtureFacts.noObjects_sound_generator _))).
  - vm_compute. reflexivity.
Defined.

(** * The suite *)

Module SuiteFacts.

Import Records Suite.
Local Open Scope engine_scope.

Lemma scenarioKey_inj (s s' : nat) : scenarioKey s = scenarioKey s' -> s = s'.
Proof.
  unfold scenarioKey. intros H.
  apply Unsigned.to_uint_inj.
  apply (f_equal NilEmpty.uint_of_string) in H.
  rewrite !NilEmpty.usu in H. now injection H.
Qed.

(** One scenario of [runModelTests]: its result, or what it throws. *)
Lemma scenarioResult_outcome env config scenario st :
  match scenarioResult env config scenario st with
  | Returns sr _ =>
      1 <= scenario <= 4
      /\ map RunResult.runNumber (runs sr) = seq 1 (runsPerScenario config)
      /\ summary sr = Storage.calculateScenarioSummary (runs sr)
  | Throws e _ =>
      (scenario = 1 /\ ThrownByWorld env e)
      \/ (~ 1 <= scenario <= 4
          /\ e = OtherError ("Invalid scenario: " ++ scenarioKey scenario))
  end.
Proof.
  unfold scenarioResult, bind.
  destruct (RunFacts.strict_and_sequential_return env config st)
    as ((rs2 & st2 & H2 & N2) & (rs3 & st3 & H3 & N3) & (rs4 & st4 & H4 & N4)).
  pose proof (RunFacts.scenario1_outcome env config st) as H1.
  destruct scenario as [|[|[|[|[|k]]]]]; cbn [runScenario].
  - cbn. right. split; [lia | reflexivity].
  - destruct (runScenario1 env config st) as [rs st' | e st'].
    + cbn. repeat split; [lia | lia | exact H1].
    + left. auto.
  - rewrite H2. cbn. repeat split; [lia | lia | exact N2].
  - rewrite H3. cbn. repeat split; [lia | lia | exact N3].
  - rewrite H4. cbn. repeat split; [lia | lia | exact N4].
  - unfold throw. right. split; [lia | reflexivity].
Qed.

Lemma get_set {V} (key key' : string) (value : V) (obj : Obj.t V) :
  Obj.get key' (Obj.set key value obj)
  = if String.eqb key key' then Some value else Obj.get key' obj.
Proof.
  destruct (String.eqb key key') eqn:E.
  - apply String.eqb_eq in E. subst. apply DiskFacts.get_set_same.
  - apply String.eqb_neq in E. apply DiskFacts.get_set_other. congruence.
Qed.

Section WithWorld.

Variable world : Models.ModelConfig -> Env.
Variable config : TestConfig.

Lemma scenariosLoop_outcome (model : Models.ModelConfig) (all : list nat) :
  forall scenarios results st,
    incl scenarios all ->
    (forall key sr,
        Obj.get key results = Some sr ->
        exists scenario,
          In scenario all
          /\ key = scenarioKey scenario
          /\ 1 <= scenario <= 4
          /\ map RunResult.runNumber (runs sr) = seq 1 (runsPerScenario config)
          /\ summary sr = Storage.calculateScenarioSummary (runs sr)) ->
    match scenariosLoop world config model scenarios results st with
    | Returns results' _ =>
        (forall key sr,
            Obj.get key results' = Some sr ->
            exists scenario,
              In scenario all
              /\ key = scenarioKey scenario
              /\ 1 <= scenario <= 4
              /\ map RunResult.runNumber (runs sr) = seq 1 (runsPerScenario config)
              /\ summary sr = Storage.calculateScenarioSummary (runs sr))
        /\ (forall key, Obj.get key results <> None -> Obj.get key results' <> None)
        /\ (forall scenario,
               In scenario scenarios ->
               Obj.get (scenarioKey scenario) results' <> None)
    | Throws e _ =>
        (In 1 all /\ ThrownByWorld (world model) e)
        \/ exists scenario,
             In scenario all
             /\ ~ 1 <= scenario <= 4
             /\ e = OtherError ("Invalid scenario: " ++ scenarioKey scenario)
    end.
Proof.
  induction scenarios as [|scenario rest IH]; intros results st Hincl Hinv.
  - cbn. repeat split; [exact Hinv | auto | intros s []].
  - cbn [scenariosLoop]. unfold bind at 1.
    pose proof (scenarioResult_outcome (world model) config scenario st) as Hone.
    assert (Hin : In scenario all) by (apply Hincl; now left).
    assert (Hrest : incl rest all) by (intros s Hs; apply Hincl; now right).
    destruct (scenarioResult (world model) config scenario st) as [sr st1 | e st1].
    + destruct Hone as (Hrange & Hnum & Hsum).
      assert (Hinv1 : forall key sr0,
                 Obj.get key (Obj.set (scenarioKey scenario) sr results) = Some sr0 ->
                 exists scenario0,
                   In scenario0 all
                   /\ key = scenarioKey scenario0
                   /\ 1 <= scenario0 <= 4
                   /\ map RunResult.runNumber (runs sr0)
                      = seq 1 (runsPerScenario config)
                   /\ summary sr0 = Storage.calculateScenarioSummary (runs sr0)).
      { intros key sr0. rewrite get_set.
        destruct (String.eqb (scenarioKey scenario) key) eqn:E.
        - intros H. injection H as <-. apply String.eqb_eq in E.
          exists scenario. auto.
        - apply Hinv. }
      specialize (IH (Obj.set (scenarioKey scenario) sr results) st1 Hrest Hinv1).
      destruct (scenariosLoop world config model rest
                  (Obj.set (scenarioKey scenario) sr results) st1)
        as [results' st2 | e st2]; [| exact IH].
      destruct IH as (Hinv' & Hkeep & Hnew).
      split; [exact Hinv' |]. split.
      * intros key Hkey. apply Hkeep. rewrite get_set.
        destruct (String.eqb (scenarioKey scenario) key); [discriminate | exact Hkey].
      * intros s [<- | Hs]; [| now apply Hnew].
        apply Hkeep. rewrite DiskFacts.get_set_same. discriminate.
    + destruct Hone as [(-> & Hw) | (Hout & He)].
      * now left.
      * right. exists scenario. auto.
Qed.

(** The loop over the models: an entry for every model, each the result of
    [runModelTests]; what it throws, [runModelTests] threw. *)
Lemma modelsLoop_outcome (scenarios : list nat) :
  forall modelIds results st,
    match modelsLoop world config modelIds scenarios results st with
    | Returns results' _ =>
        (forall key mr,
            Obj.get key results' = Some mr ->
            Obj.get key results = Some mr
            \/ (In key modelIds
                /\ exists st0 st1,
                     Suite.runModelTests world config key scenarios st0
                     = Returns mr st1))
        /\ (forall key, Obj.get key results <> None -> Obj.get key results' <> None)
        /\ (forall modelId, In modelId modelIds -> Obj.get modelId results' <> None)
    | Throws e _ =>
        exists modelId st0 st1,
          In modelId modelIds
          /\ Suite.runModelTests world config modelId scenarios st0 = Throws e st1
    end.
Proof.
  induction modelIds as [|modelId rest IH]; intros results st.
  - cbn. repeat split; [auto | auto | intros m []].
  - cbn [modelsLoop]. unfold bind at 1.
    destruct (Suite.runModelTests world config modelId scenarios st)
      as [mr st1 | e st1] eqn:E.
    + specialize (IH (Obj.set modelId mr results) st1).
      destruct (modelsLoop world config rest scenarios (Obj.set modelId mr results) st1)
        as [results' st2 | e st2].
      * destruct IH as (Hinv & Hkeep & Hnew). split; [| split].
        -- intros key mr0 Hget. destruct (Hinv key mr0 Hget) as [Hold | (Hin & Hrun)].
           ++ rewrite get_set in Hold.
              destruct (String.eqb modelId key) eqn:K; [| now left].
              apply String.eqb_eq in K. subst key. injection Hold as <-.
              right. split; [now left | eauto].
           ++ right. split; [now right | exact Hrun].
        -- intros key Hkey. apply Hkeep. rewrite get_set.
           destruct (String.eqb modelId key); [discriminate | exact Hkey].
        -- intros m [<- | Hm]; [| now apply Hnew].
           apply Hkeep. rewrite DiskFacts.get_set_same. discriminate.
      * destruct IH as (m & st0 & st3 & Hin & Hrun).
        exists m, st0, st3. split; [now right | exact Hrun].
    + exists modelId, st, st1. split; [now left | exact E].
Qed.

End WithWorld.

End SuiteFacts.


(** X26.  What [runModelTests] returns and what it throws.  When it
    returns, the model is known, the result has an entry for every
    requested scenario, and every entry is that of a requested scenario
    between 1 and 4, holds [runsPerScenario] runs numbered 1, 2, ... and
    the summary of exactly these runs.  When it throws, either the model is
    unknown and the error is [Model not found], or scenario 1 was requested
    and the exception is one the generator or the validator threw, or a
    requested scenario is outside 1..4 and the error is [Invalid scenario]. *)
Theorem X26_model_tests_outcome
    (world : Models.ModelConfig -> Env) (config : TestConfig)
    (modelId : string) (scenarios : list nat) (st : State) :
  match Suite.runModelTests world config modelId scenarios st with
  | Returns results _ =>
      Models.getModel modelId <> None
      /\ (forall scenario,
             In scenario scenarios ->
             Obj.get (Suite.scenarioKey scenario) results <> None)
      /\ (forall key sr,
             Obj.get key results = Some sr ->
             exists scenario,
               In scenario scenarios
               /\ key = Suite.scenarioKey scenario
               /\ 1 <= scenario <= 4
               /\ map RunResult.runNumber (runs sr) = seq 1 (runsPerScenario config)
               /\ summary sr = Storage.calculateScenarioSummary (runs sr))
  | Throws e _ =>
      (Models.getModel modelId = None
       /\ e = OtherError ("Model not found: " ++ modelId))
      \/ (exists model,
            Models.getModel modelId = Some model
            /\ In 1 scenarios
            /\ Records.ThrownByWorld (world model) e)
      \/ (exists scenario,
            In scenario scenarios
            /\ ~ 1 <= scenario <= 4
            /\ e = OtherError ("Invalid scenario: " ++ Suite.scenarioKey scenario))
  end.
Proof.
  unfold Suite.runModelTests.
  destruct (Models.getModel modelId) as [model|] eqn:G.
  - pose proof (SuiteFacts.scenariosLoop_outcome world config model scenarios scenarios [] st
                  (incl_refl _)) as H.
    destruct (Suite.scenariosLoop world config model scenarios [] st)
      as [results st' | e st'].
    + destruct H as (Hinv & _ & Hnew); [intros key sr; discriminate |].
      split; [discriminate |]. split; [exact Hnew | exact Hinv].
    + destruct H as [(H1 & Hw) | Hbad]; [intros key sr; discriminate | |].
      * right. left. eauto.
      * right. right. exact Hbad.
  - left. split; reflexivity.
Qed.

(** X27.  For a known model and scenarios among 2, 3 and 4,
    [runModelTests] cannot throw: it returns a result with an entry for
    every requested scenario. *)
Theorem X27_model_tests_return_without_scenario_1
    (world : Models.ModelConfig -> Env) (config : TestConfig)
    (modelId : string) (scenarios : list nat) (st : State) :
  Models.getModel modelId <> None ->
  Forall (fun scenario => 2 <= scenario <= 4) scenarios ->
  exists results st',
    Suite.runModelTests world config modelId scenarios st = Returns results st'
    /\ forall scenario,
         In scenario scenarios ->
         Obj.get (Suite.scenarioKey scenario) results <> None.
Proof.
  intros Hknown Hrange. unfold Suite.runModelTests.
  destruct (Models.getModel modelId) as [model|]; [| contradiction].
  pose proof (SuiteFacts.scenariosLoop_outcome world config model scenarios
                scenarios [] st (incl_refl _)) as H.
  rewrite Forall_forall in Hrange.
  destruct (Suite.scenariosLoop world config model scenarios [] st)
    as [results st' | e st'].
  - exists results, st'. split; [reflexivity |].
    apply H. intros key sr. discriminate.
  - exfalso. destruct H as [(H1 & _) | (s & Hs & Hout & _)].
    + intros key sr. discriminate.
    + specialize (Hrange 1 H1). lia.
    + specialize (Hrange s Hs). lia.
Qed.

Lemma X27_model_tests_return_without_scenario_1_witness :
  exists results st',
    Suite.runModelTests Fixtures.world Examples.oneRunConfig "openai-gpt4o" [2; 4]
                        initialState
    = Returns results st'
    /\ forall scenario,
         In scenario [2; 4] ->
         Obj.get (Suite.scenarioKey scenario) results <> None.
Proof.
  apply (X27_model_tests_return_without_scenario_1 Fixtures.world
           Examples.oneRunConfig "openai-gpt4o" [2; 4] initialState).
  - discriminate.
  - repeat constructor.
Defined.

(** X28.  A requested scenario outside 1..4 makes [runModelTests] throw,
    wherever it stands in the list: the results of the scenarios run
    before it are not returned. *)
Theorem X28_invalid_scenario_discards_the_results
    (world : Models.ModelConfig -> Env) (config : TestConfig)
    (modelId : string) (scenarios : list nat) (st : State) (scenario : nat) :
  In scenario scenarios ->
  ~ 1 <= scenario <= 4 ->
  exists e st', Suite.runModelTests world config modelId scenarios st = Throws e st'.
Proof.
  intros Hin Hout. unfold Suite.runModelTests.
  destruct (Models.getModel modelId) as [model|]; [| unfold throw; eauto].
  pose proof (SuiteFacts.scenariosLoop_outcome world config model scenarios
                scenarios [] st (incl_refl _)) as H.
  destruct (Suite.scenariosLoop world config model scenarios [] st)
    as [results st' | e st']; [| eauto].
  exfalso. destruct H as (Hinv & _ & Hnew); [intros key sr; discriminate |].
  specialize (Hnew scenario Hin).
  destruct (Obj.get (Suite.scenarioKey scenario) results) as [sr|] eqn:G;
    [| contradiction].
  destruct (Hinv _ _ G) as (s & _ & Hkey & Hrange & _).
  apply SuiteFacts.scenarioKey_inj in Hkey. subst s. contradiction.
Qed.

Lemma X28_invalid_scenario_discards_the_results_witness :
  exists e st',
    Suite.runModelTests Fixtures.world Examples.oneRunConfig "openai-gpt4o" [2; 5]
                        initialState
    = Throws e st'.
Proof.
  apply (X28_invalid_scenario_discards_the_results Fixtures.world
           Examples.oneRunConfig "openai-gpt4o" [2; 5] initialState 5).
  - right. now left.
  - lia.
Defined.

(** X29.  What [runFullTestSuite] returns and what it throws.  When it
    returns, the result has an entry for every requested model and every
    entry is what [runModelTests] returned for that model; when it throws,
    the exception is one that [runModelTests] threw for a requested model,
    and the results of the models run before it are not returned. *)
Theorem X29_full_suite_outcome
    (world : Models.ModelConfig -> Env) (config : TestConfig)
    (modelIds : list string) (scenarios : list nat) (st : State) :
  match Suite.runFullTestSuite world config modelIds scenarios st with
  | Returns results _ =>
      (forall modelId, In modelId modelIds -> Obj.get modelId results <> None)
      /\ (forall key mr,
             Obj.get key results = Some mr ->
             In key modelIds
             /\ exists st0 st1,
                  Suite.runModelTests world config key scenarios st0
                  = Returns mr st1)
  | Throws e _ =>
      exists modelId st0 st1,
        In modelId modelIds
        /\ Suite.runModelTests world config modelId scenarios st0 = Throws e st1
  end.
Proof.
  unfold Suite.runFullTestSuite.
  pose proof (SuiteFacts.modelsLoop_outcome world config scenarios modelIds [] st) as H.
  destruct (Suite.modelsLoop world config modelIds scenarios [] st)
    as [results st' | e st']; [| exact H].
  destruct H as (Hinv & _ & Hnew). split; [exact Hnew |].
  intros key mr Hget. destruct (Hinv key mr Hget) as [Hold | Hrun];
    [discriminate | exact Hrun].
Qed.


Module ExportFacts.

Import Disk.

Lemma getAllRuns_fold (disk : t) (entries : list IndexEntry.t) (acc : list TestRunFile.t) :
  fold_left
    (fun runs entry =>
       match loadTestRun (IndexEntry.id entry) disk with
       | Some run => (runs ++ [run])%list
       | None => runs
       end)
    entries acc
  = (acc ++ flat_map (fun entry =>
                        match loadTestRun (IndexEntry.id entry) disk with
                        | Some run => [run]
                        | None => []
                        end) entries)%list.
Proof.
  revert acc. induction entries as [|entry entries IH]; intros acc; cbn [fold_left flat_map].
  - now rewrite app_nil_r.
  - rewrite IH. destruct (loadTestRun (IndexEntry.id entry) disk);
      [now rewrite <- app_assoc | reflexivity].
Qed.

End ExportFacts.

(** X30.  [getAllRuns] returns exactly the runs that can be loaded under an
    identifier of the index, and at most one run per index entry: an entry
    whose file is missing or unreadable is skipped without an error. *)
Theorem X30_all_runs_are_the_loadable_runs (disk : Disk.t) :
  (forall run,
      In run (Disk.getAllRuns disk)
      <-> exists entry,
            In entry (Disk.loadIndex disk)
            /\ Disk.loadTestRun (IndexEntry.id entry) disk = Some run)
  /\ length (Disk.getAllRuns disk) <= length (Disk.loadIndex disk).
Proof.
  unfold Disk.getAllRuns. rewrite ExportFacts.getAllRuns_fold. cbn [app].
  split.
  - intros run. rewrite in_flat_map. split.
    + intros (entry & Hin & Hrun). exists entry. split; [exact Hin |].
      destruct (Disk.loadTestRun (IndexEntry.id entry) disk) as [run'|];
        [| contradiction].
      destruct Hrun as [<- | []]. reflexivity.
    + intros (entry & Hin & Hload). exists entry. split; [exact Hin |].
      rewrite Hload. now left.
  - induction (Disk.loadIndex disk) as [|entry entries IH]; cbn [flat_map length];
      [lia |].
    rewrite length_app.
    destruct (Disk.loadTestRun (IndexEntry.id entry) disk); cbn [length]; lia.
Qed.

(** * What follows a failed attempt *)

Module RetryFacts.

Import Records.
Local Open Scope engine_scope.

Lemma fold_left_snoc (next : list Message -> AttemptResult.t -> list Message)
    (atts : list AttemptResult.t) (j : nat) (a : AttemptResult.t)
    (messages : list Message) :
  nth_error atts j = Some a ->
  fold_left next (firstn (S j) atts) messages
  = next (fold_left next (firstn j atts) messages) a.
Proof.
  intros Ha. rewrite (EngineFacts.firstn_succ_snoc _ _ _ Ha), fold_left_app.
  reflexivity.
Qed.

(** Within one attempt loop. *)
Lemma loop_follows env exec next s messages atts cs :
  (forall j c, nth_error cs j = Some c ->
               call_messages c = fold_left next (firstn j atts) messages) ->
  LoopRecords env exec next s 1 messages atts ->
  Follows next atts cs.
Proof.
  intros Hmsg Hrecs j a c Ha _ Hc. split.
  - destruct (nth_error cs j) as [cj|] eqn:Ej.
    + exists cj. split; [reflexivity |].
      rewrite (Hmsg _ _ Hc), (Hmsg _ _ Ej). now apply fold_left_snoc.
    + exfalso. apply nth_error_None in Ej.
      assert (S j < length cs) by (apply nth_error_Some; congruence). lia.
  - intros a' Ha'.
    destruct (Hrecs j a Ha) as (sf & st & st2 & result & _ & ->).
    destruct (Hrecs (S j) a' Ha') as (sf' & st0 & st3 & result' & _ & ->).
    rewrite !RecordProps.recordedIn_number. lia.
Qed.

(** A loop that ended with a success, followed by further attempts. *)
Lemma follows_app next atts1 cs1 atts2 cs2 init a1 :
  Follows next atts1 cs1 -> Follows next atts2 cs2 ->
  length cs1 = length atts1 ->
  atts1 = (init ++ [a1])%list -> AttemptResult.success a1 = true ->
  Follows next (atts1 ++ atts2) (cs1 ++ cs2).
Proof.
  intros H1 H2 Hlen Hatts Hok j a c Ha Hfail Hc.
  assert (Hl1 : length atts1 = S (length init))
    by (rewrite Hatts, length_app; simpl; lia).
  destruct (Nat.lt_ge_cases j (length atts1)) as [Hj | Hj].
  - rewrite nth_error_app1 in Ha by lia.
    assert (Hlast : j <> length init).
    { intros ->. rewrite Hatts, nth_error_app2, Nat.sub_diag in Ha by lia.
      cbn in Ha. congruence. }
    rewrite nth_error_app1 in Hc by lia.
    destruct (H1 j a c Ha Hfail Hc) as ((cj & Hcj & Hm) & Hnum).
    split.
    + exists cj. split; [| exact Hm]. rewrite nth_error_app1; [exact Hcj | lia].
    + intros a' Ha'. rewrite nth_error_app1 in Ha' by lia. now apply Hnum.
  - rewrite nth_error_app2 in Ha by lia.
    rewrite nth_error_app2 in Hc by lia.
    replace (S j - length cs1) with (S (j - length atts1)) in Hc by lia.
    destruct (H2 _ a c Ha Hfail Hc) as ((cj & Hcj & Hm) & Hnum).
    split.
    + exists cj. split; [| exact Hm].
      rewrite nth_error_app2 by lia. now rewrite Hlen.
    + intros a' Ha'. rewrite nth_error_app2 in Ha' by lia.
      replace (S j - length atts1) with (S (j - length atts1)) in Ha' by lia.
      now apply Hnum.
Qed.

Lemma step_follows env exec next budget s messages res atts cs :
  StepRecords env exec next budget s messages res atts cs ->
  Follows next atts cs.
Proof.
  intros ((_ & _ & _ & Hmsg & _) & Hrecs & _).
  eapply loop_follows; eassumption.
Qed.

Lemma step_completed next s budget messages (d : dataOf s) atts cs :
  StepFacts next s budget messages (Some d) atts cs ->
  length cs = length atts
  /\ exists init a,
       atts = (init ++ [a])%list /\ AttemptResult.success a = true.
Proof.
  intros (_ & _ & _ & _ & Hl & init & a & Hatts & _ & Hok & _).
  split; [exact Hl |]. eauto.
Qed.

Lemma sequential_follows env exec next budget p1 p2 p3 r cs :
  SequentialVia (StepRecords env exec next budget) env p1 p2 p3 r cs ->
  Follows next (RunResult.attempts r) cs.
Proof.
  intros (res1 & atts1 & cs1 & F1 & Hrest).
  pose proof (step_follows _ _ _ _ _ _ _ _ _ F1) as A1.
  destruct res1 as [d1|]; [| destruct Hrest as (-> & -> & _); exact A1].
  destruct (step_completed _ _ _ _ _ _ _ (proj1 F1)) as (L1 & i1 & a1 & E1 & S1).
  destruct Hrest as (res2 & atts2 & cs2 & F2 & Hrest).
  pose proof (step_follows _ _ _ _ _ _ _ _ _ F2) as A2.
  destruct res2 as [d2|].
  2: { destruct Hrest as (-> & -> & _). eapply follows_app; eassumption. }
  destruct (step_completed _ _ _ _ _ _ _ (proj1 F2)) as (L2 & i2 & a2 & E2 & S2).
  destruct Hrest as (res3 & atts3 & cs3 & F3 & -> & -> & _).
  pose proof (step_follows _ _ _ _ _ _ _ _ _ F3) as A3.
  eapply follows_app; try eassumption.
  eapply follows_app; eassumption.
Qed.

Section OneShot.

Variable env : Env.

(** The records of a run of scenario 1 or 2, read in the final state, where
    they stay also when the run ends in an exception. *)
Lemma oneShotRun_final_records (exec : Executor) (exec_ok : ExecFacts exec)
    (next : list Message -> AttemptResult.t -> list Message)
    (budget : nat) (messages : list Message)
    (loop : M (bool * option Parsed)) :
  (forall st,
      loop st
      = bind (retryLoop env exec false next ResponseSchema budget 1 messages)
             (fun r => ret (oneShotOutcome r)) st) ->
  forall runNum st,
    LoopRecords env exec next ResponseSchema 1 messages
                (attempts (finalState (oneShotRun env loop runNum st))).
Proof.
  intros Hloop runNum st.
  unfold oneShotRun.
  cbv beta iota zeta delta [bind newAttempts now readAttempts ret].
  rewrite Hloop. unfold bind.
  destruct (RecordFacts.retryLoop_records env exec exec_ok false next
              ResponseSchema budget 1 messages
              {| calls := calls st; ticks := S (ticks st); attempts := [] |})
    as (atts & Ha & Hrecs).
  destruct (retryLoop env exec false next ResponseSchema budget 1 messages _)
    as [v st1 | e st1];
    cbn [finalState attempts app ret] in *; now rewrite Ha.
Qed.

Lemma oneShot_follows (exec : Executor)
    (next : list Message -> AttemptResult.t -> list Message)
    (budget : nat) (messages : list Message) (out : Outcome RunResult.t)
    (cs : list Call) :
  OneShotTrace budget next messages out cs ->
  LoopRecords env exec next ResponseSchema 1 messages (attempts (finalState out)) ->
  Follows next (attempts (finalState out)) cs.
Proof.
  intros (_ & Hmsg & _) Hrecs. eapply loop_follows; eassumption.
Qed.

End OneShot.

(** What the three ways of building the next messages give. *)
Lemma follows_accumulate atts cs : Follows nextAccumulate atts cs -> Corrected atts cs.
Proof.
  intros H j a c Ha Hfail Hc.
  destruct (H j a c Ha Hfail Hc) as ((cj & _ & Hm) & Hnum).
  split; [| exact Hnum]. rewrite Hm. apply EngineFacts.retryContext_mentions.
Qed.

Lemma follows_oneShot atts cs : Follows nextOneShot atts cs -> Corrected atts cs.
Proof.
  intros H j a c Ha Hfail Hc.
  destruct (H j a c Ha Hfail Hc) as ((cj & _ & Hm) & Hnum).
  split; [| exact Hnum]. rewrite Hm. apply EngineFacts.retryContext_mentions.
Qed.

Lemma follows_same atts cs : Follows nextSame atts cs -> Repeated atts cs.
Proof.
  intros H j a c Ha Hfail Hc.
  destruct (H j a c Ha Hfail Hc) as ((cj & Hcj & Hm) & Hnum).
  split; [| exact Hnum]. exists cj. auto.
Qed.

(** ** A call after every failure within the budget *)

Section Calls.

Variable env : Env.
Variable exec : Executor.
Hypothesis exec_ok : ExecFacts exec.
Variable next : list Message -> AttemptResult.t -> list Message.

Lemma step_calls s remaining messages st :
  exists res atts cs,
    StepCalls next remaining s messages res atts cs
    /\ attempts (finalState (stepVia env exec next s remaining 1 messages st))
       = (attempts st ++ atts)%list
    /\ calls (finalState (stepVia env exec next s remaining 1 messages st))
       = (calls st ++ cs)%list
    /\ match stepVia env exec next s remaining 1 messages st with
       | Returns v _ => v = res
       | Throws _ _ => res = None
       end.
Proof.
  destruct (EngineFacts.retryLoop_facts env exec exec_ok true next s remaining
              1 messages st)
    as (atts & cs & Ha & Hc & Hlen & Hmsg & Hshape).
  unfold stepVia, bind.
  destruct (retryLoop env exec true next s remaining 1 messages st)
    as [[r|] st1 | e st1]; cbn [finalState ret stepOutcome] in *.
  - destruct Hshape as (Hr & Hl & init & a & d & Hatts & Hi & Hs & Hd & Hp).
    exists (Some d), atts, cs.
    assert (0 < length atts)
      by (rewrite Hatts, length_app; simpl; lia).
    split; [| auto]. split; [| discriminate].
    unfold StepFacts. repeat split; auto; try lia.
    exists init, a. auto.
  - destruct Hshape as (Hf & Hl & Hl').
    exists None, atts, cs. split; [| auto].
    split; [| intros _; now left].
    unfold StepFacts. repeat split; auto; lia.
  - destruct Hshape as (Hf & Hl).
    exists None, atts, cs. split; [| auto].
    split; [| intros _; now right].
    unfold StepFacts. repeat split; auto; lia.
Qed.

End Calls.

Lemma scenario3Run_calls env config runNum st :
  exists r st' cs,
    scenario3Run env config runNum st = Returns r st'
    /\ calls st' = (calls st ++ cs)%list
    /\ SequentialVia (StepCalls nextAccumulate (maxRetries config + 1))
         env Prompts.step1_nonStrict Prompts.step2_nonStrict
         Prompts.step3_nonStrict r cs.
Proof.
  destruct (RecordFacts.sequentialRun_via env config
              (StepCalls nextAccumulate (maxRetries config + 1))
              (nonStrictStep env))
    with (p1 := Prompts.step1_nonStrict) (p2 := Prompts.step2_nonStrict)
         (p3 := Prompts.step3_nonStrict) (runNum := runNum) (st := st)
    as (r & st' & cs & Hrun & Hcs & _ & Hvia).
  - intros s messages st0. rewrite !EngineFacts.nonStrictStep_loop.
    apply step_calls. apply EngineFacts.runNonStrictAttempt_facts.
  - exists r, st', cs. auto.
Qed.

Lemma leading_failures_bound (init rest : list AttemptResult.t)
    (a : AttemptResult.t) (j : nat) :
  AttemptResult.success a = true ->
  Forall (fun x => AttemptResult.success x = false)
         (firstn j ((init ++ [a]) ++ rest)) ->
  j <= length init.
Proof.
  intros Hok Hall.
  destruct (Nat.le_gt_cases j (length init)) as [H | H]; [exact H |].
  exfalso. rewrite Forall_forall in Hall.
  assert (Hin : In a (firstn j ((init ++ [a]) ++ rest))).
  { apply (nth_error_In _ (length init)).
    rewrite nth_error_firstn.
    replace (length init <? j)%nat with true by (symmetry; apply Nat.ltb_lt; lia).
    rewrite <- app_assoc, nth_error_app2, Nat.sub_diag by lia. reflexivity. }
  specialize (Hall a Hin). congruence.
Qed.

(** In a three-step run, after [j] leading failures within the budget a
    further call was made. *)
Lemma sequential_call_exists env next budget p1 p2 p3 r cs j :
  SequentialVia (StepCalls next budget) env p1 p2 p3 r cs ->
  j <= length (RunResult.attempts r) ->
  j < budget ->
  Forall (fun a => AttemptResult.success a = false)
         (firstn j (RunResult.attempts r)) ->
  exists c, nth_error cs j = Some c.
Proof.
  intros (res1 & atts1 & cs1 & (F1 & E1) & Hrest) Hj Hb Hall.
  assert (Hlt : j < length cs).
  { destruct res1 as [d1|].
    - destruct (step_completed _ _ _ _ _ _ _ F1) as (L1 & i1 & a1 & Ha1 & S1).
      assert (Hcs : exists tail, cs = (cs1 ++ tail)%list
                                 /\ exists rest, RunResult.attempts r
                                                 = (atts1 ++ rest)%list).
      { destruct Hrest as (res2 & atts2 & cs2 & _ & Hrest).
        destruct res2 as [d2|].
        - destruct Hrest as (res3 & atts3 & cs3 & _ & Hr & Hc & _). eauto.
        - destruct Hrest as (Hr & Hc & _). eauto. }
      destruct Hcs as (tail & -> & rest & Hr).
      rewrite Hr, Ha1 in Hall.
      pose proof (leading_failures_bound _ _ _ _ S1 Hall) as Hle.
      rewrite length_app, L1, Ha1, length_app. simpl. lia.
    - destruct Hrest as (Hr & -> & _). rewrite Hr in Hj.
      destruct F1 as (_ & Hl & _).
      destruct (E1 eq_refl) as [Hfull | Hthrew]; lia. }
  destruct (nth_error cs j) as [c|] eqn:E; [eauto |].
  apply nth_error_None in E. lia.
Qed.

End RetryFacts.

(** C10.  In scenario 1 the first call of a run is sent the three base
    messages, and every later call, the one of attempt k + 1, is sent exactly
    five messages: the three base messages, the raw response of attempt k as
    an assistant turn, and the retry instruction built from the raw response
    and the errors of attempt k; nothing of earlier attempts is kept.  In
    scenario 3, by contrast, each retry appends to the messages of the call
    before: after j failures of step 1, with j at most [maxRetries], a
    further call is made, and it is sent the step's three messages followed
    by the retry contexts of all the j attempts before it, in order:
    3 + 2 j messages; and in each of the three steps the call that follows
    a failed attempt is sent the messages of the call before it followed by
    the raw response and the retry instruction of the failed attempt. *)
Theorem C10_scenario1_retry_context_not_accumulated
    (env : Env) (config : TestConfig) (runNum : nat) (st : State) :
  (let out := scenario1Run env config runNum st in
   let cs := callsSince st (finalState out) in
   let atts := attempts (finalState out) in
   (forall c, nth_error cs 0 = Some c -> call_messages c = scenario1Base)
   /\ forall k c,
        nth_error cs (S k) = Some c ->
        exists a,
          nth_error atts k = Some a
          /\ call_messages c
             = (scenario1Base
                ++ [ mkMessage assistant (AttemptResult.rawResponse a);
                     mkMessage user
                       (Prompts.getRetryPrompt (AttemptResult.rawResponse a)
                          (AttemptResult.validationErrors a)) ])%list
          /\ length (call_messages c) = 5)
  /\ (exists r st',
        scenario3Run env config runNum st = Returns r st'
        /\ (forall j c,
               nth_error (callsSince st st') j = Some c ->
               j <= length (RunResult.attempts r) ->
               Forall (fun a => AttemptResult.success a = false)
                      (firstn j (RunResult.attempts r)) ->
               call_messages c
               = (step1Messages Prompts.step1_nonStrict
                  ++ retryContexts (firstn j (RunResult.attempts r)))%list
               /\ length (call_messages c) = 3 + 2 * j)
        /\ (forall j,
               j <= length (RunResult.attempts r) ->
               j <= maxRetries config ->
               Forall (fun a => AttemptResult.success a = false)
                      (firstn j (RunResult.attempts r)) ->
               exists c, nth_error (callsSince st st') j = Some c)
        /\ (forall j a c,
               nth_error (RunResult.attempts r) j = Some a ->
               AttemptResult.success a = false ->
               nth_error (callsSince st st') (S j) = Some c ->
               exists cj,
                 nth_error (callsSince st st') j = Some cj
                 /\ call_messages c
                    = (call_messages cj
                       ++ [ mkMessage assistant (AttemptResult.rawResponse a);
                            mkMessage user
                              (Prompts.getRetryPrompt (AttemptResult.rawResponse a)
                                 (AttemptResult.validationErrors a)) ])%list)).
Proof.
  split.
  - cbv zeta.
    destruct (EngineFacts.scenario1Run_trace env config runNum st)
      as (cs & Hcalls & Htrace).
    rewrite (EngineFacts.callsSince_app _ _ _ Hcalls).
    split.
    + intros c Hc. destruct Htrace as (_ & Hmsg & _).
      now rewrite (Hmsg _ _ Hc).
    + intros k c Hc.
      destruct (EngineFacts.oneShot_retry_messages _ _ _ _ _ Htrace Hc)
        as (a & Ha & Hm).
      exists a. split; [exact Ha |]. split; [exact Hm |].
      rewrite Hm. reflexivity.
  - destruct (RetryFacts.scenario3Run_calls env config runNum st)
      as (r & st' & cs & Hrun & Hcalls & Hvia).
    assert (Htrace : SequentialTrace env (maxRetries config + 1) nextAccumulate
                       Prompts.step1_nonStrict Prompts.step2_nonStrict
                       Prompts.step3_nonStrict r cs).
    { apply (RecordFacts.sequentialVia_weaken _
               (fun s m => StepFacts nextAccumulate s (maxRetries config + 1) m))
        in Hvia; [exact Hvia |].
      intros s messages res atts cs0 (Hfacts & _). exact Hfacts. }
    assert (Hfollows : Records.Follows nextAccumulate (RunResult.attempts r) cs).
    { destruct (RecordFacts.scenario3Run_records env config runNum st)
        as (r' & st'' & cs' & Hrun' & Hcalls' & _ & Hvia').
      rewrite Hrun in Hrun'. injection Hrun' as <- <-.
      rewrite Hcalls in Hcalls'. apply app_inv_head in Hcalls'. subst cs'.
      eapply RetryFacts.sequential_follows, Hvia'. }
    exists r, st'. split; [exact Hrun |].
    rewrite (EngineFacts.callsSince_app _ _ _ Hcalls). split; [| split].
    + intros j c Hc Hj Hfail.
      rewrite (EngineFacts.sequential_leading_failures _ _ _ _ _ _ _ _ _ _
                 Htrace Hj Hfail Hc).
      rewrite EngineFacts.fold_nextAccumulate. split; [reflexivity |].
      rewrite length_app, EngineFacts.retryContexts_length, length_firstn.
      cbn [step1Messages length]. lia.
    + intros j Hj Hb Hfail.
      eapply RetryFacts.sequential_call_exists;
        [exact Hvia | exact Hj | lia | exact Hfail].
    + intros j a c Ha Hfail Hc.
      destruct (Hfollows j a c Ha Hfail Hc) as ((cj & Hcj & Hm) & _).
      exists cj. split; [exact Hcj | exact Hm].
Qed.

(** A run of scenario 1 with one retry: the second call is sent five
    messages.  A run of scenario 3 whose step 1 fails twice: its first three
    calls are sent 3, 5 and 7 messages. *)
Lemma C10_scenario1_retry_context_not_accumulated_witness :
  (let out := scenario1Run Examples.oneRetryEnv Examples.oneRunConfig 1 initialState in
   exists c,
     nth_error (callsSince initialState (finalState out)) 1 = Some c
     /\ length (call_messages c) = 5)
  /\ (exists r st' c0 c1 c2,
        scenario3Run Fixtures.stepOneRetriesEnv Examples.oneRunConfig 1 initialState
        = Returns r st'
        /\ map AttemptResult.success (RunResult.attempts r)
           = [false; false; true; true; true]
        /\ nth_error (callsSince initialState st') 0 = Some c0
        /\ length (call_messages c0) = 3
        /\ nth_error (callsSince initialState st') 1 = Some c1
        /\ length (call_messages c1) = 5
        /\ nth_error (callsSince initialState st') 2 = Some c2
        /\ length (call_messages c2) = 7).
Proof.
  split.
  - cbv zeta.
    destruct (nth_error
                (callsSince initialState
                   (finalState (scenario1Run Examples.oneRetryEnv
                                  Examples.oneRunConfig 1 initialState))) 1)
      as [c|] eqn:E.
    + exists c. split; [reflexivity |].
      destruct (proj2 (proj1 (C10_scenario1_retry_context_not_accumulated
                                Examples.oneRetryEnv Examples.oneRunConfig 1
                                initialState)) 0 c E)
        as (a & _ & _ & Hlen).
      exact Hlen.
    + vm_compute in E. discriminate E.
  - destruct (proj2 (C10_scenario1_retry_context_not_accumulated
                       Fixtures.stepOneRetriesEnv Examples.oneRunConfig 1
                       initialState))
      as (r & st' & Hrun & Hmsg & Hcall & _).
    assert (Hr : map AttemptResult.success (RunResult.attempts r)
                 = [false; false; true; true; true]).
    { vm_compute in Hrun. injection Hrun as <- _. reflexivity. }
    assert (Hfail : forall j, j <= 2 ->
               j <= length (RunResult.attempts r)
               /\ Forall (fun a => AttemptResult.success a = false)
                         (firstn j (RunResult.attempts r))).
    { destruct (RunResult.attempts r) as [|a0 [|a1 [|a2 [|a3 [|a4 [|a5 l]]]]]];
        try discriminate Hr.
      injection Hr as H0 H1 _ _ _.
      intros [|[|[|j]]] Hj; [| | | lia]; (split; [simpl; lia |]);
        cbn [firstn]; repeat constructor; assumption. }
    destruct (Hfail 0 ltac:(lia)) as (L0 & F0).
    destruct (Hfail 1 ltac:(lia)) as (L1 & F1).
    destruct (Hfail 2 ltac:(lia)) as (L2 & F2).
    destruct (Hcall 0 L0 ltac:(cbn; lia) F0) as (c0 & E0).
    destruct (Hcall 1 L1 ltac:(cbn; lia) F1) as (c1 & E1).
    destruct (Hcall 2 L2 ltac:(cbn; lia) F2) as (c2 & E2).
    exists r, st', c0, c1, c2.
    split; [exact Hrun |]. split; [exact Hr |].
    split; [exact E0 |]. split; [exact (proj2 (Hmsg 0 c0 E0 L0 F0)) |].
    split; [exact E1 |]. split; [exact (proj2 (Hmsg 1 c1 E1 L1 F1)) |].
    split; [exact E2 | exact (proj2 (Hmsg 2 c2 E2 L2 F2))].
Defined.

(** C6, as amended.  In the guided scenarios 1 and 3, whenever an attempt of
    a run failed and the run made a call after it, that call ends with a
    user message that literally contains the raw response of the failed
    attempt and, for every validation error of that attempt, its path text
    (the path joined by dots, or root when empty) and its message; and the
    record of that call, if there is one, carries the next attempt number,
    so that the call is the next attempt of the same attempt loop: in
    scenario 3 this is so in each of the three steps, whose attempts are
    numbered from 1.  In the strict scenarios 2 and 4 no corrective message
    exists: every call of scenario 2 is sent the same three messages, and in
    scenario 4 the call that follows a failed attempt is sent the messages
    of the call before. *)
Theorem C6_guided_retry_prompt_mentions_failure
    (env : Env) (config : TestConfig) (runNum : nat) (st : State) :
  (let out := scenario1Run env config runNum st in
   Records.Corrected (attempts (finalState out)) (callsSince st (finalState out)))
  /\ (exists r st',
        scenario3Run env config runNum st = Returns r st'
        /\ Records.Corrected (RunResult.attempts r) (callsSince st st'))
  /\ (let out := scenario2Run env config runNum st in
      forall j c,
        nth_error (callsSince st (finalState out)) j = Some c ->
        call_messages c = scenario2Messages)
  /\ (exists r st',
        scenario4Run env config runNum st = Returns r st'
        /\ Records.Repeated (RunResult.attempts r) (callsSince st st')).
Proof.
  split; [| split; [| split]].
  - cbv zeta.
    destruct (EngineFacts.scenario1Run_trace env config runNum st)
      as (cs & Hcalls & Htrace).
    rewrite (EngineFacts.callsSince_app _ _ _ Hcalls).
    apply RetryFacts.follows_oneShot.
    eapply (RetryFacts.oneShot_follows env (runNonStrictAttempt env));
      [exact Htrace |].
    apply (RetryFacts.oneShotRun_final_records env (runNonStrictAttempt env)
             (EngineFacts.runNonStrictAttempt_facts env) nextOneShot
             (maxRetries config + 1)).
    intros st0. apply EngineFacts.scenario1Attempts_loop; [lia |].
    apply EngineFacts.scenario1Messages_first.
  - destruct (RecordFacts.scenario3Run_records env config runNum st)
      as (r & st' & cs & Hrun & Hcalls & _ & Hvia).
    exists r, st'. split; [exact Hrun |].
    rewrite (EngineFacts.callsSince_app _ _ _ Hcalls).
    eapply RetryFacts.follows_accumulate, RetryFacts.sequential_follows, Hvia.
  - cbv zeta.
    destruct (EngineFacts.scenario2Run_trace env config runNum st)
      as (cs & Hcalls & Htrace).
    rewrite (EngineFacts.callsSince_app _ _ _ Hcalls).
    intros j c Hc. destruct Htrace as (_ & Hmsg & _).
    rewrite (Hmsg _ _ Hc). apply EngineFacts.fold_nextSame.
  - destruct (RecordFacts.scenario4Run_records env config runNum st)
      as (r & st' & cs & Hrun & Hcalls & _ & Hvia).
    exists r, st'. split; [exact Hrun |].
    rewrite (EngineFacts.callsSince_app _ _ _ Hcalls).
    eapply RetryFacts.follows_same, RetryFacts.sequential_follows, Hvia.
Qed.

(** Three runs with one retry.  In scenario 1 the second call ends with a
    user message that mentions the failed first attempt.  In the run of
    scenario 3 whose step 2 fails once, the attempts are numbered 1, 1, 2, 1
    and the retry of step 2, the third call of the run, is sent six messages
    and ends with a user message that mentions the failed attempt 1 of
    step 2.  In the run of scenario 4 whose step 2 fails once, the retry of
    step 2 is sent the four messages of the call before. *)
Lemma C6_guided_retry_prompt_mentions_failure_witness :
  (let out := scenario1Run Examples.oneRetryEnv Examples.oneRunConfig 1 initialState in
   exists a1 c2 m,
     nth_error (attempts (finalState out)) 0 = Some a1
     /\ AttemptResult.success a1 = false
     /\ nth_error (callsSince initialState (finalState out)) 1 = Some c2
     /\ lastOf (call_messages c2) = Some m
     /\ Mentions m a1)
  /\ (exists r st' a c m,
        scenario3Run Fixtures.stepTwoRetryEnv Examples.oneRunConfig 1 initialState
        = Returns r st'
        /\ map AttemptResult.attemptNumber (RunResult.attempts r) = [1; 1; 2; 1]
        /\ nth_error (RunResult.attempts r) 1 = Some a
        /\ AttemptResult.success a = false
        /\ nth_error (callsSince initialState st') 2 = Some c
        /\ length (call_messages c) = 6
        /\ lastOf (call_messages c) = Some m
        /\ role m = user
        /\ Mentions m a)
  /\ (exists r st' a c1 c2,
        scenario4Run Fixtures.strictStepTwoRetryEnv Examples.oneRunConfig 1
                     initialState
        = Returns r st'
        /\ map AttemptResult.attemptNumber (RunResult.attempts r) = [1; 1; 2; 1]
        /\ nth_error (RunResult.attempts r) 1 = Some a
        /\ AttemptResult.success a = false
        /\ nth_error (callsSince initialState st') 1 = Some c1
        /\ nth_error (callsSince initialState st') 2 = Some c2
        /\ call_messages c2 = call_messages c1
        /\ length (call_messages c2) = 4).
Proof.
  split; [| split].
  - cbv zeta.
    set (out := scenario1Run Examples.oneRetryEnv Examples.oneRunConfig 1 initialState).
    destruct (nth_error (attempts (finalState out)) 0) as [a1|] eqn:Ea;
      [| vm_compute in Ea; discriminate Ea].
    destruct (nth_error (callsSince initialState (finalState out)) 1) as [c2|] eqn:Ec;
      [| vm_compute in Ec; discriminate Ec].
    assert (Hfail : AttemptResult.success a1 = false).
    { vm_compute in Ea. injection Ea as <-. reflexivity. }
    destruct (proj1 (C6_guided_retry_prompt_mentions_failure
                       Examples.oneRetryEnv Examples.oneRunConfig 1 initialState)
                0 a1 c2 Ea Hfail Ec)
      as ((m & Hlast & _ & Hm) & _).
    exists a1, c2, m. auto.
  - destruct (proj1 (proj2 (C6_guided_retry_prompt_mentions_failure
                              Fixtures.stepTwoRetryEnv Examples.oneRunConfig 1
                              initialState)))
      as (r & st' & Hrun & Hcorrected).
    assert (Hr : exists a c,
               map AttemptResult.attemptNumber (RunResult.attempts r) = [1; 1; 2; 1]
               /\ nth_error (RunResult.attempts r) 1 = Some a
               /\ AttemptResult.success a = false
               /\ nth_error (callsSince initialState st') 2 = Some c
               /\ length (call_messages c) = 6).
    { vm_compute in Hrun. injection Hrun as <- <-.
      eexists _, _. repeat split; reflexivity. }
    destruct Hr as (a & c & Hnum & Ha & Hfail & Hc & Hlen).
    destruct (Hcorrected 1 a c Ha Hfail Hc) as ((m & Hlast & Hrole & Hm) & _).
    exists r, st', a, c, m. auto 10.
  - destruct (proj2 (proj2 (proj2 (C6_guided_retry_prompt_mentions_failure
                                     Fixtures.strictStepTwoRetryEnv
                                     Examples.oneRunConfig 1 initialState))))
      as (r & st' & Hrun & Hrepeated).
    assert (Hr : exists a c2,
               map AttemptResult.attemptNumber (RunResult.attempts r) = [1; 1; 2; 1]
               /\ nth_error (RunResult.attempts r) 1 = Some a
               /\ AttemptResult.success a = false
               /\ nth_error (callsSince initialState st') 2 = Some c2
               /\ length (call_messages c2) = 4).
    { vm_compute in Hrun. injection Hrun as <- <-.
      eexists _, _. repeat split; reflexivity. }
    destruct Hr as (a & c2 & Hnum & Ha & Hfail & Hc2 & Hlen).
    destruct (Hrepeated 1 a c2 Ha Hfail Hc2) as ((c1 & Hc1 & Hsame) & _).
    exists r, st', a, c1, c2. auto 10.
Defined.

(** C6, as stated, fails in scenario 2: after a transport failure of the
    first call the second call is sent the three base messages only, and none
    of them contains the message of the error recorded for attempt 1. *)
Lemma C6_counterexample_strict_retry_has_no_context :
  let out := scenario2Run Examples.outageEnv Examples.oneRunConfig 1 initialState in
  exists a1 c2 e,
    nth_error (attempts (finalState out)) 0 = Some a1
    /\ AttemptResult.success a1 = false
    /\ nth_error (callsSince initialState (finalState out)) 1 = Some c2
    /\ In e (AttemptResult.validationErrors a1)
    /\ ValidationError.message e = "Rate limit exceeded"
    /\ forall m, In m (call_messages c2) ->
         Str.includes (content m) (ValidationError.message e) = false.
Proof.
  cbv zeta.
  set (out := scenario2Run Examples.outageEnv Examples.oneRunConfig 1 initialState).
  destruct (nth_error (attempts (finalState out)) 0) as [a1|] eqn:Ea;
    [| vm_compute in Ea; discriminate Ea].
  destruct (nth_error (callsSince initialState (finalState out)) 1) as [c2|] eqn:Ec;
    [| vm_compute in Ec; discriminate Ec].
  vm_compute in Ea. injection Ea as <-.
  vm_compute in Ec. injection Ec as <-.
  eexists _, _, _. split; [reflexivity |]. split; [reflexivity |].
  split; [reflexivity |]. split; [left; reflexivity |].
  split; [reflexivity |].
  intros m [<- | [<- | [<- | []]]]; vm_compute; reflexivity.
Qed.
